(** * Blade arena: the simulation core of [game.js], embedded in Rocq

    The development follows [src/game.js] (the shipped, "optimized"
    variant).  Where the older copy of the same core
    ([src/unnamed/part_000], called the legacy variant below) behaves
    differently on a point the statements are about, the legacy function
    is embedded too, inside [Module Legacy], and the difference is shown
    on an example.

    Numbers.  A JavaScript number is an IEEE-754 binary64 value.  Finite
    numbers are represented by the rational they denote ([Q]); every
    arithmetic operation of the source is the exact rational operation
    followed by [round64], rounding to the nearest value with a 53-bit
    significand (ties to even).  Overflow, subnormals, NaN and the
    infinities are outside the model.  Fields that the program only ever
    assigns integers to (edges, plasma, wave, the part counters, score,
    attack, defense, max health, the stuck counter) are [Z].

    Randomness and the clock.  [Math.random()] and [performance.now()] are
    inputs: every function that draws from them takes the drawn values as
    arguments.  A clock reading is a binary64 number; the statements
    about deadlines ([now + 1400], [now + 550 + jitter]) take it in the
    range from 0 to [MAX_SAFE] = 2^53, where adding such a delay does give
    a later time.

    Library functions.  [Math.cos], [Math.sin] and [Math.hypot] are
    parameters of the functions that call them: the language leaves
    their accuracy to the implementation, and every theorem holds
    whatever they return.  The closed examples run with sample
    implementations ([cos_taylor], [sin_taylor], [hypot_rounded]).

    The particle, float-text, shake and flash calls only write the [FX]
    object, which no rule of the simulation reads; the functions of the
    simulation leave them out, and the functions that write [FX] are
    embedded on their own. *)

From Stdlib Require Import String ZArith QArith Qround Qabs Qpower Lia Lqa List Bool.
Import ListNotations.

Open Scope Q_scope.

(* ================================================================== *)
(** * Binary64 arithmetic *)
(* ================================================================== *)

Module Num.

(** [pow2 e] is 2^e for any integer exponent. *)
Definition pow2 (e : Z) : Q := Qpower 2 e.

(** Exponent of the leading bit of a positive rational:
    [pow2 (ilog2 q) <= q < pow2 (ilog2 q + 1)]. *)
Definition ilog2 (q : Q) : Z :=
  let k := (Z.log2 (Qnum q) - Z.log2 (Zpos (Qden q)))%Z in
  if Qle_bool (pow2 k) q then k else (k - 1)%Z.

(** Nearest integer, ties to the even one. *)
Definition rne (x : Q) : Z :=
  let f := Qfloor x in
  match Qcompare (x - inject_Z f) (1 # 2) with
  | Lt => f
  | Gt => (f + 1)%Z
  | Eq => if Z.even f then f else (f + 1)%Z
  end.

(** Rounding of a positive rational to 53 significant bits. *)
Definition round64_pos (q : Q) : Q :=
  let e := (ilog2 q - 52)%Z in
  inject_Z (rne (q / pow2 e)) * pow2 e.

Definition round64 (q : Q) : Q :=
  match Qcompare q 0 with
  | Eq => 0
  | Gt => Qred (round64_pos q)
  | Lt => Qred (- round64_pos (- q))
  end.

(** A decimal literal of the source denotes the nearest binary64 value. *)
Definition lit (q : Q) : Q := round64 q.

Definition fadd (a b : Q) : Q := round64 (a + b).
Definition fsub (a b : Q) : Q := round64 (a - b).
Definition fmul (a b : Q) : Q := round64 (a * b).
(** The source never divides by zero (every divisor is guarded by
    [|| 1] or by [Math.max(1e-6, _)]). *)
Definition fdiv (a b : Q) : Q := round64 (a / b).

(** The comparisons [a < b] and [a <= b] of the source, as booleans. *)
Definition Qltb (a b : Q) : bool := negb (Qle_bool b a).
Definition Qleb (a b : Q) : bool := Qle_bool a b.

Definition Qmax (a b : Q) : Q := if Qle_bool a b then b else a.
Definition Qmin (a b : Q) : Q := if Qle_bool a b then a else b.

(** [Math.floor], [Math.ceil], [Math.round] (ties toward +infinity). *)
Definition Math_floor (x : Q) : Z := Qfloor x.
Definition Math_ceil (x : Q) : Z := Qceiling x.
Definition Math_round (x : Q) : Z := Qfloor (x + (1 # 2)).

(** [const clamp = (v, a, b) => Math.max(a, Math.min(b, v))] *)
Definition clamp (v a b : Q) : Q := Qmax a (Qmin b v).
Definition clampZ (v a b : Z) : Z := Z.max a (Z.min b v).

(** [const rand = (a, b) => a + Math.random() * (b - a)], with the value
    [u] of [Math.random()] as an argument. *)
Definition rand (a b u : Q) : Q := fadd a (fmul u (fsub b a)).

(** [dist2] *)
Definition dist2 (ax ay bx by_ : Q) : Q :=
  let dx := fsub ax bx in
  let dy := fsub ay by_ in
  fadd (fmul dx dx) (fmul dy dy).

(** [Math.sqrt]: the correctly rounded square root.  The argument is
    scaled by a power of four so that the integer square root [s] has more
    than 53 bits; when the root is not exact, [s + 1/2] is rounded in its
    place (no binary64 value or midpoint lies strictly between [s] and
    [s + 1]). *)
Definition Math_sqrt (q : Q) : Q :=
  match Qcompare q 0 with
  | Gt =>
      let k := (64 - ilog2 q / 2)%Z in
      let scaled := q * pow2 (2 * k) in
      let n := Qfloor scaled in
      let s := Z.sqrt n in
      let exact := ((s * s =? n)%Z && Qeq_bool (inject_Z n) scaled)%bool in
      round64 ((if exact then inject_Z s else inject_Z s + (1 # 2)) * pow2 (- k))
  | _ => 0
  end.

End Num.
Import Num.

(* ================================================================== *)
(** * Constants of [game.js] *)
(* ================================================================== *)

Definition WORLD_W : Q := 4200.
Definition WORLD_H : Q := 2600.

Definition EDGE_CAP : Z := 32.
Definition PLAYER_EDGE_CAP : Z := 26.
Definition PARTS_PER_EDGE : Z := 3.

Definition PARTS_PER_PLASMA : Z := 3.
Definition PLASMA_MAX : Z := 10.
Definition PLASMA_ATK_PER_LEVEL : Z := 2.
Definition PLASMA_PRIME_TIME_MS : Q := 1200.
Definition PLASMA_FIRST_HIT_MULT : Q := 3.

Definition WAVE_MAX : Z := 8.
Definition WAVE_PARTS_PER_LEVEL : Z := 2.
Definition WAVE_COOLDOWN_MS : Q := 950.
Definition WAVE_RANGE : Q := 520.
Definition WAVE_WIDTH : Q := 44.
Definition WAVE_SPEED : Q := 980.
Definition WAVE_DAMAGE_MULT : Q := 2.

Definition REGEN_BOOST_PER_PICKUP : Q := lit (15 # 100).

Definition SCORE_PER_EDGE_PART : Z := 5.
Definition SCORE_PER_REGEN_PART : Z := 6.
Definition SCORE_PER_WAVE_PART : Z := 10.
Definition SCORE_PER_ENEMY_KO : Z := 50.
Definition SCORE_PER_BOSS_KO : Z := 250.
Definition SCORE_DROP_FRACTION_PVP : Q := lit (35 # 100).
Definition SCORE_ORB_LIFETIME_MS : Q := 12000.

Definition ATK_PER_EDGE : Q := lit (12 # 10).
Definition DEF_PER_EDGE : Q := lit (11 # 10).
Definition MAXHP_PER_EDGE : Q := lit (22 # 10).

Definition HIT_RANGE : Q := 38.
Definition HIT_COOLDOWN_MS : Q := 320.

Definition BASE_SPEED : Q := 230.

Definition PLAYER_RADIUS : Q := 18.
Definition ENEMY_RADIUS : Q := 16.
Definition PART_RADIUS : Q := 8.

Definition BOSS_MIN_SPAWN_MS : Q := 24000.
Definition BOSS_MAX_SPAWN_MS : Q := 45000.
Definition BOSS_HP_MULT : Q := lit (37 # 10).
Definition BOSS_ATK_BONUS : Z := 3.
Definition BOSS_DEF_BONUS : Z := 2.
Definition BOSS_RADIUS : Q := 34.

Definition BOT_STUCK_DIST_EPS : Q := 2.
Definition BOT_STUCK_FRAMES : Z := 10.
Definition BOT_ESCAPE_MS : Q := 550.

(** [Math.PI], the binary64 value 3.141592653589793. *)
Definition Math_PI : Q := 884279719003555 # 281474976710656.

(* ================================================================== *)
(** * Data model *)
(* ================================================================== *)

(** [tint] of a fighter: ["player"] or ["bot"]. *)
Inductive Tint : Type := TintPlayer | TintBot.

(** [type] of an enemy object: the three variants, and ["boss"]. *)
Inductive EnemyType : Type := chaser | skitter | brute | boss_type.

(** [id] of an enemy object: the index given to [makeEnemy], or ["boss"]. *)
Inductive EnemyId : Type := IdNum (i : Z) | IdBoss.

(** [kind] of a field part. *)
Inductive PartKind : Type := edge | regen | wave | score.

(** A reference to one of the combatant objects of [state].  The program
    compares objects with [===]; every combatant is stored in exactly one
    place of [state], so the place identifies the object. *)
Inductive Ref : Type :=
| RPlayer                (* state.player *)
| RBot                   (* state.botPlayer *)
| RBoss                  (* state.boss *)
| REnemy (i : nat).      (* state.enemies[i] *)

Definition Ref_eqb (a b : Ref) : bool :=
  match a, b with
  | RPlayer, RPlayer | RBot, RBot | RBoss, RBoss => true
  | REnemy i, REnemy j => Nat.eqb i j
  | _, _ => false
  end.

(** [{ atk, def, maxHp }], the result of [computeStats]. *)
Module Stats.
Record t : Type := mk { atk : Z; def : Z; maxHp : Z }.
End Stats.

(** Static obstacle [{ x, y, w, h }]. *)
Module Rect.
Record t : Type := mk { x : Q; y : Q; w : Q; h : Q }.
End Rect.

(** Field part; [value] is present on score orbs only. *)
Module Part.
Record t : Type := mk {
  x : Q; y : Q; r : Q; kind : PartKind; value : option Z; born : Q
}.
End Part.

Module Fighter.

(** The object built by [makeFighter]: the player and the companion bot. *)
Record t : Type := mk {
  x : Q;
  y : Q;
  vx : Q;
  vy : Q;
  r : Q;
  tint : Tint;
  edges : Z;
  parts : Z;
  plasma : Z;
  plasmaParts : Z;
  wave : Z;
  waveParts : Z;
  regenParts : Z;
  regenRate : Q;
  atk : Z;
  def : Z;
  maxHp : Z;
  hp : Q;
  rot : Q;
  hitReadyAt : Q;
  dashReadyAt : Q;
  dashingUntil : Q;
  plasmaPrimed : bool;
  lastLandedHitAt : Q;
  aimX : Q;
  aimY : Q;
  waveReadyAt : Q;
  score : Z;
  stuckFrames : Z;
  escapeUntil : Q;
  escapeX : Q;
  escapeY : Q;
  invulnUntil : Q;
  plasmaFlashUntil : Q
}.

Definition set_x (v : Q) (o : t) : t :=
  mk v (y o) (vx o) (vy o) (r o) (tint o) (edges o) (parts o) (plasma o) (plasmaParts o) (wave o) (waveParts o) (regenParts o) (regenRate o) (atk o) (def o) (maxHp o) (hp o) (rot o) (hitReadyAt o) (dashReadyAt o) (dashingUntil o) (plasmaPrimed o) (lastLandedHitAt o) (aimX o) (aimY o) (waveReadyAt o) (score o) (stuckFrames o) (escapeUntil o) (escapeX o) (escapeY o) (invulnUntil o) (plasmaFlashUntil o).
Definition set_y (v : Q) (o : t) : t :=
  mk (x o) v (vx o) (vy o) (r o) (tint o) (edges o) (parts o) (plasma o) (plasmaParts o) (wave o) (waveParts o) (regenParts o) (regenRate o) (atk o) (def o) (maxHp o) (hp o) (rot o) (hitReadyAt o) (dashReadyAt o) (dashingUntil o) (plasmaPrimed o) (lastLandedHitAt o) (aimX o) (aimY o) (waveReadyAt o) (score o) (stuckFrames o) (escapeUntil o) (escapeX o) (escapeY o) (invulnUntil o) (plasmaFlashUntil o).
Definition set_vx (v : Q) (o : t) : t :=
  mk (x o) (y o) v (vy o) (r o) (tint o) (edges o) (parts o) (plasma o) (plasmaParts o) (wave o) (waveParts o) (regenParts o) (regenRate o) (atk o) (def o) (maxHp o) (hp o) (rot o) (hitReadyAt o) (dashReadyAt o) (dashingUntil o) (plasmaPrimed o) (lastLandedHitAt o) (aimX o) (aimY o) (waveReadyAt o) (score o) (stuckFrames o) (escapeUntil o) (escapeX o) (escapeY o) (invulnUntil o) (plasmaFlashUntil o).
Definition set_vy (v : Q) (o : t) : t :=
  mk (x o) (y o) (vx o) v (r o) (tint o) (edges o) (parts o) (plasma o) (plasmaParts o) (wave o) (waveParts o) (regenParts o) (regenRate o) (atk o) (def o) (maxHp o) (hp o) (rot o) (hitReadyAt o) (dashReadyAt o) (dashingUntil o) (plasmaPrimed o) (lastLandedHitAt o) (aimX o) (aimY o) (waveReadyAt o) (score o) (stuckFrames o) (escapeUntil o) (escapeX o) (escapeY o) (invulnUntil o) (plasmaFlashUntil o).
Definition set_edges (v : Z) (o : t) : t :=
  mk (x o) (y o) (vx o) (vy o) (r o) (tint o) v (parts o) (plasma o) (plasmaParts o) (wave o) (waveParts o) (regenParts o) (regenRate o) (atk o) (def o) (maxHp o) (hp o) (rot o) (hitReadyAt o) (dashReadyAt o) (dashingUntil o) (plasmaPrimed o) (lastLandedHitAt o) (aimX o) (aimY o) (waveReadyAt o) (score o) (stuckFrames o) (escapeUntil o) (escapeX o) (escapeY o) (invulnUntil o) (plasmaFlashUntil o).
Definition set_parts (v : Z) (o : t) : t :=
  mk (x o) (y o) (vx o) (vy o) (r o) (tint o) (edges o) v (plasma o) (plasmaParts o) (wave o) (waveParts o) (regenParts o) (regenRate o) (atk o) (def o) (maxHp o) (hp o) (rot o) (hitReadyAt o) (dashReadyAt o) (dashingUntil o) (plasmaPrimed o) (lastLandedHitAt o) (aimX o) (aimY o) (waveReadyAt o) (score o) (stuckFrames o) (escapeUntil o) (escapeX o) (escapeY o) (invulnUntil o) (plasmaFlashUntil o).
Definition set_plasma (v : Z) (o : t) : t :=
  mk (x o) (y o) (vx o) (vy o) (r o) (tint o) (edges o) (parts o) v (plasmaParts o) (wave o) (waveParts o) (regenParts o) (regenRate o) (atk o) (def o) (maxHp o) (hp o) (rot o) (hitReadyAt o) (dashReadyAt o) (dashingUntil o) (plasmaPrimed o) (lastLandedHitAt o) (aimX o) (aimY o) (waveReadyAt o) (score o) (stuckFrames o) (escapeUntil o) (escapeX o) (escapeY o) (invulnUntil o) (plasmaFlashUntil o).
Definition set_plasmaParts (v : Z) (o : t) : t :=
  mk (x o) (y o) (vx o) (vy o) (r o) (tint o) (edges o) (parts o) (plasma o) v (wave o) (waveParts o) (regenParts o) (regenRate o) (atk o) (def o) (maxHp o) (hp o) (rot o) (hitReadyAt o) (dashReadyAt o) (dashingUntil o) (plasmaPrimed o) (lastLandedHitAt o) (aimX o) (aimY o) (waveReadyAt o) (score o) (stuckFrames o) (escapeUntil o) (escapeX o) (escapeY o) (invulnUntil o) (plasmaFlashUntil o).
Definition set_wave (v : Z) (o : t) : t :=
  mk (x o) (y o) (vx o) (vy o) (r o) (tint o) (edges o) (parts o) (plasma o) (plasmaParts o) v (waveParts o) (regenParts o) (regenRate o) (atk o) (def o) (maxHp o) (hp o) (rot o) (hitReadyAt o) (dashReadyAt o) (dashingUntil o) (plasmaPrimed o) (lastLandedHitAt o) (aimX o) (aimY o) (waveReadyAt o) (score o) (stuckFrames o) (escapeUntil o) (escapeX o) (escapeY o) (invulnUntil o) (plasmaFlashUntil o).
Definition set_waveParts (v : Z) (o : t) : t :=
  mk (x o) (y o) (vx o) (vy o) (r o) (tint o) (edges o) (parts o) (plasma o) (plasmaParts o) (wave o) v (regenParts o) (regenRate o) (atk o) (def o) (maxHp o) (hp o) (rot o) (hitReadyAt o) (dashReadyAt o) (dashingUntil o) (plasmaPrimed o) (lastLandedHitAt o) (aimX o) (aimY o) (waveReadyAt o) (score o) (stuckFrames o) (escapeUntil o) (escapeX o) (escapeY o) (invulnUntil o) (plasmaFlashUntil o).
Definition set_regenParts (v : Z) (o : t) : t :=
  mk (x o) (y o) (vx o) (vy o) (r o) (tint o) (edges o) (parts o) (plasma o) (plasmaParts o) (wave o) (waveParts o) v (regenRate o) (atk o) (def o) (maxHp o) (hp o) (rot o) (hitReadyAt o) (dashReadyAt o) (dashingUntil o) (plasmaPrimed o) (lastLandedHitAt o) (aimX o) (aimY o) (waveReadyAt o) (score o) (stuckFrames o) (escapeUntil o) (escapeX o) (escapeY o) (invulnUntil o) (plasmaFlashUntil o).
Definition set_atk (v : Z) (o : t) : t :=
  mk (x o) (y o) (vx o) (vy o) (r o) (tint o) (edges o) (parts o) (plasma o) (plasmaParts o) (wave o) (waveParts o) (regenParts o) (regenRate o) v (def o) (maxHp o) (hp o) (rot o) (hitReadyAt o) (dashReadyAt o) (dashingUntil o) (plasmaPrimed o) (lastLandedHitAt o) (aimX o) (aimY o) (waveReadyAt o) (score o) (stuckFrames o) (escapeUntil o) (escapeX o) (escapeY o) (invulnUntil o) (plasmaFlashUntil o).
Definition set_def (v : Z) (o : t) : t :=
  mk (x o) (y o) (vx o) (vy o) (r o) (tint o) (edges o) (parts o) (plasma o) (plasmaParts o) (wave o) (waveParts o) (regenParts o) (regenRate o) (atk o) v (maxHp o) (hp o) (rot o) (hitReadyAt o) (dashReadyAt o) (dashingUntil o) (plasmaPrimed o) (lastLandedHitAt o) (aimX o) (aimY o) (waveReadyAt o) (score o) (stuckFrames o) (escapeUntil o) (escapeX o) (escapeY o) (invulnUntil o) (plasmaFlashUntil o).
Definition set_maxHp (v : Z) (o : t) : t :=
  mk (x o) (y o) (vx o) (vy o) (r o) (tint o) (edges o) (parts o) (plasma o) (plasmaParts o) (wave o) (waveParts o) (regenParts o) (regenRate o) (atk o) (def o) v (hp o) (rot o) (hitReadyAt o) (dashReadyAt o) (dashingUntil o) (plasmaPrimed o) (lastLandedHitAt o) (aimX o) (aimY o) (waveReadyAt o) (score o) (stuckFrames o) (escapeUntil o) (escapeX o) (escapeY o) (invulnUntil o) (plasmaFlashUntil o).
Definition set_hp (v : Q) (o : t) : t :=
  mk (x o) (y o) (vx o) (vy o) (r o) (tint o) (edges o) (parts o) (plasma o) (plasmaParts o) (wave o) (waveParts o) (regenParts o) (regenRate o) (atk o) (def o) (maxHp o) v (rot o) (hitReadyAt o) (dashReadyAt o) (dashingUntil o) (plasmaPrimed o) (lastLandedHitAt o) (aimX o) (aimY o) (waveReadyAt o) (score o) (stuckFrames o) (escapeUntil o) (escapeX o) (escapeY o) (invulnUntil o) (plasmaFlashUntil o).
Definition set_rot (v : Q) (o : t) : t :=
  mk (x o) (y o) (vx o) (vy o) (r o) (tint o) (edges o) (parts o) (plasma o) (plasmaParts o) (wave o) (waveParts o) (regenParts o) (regenRate o) (atk o) (def o) (maxHp o) (hp o) v (hitReadyAt o) (dashReadyAt o) (dashingUntil o) (plasmaPrimed o) (lastLandedHitAt o) (aimX o) (aimY o) (waveReadyAt o) (score o) (stuckFrames o) (escapeUntil o) (escapeX o) (escapeY o) (invulnUntil o) (plasmaFlashUntil o).
Definition set_hitReadyAt (v : Q) (o : t) : t :=
  mk (x o) (y o) (vx o) (vy o) (r o) (tint o) (edges o) (parts o) (plasma o) (plasmaParts o) (wave o) (waveParts o) (regenParts o) (regenRate o) (atk o) (def o) (maxHp o) (hp o) (rot o) v (dashReadyAt o) (dashingUntil o) (plasmaPrimed o) (lastLandedHitAt o) (aimX o) (aimY o) (waveReadyAt o) (score o) (stuckFrames o) (escapeUntil o) (escapeX o) (escapeY o) (invulnUntil o) (plasmaFlashUntil o).
Definition set_plasmaPrimed (v : bool) (o : t) : t :=
  mk (x o) (y o) (vx o) (vy o) (r o) (tint o) (edges o) (parts o) (plasma o) (plasmaParts o) (wave o) (waveParts o) (regenParts o) (regenRate o) (atk o) (def o) (maxHp o) (hp o) (rot o) (hitReadyAt o) (dashReadyAt o) (dashingUntil o) v (lastLandedHitAt o) (aimX o) (aimY o) (waveReadyAt o) (score o) (stuckFrames o) (escapeUntil o) (escapeX o) (escapeY o) (invulnUntil o) (plasmaFlashUntil o).
Definition set_lastLandedHitAt (v : Q) (o : t) : t :=
  mk (x o) (y o) (vx o) (vy o) (r o) (tint o) (edges o) (parts o) (plasma o) (plasmaParts o) (wave o) (waveParts o) (regenParts o) (regenRate o) (atk o) (def o) (maxHp o) (hp o) (rot o) (hitReadyAt o) (dashReadyAt o) (dashingUntil o) (plasmaPrimed o) v (aimX o) (aimY o) (waveReadyAt o) (score o) (stuckFrames o) (escapeUntil o) (escapeX o) (escapeY o) (invulnUntil o) (plasmaFlashUntil o).
Definition set_score (v : Z) (o : t) : t :=
  mk (x o) (y o) (vx o) (vy o) (r o) (tint o) (edges o) (parts o) (plasma o) (plasmaParts o) (wave o) (waveParts o) (regenParts o) (regenRate o) (atk o) (def o) (maxHp o) (hp o) (rot o) (hitReadyAt o) (dashReadyAt o) (dashingUntil o) (plasmaPrimed o) (lastLandedHitAt o) (aimX o) (aimY o) (waveReadyAt o) v (stuckFrames o) (escapeUntil o) (escapeX o) (escapeY o) (invulnUntil o) (plasmaFlashUntil o).
Definition set_stuckFrames (v : Z) (o : t) : t :=
  mk (x o) (y o) (vx o) (vy o) (r o) (tint o) (edges o) (parts o) (plasma o) (plasmaParts o) (wave o) (waveParts o) (regenParts o) (regenRate o) (atk o) (def o) (maxHp o) (hp o) (rot o) (hitReadyAt o) (dashReadyAt o) (dashingUntil o) (plasmaPrimed o) (lastLandedHitAt o) (aimX o) (aimY o) (waveReadyAt o) (score o) v (escapeUntil o) (escapeX o) (escapeY o) (invulnUntil o) (plasmaFlashUntil o).
Definition set_escapeUntil (v : Q) (o : t) : t :=
  mk (x o) (y o) (vx o) (vy o) (r o) (tint o) (edges o) (parts o) (plasma o) (plasmaParts o) (wave o) (waveParts o) (regenParts o) (regenRate o) (atk o) (def o) (maxHp o) (hp o) (rot o) (hitReadyAt o) (dashReadyAt o) (dashingUntil o) (plasmaPrimed o) (lastLandedHitAt o) (aimX o) (aimY o) (waveReadyAt o) (score o) (stuckFrames o) v (escapeX o) (escapeY o) (invulnUntil o) (plasmaFlashUntil o).
Definition set_escapeX (v : Q) (o : t) : t :=
  mk (x o) (y o) (vx o) (vy o) (r o) (tint o) (edges o) (parts o) (plasma o) (plasmaParts o) (wave o) (waveParts o) (regenParts o) (regenRate o) (atk o) (def o) (maxHp o) (hp o) (rot o) (hitReadyAt o) (dashReadyAt o) (dashingUntil o) (plasmaPrimed o) (lastLandedHitAt o) (aimX o) (aimY o) (waveReadyAt o) (score o) (stuckFrames o) (escapeUntil o) v (escapeY o) (invulnUntil o) (plasmaFlashUntil o).
Definition set_escapeY (v : Q) (o : t) : t :=
  mk (x o) (y o) (vx o) (vy o) (r o) (tint o) (edges o) (parts o) (plasma o) (plasmaParts o) (wave o) (waveParts o) (regenParts o) (regenRate o) (atk o) (def o) (maxHp o) (hp o) (rot o) (hitReadyAt o) (dashReadyAt o) (dashingUntil o) (plasmaPrimed o) (lastLandedHitAt o) (aimX o) (aimY o) (waveReadyAt o) (score o) (stuckFrames o) (escapeUntil o) (escapeX o) v (invulnUntil o) (plasmaFlashUntil o).
Definition set_invulnUntil (v : Q) (o : t) : t :=
  mk (x o) (y o) (vx o) (vy o) (r o) (tint o) (edges o) (parts o) (plasma o) (plasmaParts o) (wave o) (waveParts o) (regenParts o) (regenRate o) (atk o) (def o) (maxHp o) (hp o) (rot o) (hitReadyAt o) (dashReadyAt o) (dashingUntil o) (plasmaPrimed o) (lastLandedHitAt o) (aimX o) (aimY o) (waveReadyAt o) (score o) (stuckFrames o) (escapeUntil o) (escapeX o) (escapeY o) v (plasmaFlashUntil o).
Definition set_plasmaFlashUntil (v : Q) (o : t) : t :=
  mk (x o) (y o) (vx o) (vy o) (r o) (tint o) (edges o) (parts o) (plasma o) (plasmaParts o) (wave o) (waveParts o) (regenParts o) (regenRate o) (atk o) (def o) (maxHp o) (hp o) (rot o) (hitReadyAt o) (dashReadyAt o) (dashingUntil o) (plasmaPrimed o) (lastLandedHitAt o) (aimX o) (aimY o) (waveReadyAt o) (score o) (stuckFrames o) (escapeUntil o) (escapeX o) (escapeY o) (invulnUntil o) v.
Definition set_waveReadyAt (v : Q) (o : t) : t :=
  mk (x o) (y o) (vx o) (vy o) (r o) (tint o) (edges o) (parts o) (plasma o) (plasmaParts o) (wave o) (waveParts o) (regenParts o) (regenRate o) (atk o) (def o) (maxHp o) (hp o) (rot o) (hitReadyAt o) (dashReadyAt o) (dashingUntil o) (plasmaPrimed o) (lastLandedHitAt o) (aimX o) (aimY o) v (score o) (stuckFrames o) (escapeUntil o) (escapeX o) (escapeY o) (invulnUntil o) (plasmaFlashUntil o).
Definition set_dashReadyAt (v : Q) (o : t) : t :=
  mk (x o) (y o) (vx o) (vy o) (r o) (tint o) (edges o) (parts o) (plasma o) (plasmaParts o) (wave o) (waveParts o) (regenParts o) (regenRate o) (atk o) (def o) (maxHp o) (hp o) (rot o) (hitReadyAt o) v (dashingUntil o) (plasmaPrimed o) (lastLandedHitAt o) (aimX o) (aimY o) (waveReadyAt o) (score o) (stuckFrames o) (escapeUntil o) (escapeX o) (escapeY o) (invulnUntil o) (plasmaFlashUntil o).
Definition set_dashingUntil (v : Q) (o : t) : t :=
  mk (x o) (y o) (vx o) (vy o) (r o) (tint o) (edges o) (parts o) (plasma o) (plasmaParts o) (wave o) (waveParts o) (regenParts o) (regenRate o) (atk o) (def o) (maxHp o) (hp o) (rot o) (hitReadyAt o) (dashReadyAt o) v (plasmaPrimed o) (lastLandedHitAt o) (aimX o) (aimY o) (waveReadyAt o) (score o) (stuckFrames o) (escapeUntil o) (escapeX o) (escapeY o) (invulnUntil o) (plasmaFlashUntil o).
Definition set_aimX (v : Q) (o : t) : t :=
  mk (x o) (y o) (vx o) (vy o) (r o) (tint o) (edges o) (parts o) (plasma o) (plasmaParts o) (wave o) (waveParts o) (regenParts o) (regenRate o) (atk o) (def o) (maxHp o) (hp o) (rot o) (hitReadyAt o) (dashReadyAt o) (dashingUntil o) (plasmaPrimed o) (lastLandedHitAt o) v (aimY o) (waveReadyAt o) (score o) (stuckFrames o) (escapeUntil o) (escapeX o) (escapeY o) (invulnUntil o) (plasmaFlashUntil o).
Definition set_aimY (v : Q) (o : t) : t :=
  mk (x o) (y o) (vx o) (vy o) (r o) (tint o) (edges o) (parts o) (plasma o) (plasmaParts o) (wave o) (waveParts o) (regenParts o) (regenRate o) (atk o) (def o) (maxHp o) (hp o) (rot o) (hitReadyAt o) (dashReadyAt o) (dashingUntil o) (plasmaPrimed o) (lastLandedHitAt o) (aimX o) v (waveReadyAt o) (score o) (stuckFrames o) (escapeUntil o) (escapeX o) (escapeY o) (invulnUntil o) (plasmaFlashUntil o).

End Fighter.

Module Enemy.

(** The object built by [makeEnemy] and [makeBoss]. *)
Record t : Type := mk {
  id : EnemyId;
  type : EnemyType;
  x : Q;
  y : Q;
  vx : Q;
  vy : Q;
  r : Q;
  edges : Z;
  atk : Z;
  def : Z;
  maxHp : Z;
  hp : Q;
  rot : Q;
  hitReadyAt : Q;
  targetX : Q;
  targetY : Q;
  retargetAt : Q
}.

Definition set_x (v : Q) (o : t) : t :=
  mk (id o) (type o) v (y o) (vx o) (vy o) (r o) (edges o) (atk o) (def o) (maxHp o) (hp o) (rot o) (hitReadyAt o) (targetX o) (targetY o) (retargetAt o).
Definition set_y (v : Q) (o : t) : t :=
  mk (id o) (type o) (x o) v (vx o) (vy o) (r o) (edges o) (atk o) (def o) (maxHp o) (hp o) (rot o) (hitReadyAt o) (targetX o) (targetY o) (retargetAt o).
Definition set_vx (v : Q) (o : t) : t :=
  mk (id o) (type o) (x o) (y o) v (vy o) (r o) (edges o) (atk o) (def o) (maxHp o) (hp o) (rot o) (hitReadyAt o) (targetX o) (targetY o) (retargetAt o).
Definition set_vy (v : Q) (o : t) : t :=
  mk (id o) (type o) (x o) (y o) (vx o) v (r o) (edges o) (atk o) (def o) (maxHp o) (hp o) (rot o) (hitReadyAt o) (targetX o) (targetY o) (retargetAt o).
Definition set_edges (v : Z) (o : t) : t :=
  mk (id o) (type o) (x o) (y o) (vx o) (vy o) (r o) v (atk o) (def o) (maxHp o) (hp o) (rot o) (hitReadyAt o) (targetX o) (targetY o) (retargetAt o).
Definition set_atk (v : Z) (o : t) : t :=
  mk (id o) (type o) (x o) (y o) (vx o) (vy o) (r o) (edges o) v (def o) (maxHp o) (hp o) (rot o) (hitReadyAt o) (targetX o) (targetY o) (retargetAt o).
Definition set_def (v : Z) (o : t) : t :=
  mk (id o) (type o) (x o) (y o) (vx o) (vy o) (r o) (edges o) (atk o) v (maxHp o) (hp o) (rot o) (hitReadyAt o) (targetX o) (targetY o) (retargetAt o).
Definition set_maxHp (v : Z) (o : t) : t :=
  mk (id o) (type o) (x o) (y o) (vx o) (vy o) (r o) (edges o) (atk o) (def o) v (hp o) (rot o) (hitReadyAt o) (targetX o) (targetY o) (retargetAt o).
Definition set_hp (v : Q) (o : t) : t :=
  mk (id o) (type o) (x o) (y o) (vx o) (vy o) (r o) (edges o) (atk o) (def o) (maxHp o) v (rot o) (hitReadyAt o) (targetX o) (targetY o) (retargetAt o).
Definition set_hitReadyAt (v : Q) (o : t) : t :=
  mk (id o) (type o) (x o) (y o) (vx o) (vy o) (r o) (edges o) (atk o) (def o) (maxHp o) (hp o) (rot o) v (targetX o) (targetY o) (retargetAt o).
Definition set_rot (v : Q) (o : t) : t :=
  mk (id o) (type o) (x o) (y o) (vx o) (vy o) (r o) (edges o) (atk o) (def o) (maxHp o) (hp o) v (hitReadyAt o) (targetX o) (targetY o) (retargetAt o).
Definition set_targetX (v : Q) (o : t) : t :=
  mk (id o) (type o) (x o) (y o) (vx o) (vy o) (r o) (edges o) (atk o) (def o) (maxHp o) (hp o) (rot o) (hitReadyAt o) v (targetY o) (retargetAt o).
Definition set_targetY (v : Q) (o : t) : t :=
  mk (id o) (type o) (x o) (y o) (vx o) (vy o) (r o) (edges o) (atk o) (def o) (maxHp o) (hp o) (rot o) (hitReadyAt o) (targetX o) v (retargetAt o).
Definition set_retargetAt (v : Q) (o : t) : t :=
  mk (id o) (type o) (x o) (y o) (vx o) (vy o) (r o) (edges o) (atk o) (def o) (maxHp o) (hp o) (rot o) (hitReadyAt o) (targetX o) (targetY o) v.

End Enemy.

Module Projectile.

(** The object pushed by [tryWave]. *)
Record t : Type := mk {
  owner : Ref;
  x : Q;
  y : Q;
  dx : Q;
  dy : Q;
  w : Q;
  len : Q;
  speed : Q;
  life : Q;
  age : Q;
  damageMult : Q;
  waveLevel : Z;
  born : Q
}.

Definition set_x (v : Q) (o : t) : t :=
  mk (owner o) v (y o) (dx o) (dy o) (w o) (len o) (speed o) (life o) (age o) (damageMult o) (waveLevel o) (born o).
Definition set_y (v : Q) (o : t) : t :=
  mk (owner o) (x o) v (dx o) (dy o) (w o) (len o) (speed o) (life o) (age o) (damageMult o) (waveLevel o) (born o).
Definition set_age (v : Q) (o : t) : t :=
  mk (owner o) (x o) (y o) (dx o) (dy o) (w o) (len o) (speed o) (life o) v (damageMult o) (waveLevel o) (born o).

End Projectile.

Module State.

(** The [state] object (camera fields left out). *)
Record t : Type := mk {
  partsOnField : list Part.t;
  enemies : list Enemy.t;
  obstacles : list Rect.t;
  projectiles : list Projectile.t;
  player : Fighter.t;
  botPlayer : option Fighter.t;
  kos : Z;
  nextPartAt : Q;
  boss : option Enemy.t;
  nextBossAt : Q;
  message : option string;
  messageUntil : Q
}.

Definition set_partsOnField (v : list Part.t) (o : t) : t :=
  mk v (enemies o) (obstacles o) (projectiles o) (player o) (botPlayer o) (kos o) (nextPartAt o) (boss o) (nextBossAt o) (message o) (messageUntil o).
Definition set_enemies (v : list Enemy.t) (o : t) : t :=
  mk (partsOnField o) v (obstacles o) (projectiles o) (player o) (botPlayer o) (kos o) (nextPartAt o) (boss o) (nextBossAt o) (message o) (messageUntil o).
Definition set_projectiles (v : list Projectile.t) (o : t) : t :=
  mk (partsOnField o) (enemies o) (obstacles o) v (player o) (botPlayer o) (kos o) (nextPartAt o) (boss o) (nextBossAt o) (message o) (messageUntil o).
Definition set_player (v : Fighter.t) (o : t) : t :=
  mk (partsOnField o) (enemies o) (obstacles o) (projectiles o) v (botPlayer o) (kos o) (nextPartAt o) (boss o) (nextBossAt o) (message o) (messageUntil o).
Definition set_botPlayer (v : option Fighter.t) (o : t) : t :=
  mk (partsOnField o) (enemies o) (obstacles o) (projectiles o) (player o) v (kos o) (nextPartAt o) (boss o) (nextBossAt o) (message o) (messageUntil o).
Definition set_kos (v : Z) (o : t) : t :=
  mk (partsOnField o) (enemies o) (obstacles o) (projectiles o) (player o) (botPlayer o) v (nextPartAt o) (boss o) (nextBossAt o) (message o) (messageUntil o).
Definition set_boss (v : option Enemy.t) (o : t) : t :=
  mk (partsOnField o) (enemies o) (obstacles o) (projectiles o) (player o) (botPlayer o) (kos o) (nextPartAt o) v (nextBossAt o) (message o) (messageUntil o).
Definition set_nextBossAt (v : Q) (o : t) : t :=
  mk (partsOnField o) (enemies o) (obstacles o) (projectiles o) (player o) (botPlayer o) (kos o) (nextPartAt o) (boss o) v (message o) (messageUntil o).
Definition set_message (v : option string) (o : t) : t :=
  mk (partsOnField o) (enemies o) (obstacles o) (projectiles o) (player o) (botPlayer o) (kos o) (nextPartAt o) (boss o) (nextBossAt o) v (messageUntil o).
Definition set_messageUntil (v : Q) (o : t) : t :=
  mk (partsOnField o) (enemies o) (obstacles o) (projectiles o) (player o) (botPlayer o) (kos o) (nextPartAt o) (boss o) (nextBossAt o) (message o) v.
Definition set_obstacles (v : list Rect.t) (o : t) : t :=
  mk (partsOnField o) (enemies o) v (projectiles o) (player o) (botPlayer o) (kos o) (nextPartAt o) (boss o) (nextBossAt o) (message o) (messageUntil o).
Definition set_nextPartAt (v : Q) (o : t) : t :=
  mk (partsOnField o) (enemies o) (obstacles o) (projectiles o) (player o) (botPlayer o) (kos o) v (boss o) (nextBossAt o) (message o) (messageUntil o).

End State.


(* ================================================================== *)
(** * Stats and progression *)
(* ================================================================== *)

Definition computeStats (edges : Z) : Stats.t :=
  let extra := Z.max 0 (edges - 4) in
  let atk := Math_round (fadd 10 (fmul (inject_Z extra) ATK_PER_EDGE)) in
  let def := Math_round (fadd 10 (fmul (inject_Z extra) DEF_PER_EDGE)) in
  let maxHp := Math_round (fadd 100 (fmul (inject_Z extra) MAXHP_PER_EDGE)) in
  Stats.mk atk def maxHp.

Definition recomputeFighterStats (p : Fighter.t) : Fighter.t :=
  let base := computeStats (Fighter.edges p) in
  let p := Fighter.set_atk (Stats.atk base + Fighter.plasma p * PLASMA_ATK_PER_LEVEL) p in
  let p := Fighter.set_def (Stats.def base) p in
  let p := Fighter.set_maxHp (Stats.maxHp base) p in
  Fighter.set_hp (clamp (Fighter.hp p) 0 (inject_Z (Fighter.maxHp p))) p.

Definition addPlasma (p : Fighter.t) (amount : Z) : Fighter.t :=
  let prev := Fighter.plasma p in
  let p := Fighter.set_plasma (clampZ (Fighter.plasma p + amount) 0 PLASMA_MAX) p in
  if negb (Fighter.plasma p =? prev)%Z then
    let p := recomputeFighterStats p in
    let heal := Math_round (fmul (inject_Z (Fighter.maxHp p)) (lit (6 # 100))) in
    Fighter.set_hp
      (clamp (fadd (Fighter.hp p) (inject_Z heal)) 0 (inject_Z (Fighter.maxHp p))) p
  else p.

Definition addWave (p : Fighter.t) (amount : Z) : Fighter.t :=
  Fighter.set_wave (clampZ (Fighter.wave p + amount) 0 WAVE_MAX) p.

(* ================================================================== *)
(** * Entities *)
(* ================================================================== *)

Definition makeFighter (x y : Q) (tint : Tint) : Fighter.t :=
  let edges := 4%Z in
  let base := computeStats edges in
  {| Fighter.x := x; Fighter.y := y; Fighter.vx := 0; Fighter.vy := 0;
     Fighter.r := PLAYER_RADIUS;
     Fighter.tint := tint;
     Fighter.edges := edges;
     Fighter.parts := 0;
     Fighter.plasma := 0;
     Fighter.plasmaParts := 0;
     Fighter.wave := 0;
     Fighter.waveParts := 0;
     Fighter.regenParts := 0;
     Fighter.regenRate := lit (8 # 10);
     Fighter.atk := Stats.atk base;
     Fighter.def := Stats.def base;
     Fighter.maxHp := Stats.maxHp base;
     Fighter.hp := inject_Z (Stats.maxHp base);
     Fighter.rot := 0;
     Fighter.hitReadyAt := 0;
     Fighter.dashReadyAt := 0;
     Fighter.dashingUntil := 0;
     Fighter.plasmaPrimed := true;
     Fighter.lastLandedHitAt := - 1000000000;
     Fighter.aimX := 1;
     Fighter.aimY := 0;
     Fighter.waveReadyAt := 0;
     Fighter.score := 0;
     Fighter.stuckFrames := 0;
     Fighter.escapeUntil := 0;
     Fighter.escapeX := 0;
     Fighter.escapeY := 0;
     Fighter.invulnUntil := 0;
     Fighter.plasmaFlashUntil := 0 |}.

Definition makePlayer : Fighter.t :=
  makeFighter (fmul WORLD_W (lit (5 # 10))) (fmul WORLD_H (lit (55 # 100))) TintPlayer.

Definition makeBotPlayer : Fighter.t :=
  makeFighter (fadd (fmul WORLD_W (lit (5 # 10))) 120)
              (fadd (fmul WORLD_H (lit (55 # 100))) 90) TintBot.

(** The six [Math.random()] values [makeEnemy] consumes, in the order of
    the calls: the variant roll, [x], [y], [rot], [targetX], [targetY]. *)
Record EnemyDraws : Type := {
  u_roll : Q; u_x : Q; u_y : Q; u_rot : Q; u_tx : Q; u_ty : Q
}.

Definition makeEnemy (i : Z) (typeOverride : option EnemyType) (u : EnemyDraws)
  : Enemy.t :=
  let roll := u_roll u in
  let type :=
    match typeOverride with
    | Some t => t
    | None =>
        if Qltb roll (lit (55 # 100)) then chaser
        else if Qltb roll (lit (80 # 100)) then skitter
        else brute
    end in
  let edges := match type with brute => 6%Z | _ => 4%Z end in
  let base := computeStats edges in
  let r :=
    match type with
    | brute => fadd ENEMY_RADIUS 6
    | skitter => fsub ENEMY_RADIUS 2
    | _ => ENEMY_RADIUS
    end in
  {| Enemy.id := IdNum i; Enemy.type := type;
     Enemy.x := rand 120 (fsub WORLD_W 120) (u_x u);
     Enemy.y := rand 120 (fsub WORLD_H 120) (u_y u);
     Enemy.vx := 0; Enemy.vy := 0;
     Enemy.r := r; Enemy.edges := edges;
     Enemy.atk :=
       match type with
       | brute => (Stats.atk base + 2)%Z
       | skitter => Z.max 6 (Stats.atk base - 1)
       | _ => Stats.atk base
       end;
     Enemy.def :=
       match type with
       | skitter => Z.max 6 (Stats.def base - 1)
       | _ => Stats.def base
       end;
     Enemy.maxHp :=
       match type with
       | brute => Math_round (fmul (inject_Z (Stats.maxHp base)) (lit (125 # 100)))
       | skitter => Math_round (fmul (inject_Z (Stats.maxHp base)) (lit (85 # 100)))
       | _ => Stats.maxHp base
       end;
     Enemy.hp := inject_Z (Stats.maxHp base);
     Enemy.rot := rand 0 (fmul Math_PI 2) (u_rot u);
     Enemy.hitReadyAt := 0;
     Enemy.targetX := rand 0 WORLD_W (u_tx u);
     Enemy.targetY := rand 0 WORLD_H (u_ty u);
     Enemy.retargetAt := 0 |}.

(** [makeBoss] draws [x], [y] and [rot].  The boss object has no
    [targetX], [targetY] or [retargetAt] field; the record gives them 0
    and nothing reads them on the boss. *)
Definition makeBoss (ux uy urot : Q) : Enemy.t :=
  let edges := 10%Z in
  let base := computeStats edges in
  let maxHp := Math_round (fmul (inject_Z (Stats.maxHp base)) BOSS_HP_MULT) in
  {| Enemy.id := IdBoss; Enemy.type := boss_type;
     Enemy.x := rand 200 (fsub WORLD_W 200) ux;
     Enemy.y := rand 200 (fsub WORLD_H 200) uy;
     Enemy.vx := 0; Enemy.vy := 0;
     Enemy.r := BOSS_RADIUS;
     Enemy.edges := edges;
     Enemy.atk := (Stats.atk base + BOSS_ATK_BONUS)%Z;
     Enemy.def := (Stats.def base + BOSS_DEF_BONUS)%Z;
     Enemy.maxHp := maxHp; Enemy.hp := inject_Z maxHp;
     Enemy.rot := rand 0 (fmul Math_PI 2) urot;
     Enemy.hitReadyAt := 0;
     Enemy.targetX := 0; Enemy.targetY := 0; Enemy.retargetAt := 0 |}.

(** [respawnEnemy] draws [x], [y] and the reroll chance. *)
Definition respawnEnemy (ux uy uroll : Q) (enemy : Enemy.t) : Enemy.t :=
  let enemy := Enemy.set_x (rand 120 (fsub WORLD_W 120) ux) enemy in
  let enemy := Enemy.set_y (rand 120 (fsub WORLD_H 120) uy) enemy in
  let enemy := Enemy.set_vy 0 (Enemy.set_vx 0 enemy) in
  let enemy :=
    if Qltb uroll (lit (65 # 100)) then
      let prev := Enemy.edges enemy in
      let enemy := Enemy.set_edges (clampZ (Enemy.edges enemy + 1) 3 EDGE_CAP) enemy in
      if negb (Enemy.edges enemy =? prev)%Z then
        let s := computeStats (Enemy.edges enemy) in
        Enemy.set_maxHp (Stats.maxHp s)
          (Enemy.set_def (Stats.def s) (Enemy.set_atk (Stats.atk s) enemy))
      else enemy
    else enemy in
  Enemy.set_hp (inject_Z (Enemy.maxHp enemy)) enemy.

(* ================================================================== *)
(** * Collision *)
(* ================================================================== *)

(** The three fields of an entity that the collision code reads and
    writes.  Fighters, enemies and the boss all go through it. *)
Module Circle.
Record t : Type := mk { x : Q; y : Q; r : Q }.
End Circle.

Definition resolveCircleRect (ent : Circle.t) (rect : Rect.t) : Circle.t :=
  let closestX := clamp (Circle.x ent) (Rect.x rect) (fadd (Rect.x rect) (Rect.w rect)) in
  let closestY := clamp (Circle.y ent) (Rect.y rect) (fadd (Rect.y rect) (Rect.h rect)) in
  let dx := fsub (Circle.x ent) closestX in
  let dy := fsub (Circle.y ent) closestY in
  let d2 := fadd (fmul dx dx) (fmul dy dy) in
  let r := fadd (Circle.r ent) 2 in
  if Qleb (fmul r r) d2 then ent
  else
    let d := Math_sqrt (Qmax (lit (1 # 1000000)) d2) in
    let push := fsub r d in
    Circle.mk (fadd (Circle.x ent) (fmul (fdiv dx d) push))
              (fadd (Circle.y ent) (fmul (fdiv dy d) push))
              (Circle.r ent).

Definition resolveWorldBounds (ent : Circle.t) : Circle.t :=
  Circle.mk
    (clamp (Circle.x ent) (fadd (Circle.r ent) 6) (fsub (fsub WORLD_W (Circle.r ent)) 6))
    (clamp (Circle.y ent) (fadd (Circle.r ent) 6) (fsub (fsub WORLD_H (Circle.r ent)) 6))
    (Circle.r ent).

(** [moveEntity] on the position of an entity whose velocity is
    [(vx, vy)]; [for (const o of state.obstacles)] is the left fold. *)
Definition moveEntity (obstacles : list Rect.t) (ent : Circle.t) (vx vy dt speed : Q)
  : Circle.t :=
  let ent := Circle.mk (fadd (Circle.x ent) (fmul (fmul vx speed) dt))
                       (fadd (Circle.y ent) (fmul (fmul vy speed) dt))
                       (Circle.r ent) in
  let ent := resolveWorldBounds ent in
  fold_left resolveCircleRect obstacles ent.

Definition Fighter_circle (f : Fighter.t) : Circle.t :=
  Circle.mk (Fighter.x f) (Fighter.y f) (Fighter.r f).

Definition moveFighter (obstacles : list Rect.t) (f : Fighter.t) (dt speed : Q)
  : Fighter.t :=
  let c := moveEntity obstacles (Fighter_circle f) (Fighter.vx f) (Fighter.vy f) dt speed in
  Fighter.set_y (Circle.y c) (Fighter.set_x (Circle.x c) f).

(* ================================================================== *)
(** * Regen and pickups *)
(* ================================================================== *)

Definition regenTick (p : Fighter.t) (dt : Q) : Fighter.t :=
  let edgeBonus := fmul (inject_Z (Z.max 0 (Fighter.edges p - 4))) (lit (2 # 100)) in
  let rate :=
    fadd (Fighter.regenRate p)
         (fmul (inject_Z (Fighter.regenParts p)) REGEN_BOOST_PER_PICKUP) in
  Fighter.set_hp
    (clamp (fadd (Fighter.hp p) (fmul (fmul rate (fadd 1 edgeBonus)) dt))
           0 (inject_Z (Fighter.maxHp p))) p.

(** [pickupPart]; [%] is the truncating remainder. *)
Definition pickupPart (f : Fighter.t) (part : Part.t) : Fighter.t :=
  match Part.kind part with
  | score =>
      let val := match Part.value part with Some v => v | None => 0%Z end in
      Fighter.set_score (Fighter.score f + val) f
  | edge =>
      if (Fighter.edges f <? PLAYER_EDGE_CAP)%Z then
        let f := Fighter.set_parts (Fighter.parts f + 1) f in
        let f := Fighter.set_score (Fighter.score f + SCORE_PER_EDGE_PART) f in
        if (Z.rem (Fighter.parts f) PARTS_PER_EDGE =? 0)%Z then
          let before := Fighter.edges f in
          let f := Fighter.set_edges (clampZ (Fighter.edges f + 1) 3 PLAYER_EDGE_CAP) f in
          if negb (Fighter.edges f =? before)%Z then
            let f := recomputeFighterStats f in
            let heal := Math_round (fmul (lit (12 # 100)) (inject_Z (Fighter.maxHp f))) in
            Fighter.set_hp
              (clamp (fadd (Fighter.hp f) (inject_Z heal)) 0 (inject_Z (Fighter.maxHp f))) f
          else f
        else f
      else
        let f := Fighter.set_plasmaParts (Fighter.plasmaParts f + 1) f in
        let f := Fighter.set_score (Fighter.score f + SCORE_PER_EDGE_PART) f in
        if (Z.rem (Fighter.plasmaParts f) PARTS_PER_PLASMA =? 0)%Z then addPlasma f 1
        else f
  | regen =>
      let f := Fighter.set_regenParts (Fighter.regenParts f + 1) f in
      Fighter.set_score (Fighter.score f + SCORE_PER_REGEN_PART) f
  | wave =>
      let f := Fighter.set_waveParts (Fighter.waveParts f + 1) f in
      let f := Fighter.set_score (Fighter.score f + SCORE_PER_WAVE_PART) f in
      if (Z.rem (Fighter.waveParts f) WAVE_PARTS_PER_LEVEL =? 0)%Z then addWave f 1
      else f
  end.

(* ================================================================== *)
(** * Respawn of a fighter *)
(* ================================================================== *)

Section Respawn.

(** [Math.hypot] of two arguments.  The language leaves its accuracy to
    the implementation, so it is a parameter of the functions that call
    it, as [Math.cos] and [Math.sin] are. *)
Variable Math_hypot : Q -> Q -> Q.

(** [respawnFighter(p, isPlayer)]; [boss] is [state.boss] and [now] the
    value of [performance.now()] read on entry. *)
Definition respawnFighter (boss : option Enemy.t) (now : Q) (p : Fighter.t)
  (isPlayer : bool) : Fighter.t :=
  let p := Fighter.set_x (fadd (fmul WORLD_W (lit (5 # 10))) (if isPlayer then 0 else 220)) p in
  let p := Fighter.set_y (fadd (fmul WORLD_H (lit (55 # 100))) (if isPlayer then 0 else 160)) p in
  let p := Fighter.set_vy 0 (Fighter.set_vx 0 p) in
  let p := recomputeFighterStats p in
  let p := Fighter.set_hp (inject_Z (Fighter.maxHp p)) p in
  let p := Fighter.set_plasmaPrimed true p in
  let p := Fighter.set_lastLandedHitAt (- 1000000000) p in
  let p := Fighter.set_stuckFrames 0 p in
  let p := Fighter.set_escapeUntil 0 p in
  let p := Fighter.set_invulnUntil (fadd now 1400) p in
  match boss with
  | Some b =>
      let dx := fsub (Fighter.x p) (Enemy.x b) in
      let dy := fsub (Fighter.y p) (Enemy.y b) in
      let h := Math_hypot dx dy in
      let d := if Qeq_bool h 0 then 1 else h in
      if Qltb d 420 then
        let ux := fdiv dx d in
        let uy := fdiv dy d in
        let p := Fighter.set_x
                   (clamp (fadd (Enemy.x b) (fmul ux 520))
                          (fadd (Fighter.r p) 10) (fsub (fsub WORLD_W (Fighter.r p)) 10)) p in
        Fighter.set_y
          (clamp (fadd (Enemy.y b) (fmul uy 520))
                 (fadd (Fighter.r p) 10) (fsub (fsub WORLD_H (Fighter.r p)) 10)) p
      else p
  | None => p
  end.

End Respawn.

(* ================================================================== *)
(** * The combatants of [state] *)
(* ================================================================== *)

(** What a reference points to: a fighter object or an enemy object (the
    boss is built by [makeBoss] with the fields of an enemy). *)
Inductive Ent : Type :=
| EF (f : Fighter.t)
| EE (e : Enemy.t).

(** Reads and writes of the fields [applyDamage] touches.  A field that
    an enemy object does not have reads as [undefined], which is falsy:
    [plasmaPrimed] is [false] on it and the spawn-protection test fails. *)
Definition ent_hitReadyAt (e : Ent) : Q :=
  match e with EF f => Fighter.hitReadyAt f | EE e => Enemy.hitReadyAt e end.
Definition ent_atk (e : Ent) : Z :=
  match e with EF f => Fighter.atk f | EE e => Enemy.atk e end.
Definition ent_def (e : Ent) : Z :=
  match e with EF f => Fighter.def f | EE e => Enemy.def e end.
Definition ent_hp (e : Ent) : Q :=
  match e with EF f => Fighter.hp f | EE e => Enemy.hp e end.
Definition ent_x (e : Ent) : Q :=
  match e with EF f => Fighter.x f | EE e => Enemy.x e end.
Definition ent_y (e : Ent) : Q :=
  match e with EF f => Fighter.y f | EE e => Enemy.y e end.
Definition ent_r (e : Ent) : Q :=
  match e with EF f => Fighter.r f | EE e => Enemy.r e end.
Definition ent_plasmaPrimed (e : Ent) : bool :=
  match e with EF f => Fighter.plasmaPrimed f | EE _ => false end.

(** [defender.invulnUntil && now < defender.invulnUntil] *)
Definition ent_invulnerable (e : Ent) (now : Q) : bool :=
  match e with
  | EF f => negb (Qeq_bool (Fighter.invulnUntil f) 0) && Qltb now (Fighter.invulnUntil f)
  | EE _ => false
  end.

(** A write through a reference: [gF] is what it does on a fighter
    object, [gE] on an enemy object. *)
Definition ent_on (gF : Fighter.t -> Fighter.t) (gE : Enemy.t -> Enemy.t) (e : Ent)
  : Ent :=
  match e with EF f => EF (gF f) | EE e => EE (gE e) end.

Definition ent_set_hitReadyAt (v : Q) : Ent -> Ent :=
  ent_on (Fighter.set_hitReadyAt v) (Enemy.set_hitReadyAt v).
Definition ent_set_hp (v : Q) : Ent -> Ent :=
  ent_on (Fighter.set_hp v) (Enemy.set_hp v).

(** The writes below are only reached with a fighter: [plasmaPrimed] is
    truthy on fighters only, [lastLandedHitAt] is written on
    [state.player] only, a score is added to the killer of a boss, of an
    enemy or of a fighter in PvP, and no call site lets an enemy attack
    an enemy or the boss. *)
Definition ent_onFighter (g : Fighter.t -> Fighter.t) : Ent -> Ent :=
  ent_on g (fun e => e).
Definition ent_onEnemy (g : Enemy.t -> Enemy.t) : Ent -> Ent :=
  ent_on (fun f => f) g.
Definition ent_add_score (v : Z) : Ent -> Ent :=
  ent_onFighter (fun f => Fighter.set_score (Fighter.score f + v) f).

Fixpoint replace_nth {A : Type} (i : nat) (v : A) (l : list A) : list A :=
  match l, i with
  | [], _ => []
  | _ :: t, O => v :: t
  | a :: t, S j => a :: replace_nth j v t
  end.

Definition getEnt (st : State.t) (r : Ref) : option Ent :=
  match r with
  | RPlayer => Some (EF (State.player st))
  | RBot => option_map EF (State.botPlayer st)
  | RBoss => option_map EE (State.boss st)
  | REnemy i => option_map EE (nth_error (State.enemies st) i)
  end.

Definition setEnt (r : Ref) (e : Ent) (st : State.t) : State.t :=
  match r, e with
  | RPlayer, EF f => State.set_player f st
  | RBot, EF f => State.set_botPlayer (Some f) st
  | RBoss, EE b => State.set_boss (Some b) st
  | REnemy i, EE b => State.set_enemies (replace_nth i b (State.enemies st)) st
  | _, _ => st
  end.

(** In-place update of the object behind a reference. *)
Definition modify (r : Ref) (g : Ent -> Ent) (st : State.t) : State.t :=
  match getEnt st r with
  | Some e => setEnt r (g e) st
  | None => st
  end.

Notation "x <- c1 ;; c2" :=
  (match c1 with Some x => c2 | None => None end)
  (at level 61, c1 at next level, right associativity).

Definition scheduleNextBoss (now u : Q) (st : State.t) : State.t :=
  State.set_nextBossAt (fadd now (rand BOSS_MIN_SPAWN_MS BOSS_MAX_SPAWN_MS u)) st.

(** What one call of [applyDamage] reads from [Math.random()] and
    [performance.now()]: the damage jitter, the delay of the next boss,
    the angle and distance of each score orb, the three draws of
    [respawnEnemy], and the clock as read by [spawnScoreOrbs] and by
    [respawnFighter]. *)
Record Draws : Type := {
  u_jitter : Q;
  u_nextBoss : Q;
  u_orb : nat -> Q * Q;
  u_ex : Q; u_ey : Q; u_eroll : Q;
  t_orbs : Q;
  t_respawn : Q
}.

Section Simulation.

(** [Math.cos], [Math.sin] and [Math.hypot]. *)
Variables Math_cos Math_sin : Q -> Q.
Variable Math_hypot : Q -> Q -> Q.

Local Abbreviation respawnFighter := (respawnFighter Math_hypot).

(** The loop of [spawnScoreOrbs]: [n] iterations are left, [i] is the
    loop counter; returns the parts pushed, in order. *)
Fixpoint spawnScoreOrbs_loop (n : nat) (i chunks remaining : Z) (x y now : Q)
  (u : nat -> Q * Q) : list Part.t :=
  match n with
  | O => []
  | S n' =>
      let val :=
        if (i =? chunks - 1)%Z then remaining
        else Math_floor (fdiv (inject_Z remaining) (inject_Z (chunks - i))) in
      let remaining := (remaining - val)%Z in
      let a := rand 0 (fmul Math_PI 2) (fst (u (Z.to_nat i))) in
      let d := rand 6 26 (snd (u (Z.to_nat i))) in
      Part.mk (fadd x (fmul (Math_cos a) d)) (fadd y (fmul (Math_sin a) d))
              (fadd PART_RADIUS 1) score (Some val) now
      :: spawnScoreOrbs_loop n' (i + 1) chunks remaining x y now u
  end.

Definition spawnScoreOrbs_parts (x y scoreAmount now : Q) (u : nat -> Q * Q)
  : list Part.t :=
  let remaining := Z.max 0 (Math_floor scoreAmount) in
  let chunks := clampZ (Math_ceil (fdiv (inject_Z remaining) 35)) 2 7 in
  spawnScoreOrbs_loop (Z.to_nat chunks) 0 chunks remaining x y now u.

Definition spawnScoreOrbs (x y scoreAmount now : Q) (u : nat -> Q * Q)
  (st : State.t) : State.t :=
  State.set_partsOnField
    (State.partsOnField st ++ spawnScoreOrbs_parts x y scoreAmount now u) st.

(** The branch of [applyDamage] taken once [defender.hp <= 0]. *)
Definition applyDamage_death (st : State.t) (attacker defender : Ref) (now : Q)
  (dr : Draws) : option State.t :=
  if Ref_eqb defender RBoss then
    let st := modify attacker (ent_add_score SCORE_PER_BOSS_KO) st in
    let st := State.set_message (Some "BOSS DEFEATED!"%string) st in
    let st := State.set_messageUntil (fadd now 1400) st in
    let st := State.set_boss None st in
    Some (scheduleNextBoss now (u_nextBoss dr) st)
  else
    let isDefenderAPlayer := Ref_eqb defender RPlayer || Ref_eqb defender RBot in
    let isAttackerAPlayer := Ref_eqb attacker RPlayer || Ref_eqb attacker RBot in
    if isDefenderAPlayer && isAttackerAPlayer && negb (Ref_eqb attacker defender) then
      d <- getEnt st defender ;;
      match d with
      | EF df =>
          let dropped :=
            Math_floor (fmul (inject_Z (Fighter.score df)) SCORE_DROP_FRACTION_PVP) in
          let st :=
            modify defender
              (ent_onFighter (Fighter.set_score (Z.max 0 (Fighter.score df - dropped)))) st in
          let st :=
            if (0 <? dropped)%Z then
              spawnScoreOrbs (Fighter.x df) (Fighter.y df) (inject_Z dropped)
                             (t_orbs dr) (u_orb dr) st
            else st in
          let st := modify attacker (ent_add_score SCORE_PER_ENEMY_KO) st in
          Some (modify defender
                  (ent_onFighter
                     (fun p => respawnFighter (State.boss st) (t_respawn dr) p
                                              (Ref_eqb defender RPlayer))) st)
      | EE _ => None
      end
    else if negb (Ref_eqb defender RPlayer) && negb (Ref_eqb defender RBot) then
      let st := State.set_kos (State.kos st + 1) st in
      let st := modify attacker (ent_add_score SCORE_PER_ENEMY_KO) st in
      Some (modify defender
              (ent_onEnemy (respawnEnemy (u_ex dr) (u_ey dr) (u_eroll dr))) st)
    else
      Some (modify defender
              (ent_onFighter
                 (fun p => respawnFighter (State.boss st) (t_respawn dr) p
                                          (Ref_eqb defender RPlayer))) st).

(** [mult] after the first-strike test
    [if (attacker.plasmaPrimed) { mult *= PLASMA_FIRST_HIT_MULT; ... }]. *)
Definition hitMultiplier (primed : bool) (extraMult : Q) : Q :=
  if primed then fmul extraMult PLASMA_FIRST_HIT_MULT else extraMult.

(** [dmg]: [Math.max(2, Math.round((base + rand(-2, 2)) * mult))] with
    [base = attacker.atk - defender.def * 0.58]; [u] is the value of
    [Math.random()] inside [rand]. *)
Definition damageAmount (atk def : Z) (mult u : Q) : Z :=
  let base := fsub (inject_Z atk) (fmul (inject_Z def) (lit (58 # 100))) in
  Z.max 2 (Math_round (fmul (fadd base (rand (- (2)) 2 u)) mult)).

(** [attacker.hitReadyAt > now && !fromWave] *)
Definition onCooldown (hitReadyAt now : Q) (fromWave : bool) : bool :=
  Qltb now hitReadyAt && negb fromWave.

(** [applyDamage(attacker, defender, now, extraMult, fromWave)].  The
    result is [None] only when a reference does not point to an object of
    [st] (or, in the PvP branch, to an enemy object where [state.player]
    or [state.botPlayer] is meant); the source then fails on a field of
    [null] or [undefined]. *)
Definition applyDamage (st : State.t) (attacker defender : Ref) (now extraMult : Q)
  (fromWave : bool) (dr : Draws) : option State.t :=
  a <- getEnt st attacker ;;
  _ <- getEnt st defender ;;
  if onCooldown (ent_hitReadyAt a) now fromWave then Some st
  else
    let st := modify attacker (ent_set_hitReadyAt (fadd now HIT_COOLDOWN_MS)) st in
    d <- getEnt st defender ;;
    if ent_invulnerable d now then Some st
    else
      a <- getEnt st attacker ;;
      let primed := ent_plasmaPrimed a in
      let mult := hitMultiplier primed extraMult in
      let st :=
        if primed then
          modify attacker
            (ent_onFighter
               (fun f => Fighter.set_plasmaFlashUntil (fadd now 160)
                           (Fighter.set_plasmaPrimed false f))) st
        else st in
      a <- getEnt st attacker ;;
      d <- getEnt st defender ;;
      let dmg := damageAmount (ent_atk a) (ent_def d) mult (u_jitter dr) in
      let st := modify defender (ent_set_hp (Qmax 0 (fsub (ent_hp d) (inject_Z dmg)))) st in
      let st :=
        if Ref_eqb attacker RPlayer then
          modify attacker (ent_onFighter (Fighter.set_lastLandedHitAt now)) st
        else st in
      d <- getEnt st defender ;;
      if Qleb (ent_hp d) 0 then applyDamage_death st attacker defender now dr
      else Some st.

(* ------------------------------------------------------------------ *)
(** ** Wave projectiles *)

(** [tryWave(p, now)]; [p] is [state.player] or [state.botPlayer] at
    every call site.  [p.aimX || 1] replaces a zero by 1. *)
Definition tryWave (st : State.t) (p : Ref) (now : Q) : State.t :=
  match getEnt st p with
  | Some (EF f) =>
      if (Fighter.wave f <=? 0)%Z then st
      else if Qltb now (Fighter.waveReadyAt f) then st
      else
        let st :=
          modify p (ent_onFighter (Fighter.set_waveReadyAt (fadd now WAVE_COOLDOWN_MS))) st in
        let ax := if Qeq_bool (Fighter.aimX f) 0 then 1 else Fighter.aimX f in
        let ay := Fighter.aimY f in
        let h := Math_hypot ax ay in
        let mag := if Qeq_bool h 0 then 1 else h in
        let dx := fdiv ax mag in
        let dy := fdiv ay mag in
        State.set_projectiles
          (State.projectiles st
           ++ [ {| Projectile.owner := p;
                   Projectile.x := fadd (Fighter.x f) (fmul dx (fadd (Fighter.r f) 8));
                   Projectile.y := fadd (Fighter.y f) (fmul dy (fadd (Fighter.r f) 8));
                   Projectile.dx := dx; Projectile.dy := dy;
                   Projectile.w := WAVE_WIDTH;
                   Projectile.len := 52;
                   Projectile.speed := WAVE_SPEED;
                   Projectile.life := fdiv WAVE_RANGE WAVE_SPEED;
                   Projectile.age := 0;
                   Projectile.damageMult := WAVE_DAMAGE_MULT;
                   Projectile.waveLevel := Fighter.wave f;
                   Projectile.born := now |} ]) st
  | _ => st
  end.

(** The capsule test [rectHitProjectile(proj, target)]. *)
Definition rectHitProjectile (proj : Projectile.t) (target : Ent) : bool :=
  let px := Projectile.x proj in
  let py := Projectile.y proj in
  let tx := ent_x target in
  let ty := ent_y target in
  let ex := fadd px (fmul (Projectile.dx proj) (Projectile.len proj)) in
  let ey := fadd py (fmul (Projectile.dy proj) (Projectile.len proj)) in
  let vx := fsub ex px in
  let vy := fsub ey py in
  let wx := fsub tx px in
  let wy := fsub ty py in
  let c1 := fadd (fmul vx wx) (fmul vy wy) in
  let h := fadd (ent_r target) (fdiv (Projectile.w proj) 2) in
  let r2 := fmul h h in
  if Qleb c1 0 then Qleb (dist2 tx ty px py) r2
  else
    let c2 := fadd (fmul vx vx) (fmul vy vy) in
    if Qleb c2 c1 then Qleb (dist2 tx ty ex ey) r2
    else
      let b := fdiv c1 c2 in
      let bx := fadd px (fmul b vx) in
      let by_ := fadd py (fmul b vy) in
      Qleb (dist2 tx ty bx by_) r2.

(** [targets]: every enemy, then the boss, the bot and the player. *)
Definition targets (st : State.t) : list Ref :=
  map REnemy (seq 0 (List.length (State.enemies st)))
  ++ (match State.boss st with Some _ => [RBoss] | None => [] end)
  ++ (match State.botPlayer st with Some _ => [RBot] | None => [] end)
  ++ [RPlayer].

(** The first three statements of the loop body: age and position. *)
Definition advance (pr : Projectile.t) (dt : Q) : Projectile.t :=
  let pr := Projectile.set_age (fadd (Projectile.age pr) dt) pr in
  let pr := Projectile.set_x
              (fadd (Projectile.x pr) (fmul (fmul (Projectile.dx pr) (Projectile.speed pr)) dt)) pr in
  Projectile.set_y
    (fadd (Projectile.y pr) (fmul (fmul (Projectile.dy pr) (Projectile.speed pr)) dt)) pr.

(** What the loop does on a target that passes the capsule test. *)
Definition waveHit (st : State.t) (pr : Projectile.t) (t : Ref) (now : Q) (dr : Draws)
  : option State.t :=
  let mult :=
    fmul (Projectile.damageMult pr)
         (fadd 1 (fmul (inject_Z (Projectile.waveLevel pr)) (lit (5 # 100)))) in
  let st :=
    modify (Projectile.owner pr)
           (ent_on (fun f => Fighter.set_hitReadyAt (Qmin (Fighter.hitReadyAt f) now) f)
                   (fun e => Enemy.set_hitReadyAt (Qmin (Enemy.hitReadyAt e) now) e)) st in
  applyDamage st (Projectile.owner pr) t now mult true dr.

(** [for (const t of targets) { ... break; }]: the state after the loop
    and the value of [hit]. *)
Fixpoint hitLoop (st : State.t) (pr : Projectile.t) (now : Q) (dr : Draws)
  (ts : list Ref) : option (State.t * bool) :=
  match ts with
  | [] => Some (st, false)
  | t :: rest =>
      te <- getEnt st t ;;
      if Qleb (ent_hp te) 0 then hitLoop st pr now dr rest
      else if Ref_eqb t (Projectile.owner pr) then hitLoop st pr now dr rest
      else if rectHitProjectile pr te then
        st' <- waveHit st pr t now dr ;;
        Some (st', true)
      else hitLoop st pr now dr rest
  end.

(** One iteration of the outer loop of [updateProjectiles]: the state
    after it, and the projectile if it stays in the list. *)
Definition stepProjectile (st : State.t) (pr : Projectile.t) (dt now : Q) (dr : Draws)
  : option (State.t * option Projectile.t) :=
  let pr := advance pr dt in
  r <- hitLoop st pr now dr (targets st) ;;
  let (st, hit) := r in
  Some (st, if Qleb (Projectile.life pr) (Projectile.age pr) || hit then None else Some pr).

(** The outer loop runs from the last index to the first, so the tail of
    the list is processed before its head; [dr k] holds the draws used
    for the projectile at index [k].  [applyDamage] neither reads nor
    writes [state.projectiles]: the list is carried beside the state and
    stored by [updateProjectiles] when the loop ends. *)
Fixpoint updateProjectiles_loop (prs : list Projectile.t) (st : State.t) (dt now : Q)
  (dr : nat -> Draws) : option (State.t * list Projectile.t) :=
  match prs with
  | [] => Some (st, [])
  | pr :: rest =>
      r <- updateProjectiles_loop rest st dt now (fun k => dr (S k)) ;;
      let (st, rest') := r in
      r' <- stepProjectile st pr dt now (dr O) ;;
      let (st, o) := r' in
      Some (st, match o with Some pr' => pr' :: rest' | None => rest' end)
  end.

Definition updateProjectiles (st : State.t) (dt now : Q) (dr : nat -> Draws)
  : option State.t :=
  r <- updateProjectiles_loop (State.projectiles st) st dt now dr ;;
  let (st, prs) := r in
  Some (State.set_projectiles prs st).

(* ------------------------------------------------------------------ *)
(** ** The companion bot: movement and stuck detection *)

(** The stuck test of [updateBotPlayer]: the counter after
    [if (trying && moved < BOT_STUCK_DIST_EPS) b.stuckFrames++;
     else b.stuckFrames = Math.max(0, b.stuckFrames - 1);]. *)
Definition stuckCount (b : Fighter.t) (preX preY : Q) : Z :=
  let moved := Math_hypot (fsub (Fighter.x b) preX) (fsub (Fighter.y b) preY) in
  let trying := Qltb (lit (2 # 10)) (Math_hypot (Fighter.vx b) (Fighter.vy b)) in
  if trying && Qltb moved BOT_STUCK_DIST_EPS then (Fighter.stuckFrames b + 1)%Z
  else Z.max 0 (Fighter.stuckFrames b - 1).

(** [if (b.stuckFrames >= BOT_STUCK_FRAMES) { ... }], with the two draws
    [ua] (escape angle) and [uj] (jitter of the escape time). *)
Definition stuckEscape (b : Fighter.t) (now ua uj : Q) : Fighter.t :=
  if (BOT_STUCK_FRAMES <=? Fighter.stuckFrames b)%Z then
    let b := Fighter.set_stuckFrames 0 b in
    let a := rand 0 (fmul Math_PI 2) ua in
    let b := Fighter.set_escapeX (Math_cos a) b in
    let b := Fighter.set_escapeY (Math_sin a) b in
    Fighter.set_escapeUntil (fadd (fadd now BOT_ESCAPE_MS) (rand 120 280 uj)) b
  else b.

(** Lines "Movement" and "Stuck detection" of [updateBotPlayer], applied
    to the bot as the steering code left it. *)
Definition updateBotPlayer_stuck (obstacles : list Rect.t) (b : Fighter.t)
  (dt now ua uj : Q) : Fighter.t :=
  let preX := Fighter.x b in
  let preY := Fighter.y b in
  let b := moveFighter obstacles b dt (fmul BASE_SPEED (lit (94 # 100))) in
  let b := Fighter.set_rot (fadd (Fighter.rot b) (fmul dt (lit (17 # 10)))) b in
  let b := Fighter.set_stuckFrames (stuckCount b preX preY) b in
  stuckEscape b now ua uj.

End Simulation.

(* ================================================================== *)
(** * The legacy variant *)
(* ================================================================== *)

(** The functions of [src/unnamed/part_000] that differ from [game.js] on
    a point the statements below are about.  The legacy fighter object
    has no [invulnUntil] and no [plasmaFlashUntil]; the legacy functions
    never touch these two fields of the record. *)
Module Legacy.

Section Simulation.

Variables Math_cos Math_sin : Q -> Q.
Variable Math_hypot : Q -> Q -> Q.

(** [spawnScoreOrbs]: up to 8 chunks, scattered up to 30 units away. *)
Fixpoint spawnScoreOrbs_loop (n : nat) (i chunks remaining : Z) (x y now : Q)
  (u : nat -> Q * Q) : list Part.t :=
  match n with
  | O => []
  | S n' =>
      let val :=
        if (i =? chunks - 1)%Z then remaining
        else Math_floor (fdiv (inject_Z remaining) (inject_Z (chunks - i))) in
      let remaining := (remaining - val)%Z in
      let a := rand 0 (fmul Math_PI 2) (fst (u (Z.to_nat i))) in
      let d := rand 6 30 (snd (u (Z.to_nat i))) in
      Part.mk (fadd x (fmul (Math_cos a) d)) (fadd y (fmul (Math_sin a) d))
              (fadd PART_RADIUS 1) score (Some val) now
      :: spawnScoreOrbs_loop n' (i + 1) chunks remaining x y now u
  end.

Definition spawnScoreOrbs (x y scoreAmount now : Q) (u : nat -> Q * Q)
  (st : State.t) : State.t :=
  let remaining := Z.max 0 (Math_floor scoreAmount) in
  let chunks := clampZ (Math_ceil (fdiv (inject_Z remaining) 35)) 2 8 in
  State.set_partsOnField
    (State.partsOnField st
     ++ spawnScoreOrbs_loop (Z.to_nat chunks) 0 chunks remaining x y now u) st.

(** [respawnFighter]: no spawn protection, no move away from the boss. *)
Definition respawnFighter (p : Fighter.t) (isPlayer : bool) : Fighter.t :=
  let p := Fighter.set_x (fadd (fmul WORLD_W (lit (5 # 10))) (if isPlayer then 0 else 160)) p in
  let p := Fighter.set_y (fadd (fmul WORLD_H (lit (55 # 100))) (if isPlayer then 0 else 120)) p in
  let p := Fighter.set_vy 0 (Fighter.set_vx 0 p) in
  let p := recomputeFighterStats p in
  let p := Fighter.set_hp (inject_Z (Fighter.maxHp p)) p in
  let p := Fighter.set_plasmaPrimed true p in
  let p := Fighter.set_lastLandedHitAt (- 1000000000) p in
  let p := Fighter.set_stuckFrames 0 p in
  Fighter.set_escapeUntil 0 p.

Definition applyDamage_death (st : State.t) (attacker defender : Ref) (now : Q)
  (dr : Draws) : option State.t :=
  if Ref_eqb defender RBoss then
    let st := modify attacker (ent_add_score SCORE_PER_BOSS_KO) st in
    let st := State.set_message (Some "BOSS DEFEATED!"%string) st in
    let st := State.set_messageUntil (fadd now 1400) st in
    let st := State.set_boss None st in
    Some (scheduleNextBoss now (u_nextBoss dr) st)
  else
    let isDefenderAPlayer := Ref_eqb defender RPlayer || Ref_eqb defender RBot in
    let isAttackerAPlayer := Ref_eqb attacker RPlayer || Ref_eqb attacker RBot in
    if isDefenderAPlayer && isAttackerAPlayer && negb (Ref_eqb attacker defender) then
      d <- getEnt st defender ;;
      match d with
      | EF df =>
          let dropped :=
            Math_floor (fmul (inject_Z (Fighter.score df)) SCORE_DROP_FRACTION_PVP) in
          let st :=
            modify defender
              (ent_onFighter (Fighter.set_score (Z.max 0 (Fighter.score df - dropped)))) st in
          let st :=
            if (0 <? dropped)%Z then
              spawnScoreOrbs (Fighter.x df) (Fighter.y df) (inject_Z dropped)
                             (t_orbs dr) (u_orb dr) st
            else st in
          let st := modify attacker (ent_add_score SCORE_PER_ENEMY_KO) st in
          Some (modify defender
                  (ent_onFighter (fun p => respawnFighter p (Ref_eqb defender RPlayer))) st)
      | EE _ => None
      end
    else if negb (Ref_eqb defender RPlayer) && negb (Ref_eqb defender RBot) then
      let st := State.set_kos (State.kos st + 1) st in
      let st := modify attacker (ent_add_score SCORE_PER_ENEMY_KO) st in
      Some (modify defender
              (ent_onEnemy (respawnEnemy (u_ex dr) (u_ey dr) (u_eroll dr))) st)
    else
      Some (modify defender
              (ent_onFighter (fun p => respawnFighter p (Ref_eqb defender RPlayer))) st).

(** The plasma test of the legacy [applyDamage], on the attacker [f] when
    it is [state.player] with [plasma > 0]: a quiet window re-arms the
    flag before it is read. *)
Definition reprime (now : Q) (f : Fighter.t) : Fighter.t :=
  if Qltb PLASMA_PRIME_TIME_MS (fsub now (Fighter.lastLandedHitAt f))
  then Fighter.set_plasmaPrimed true f
  else f.

(** [applyDamage]: no spawn protection; the first-strike bonus is for
    [state.player] with [plasma > 0] only. *)
Definition applyDamage (st : State.t) (attacker defender : Ref) (now extraMult : Q)
  (fromWave : bool) (dr : Draws) : option State.t :=
  a <- getEnt st attacker ;;
  _ <- getEnt st defender ;;
  if onCooldown (ent_hitReadyAt a) now fromWave then Some st
  else
    let st := modify attacker (ent_set_hitReadyAt (fadd now HIT_COOLDOWN_MS)) st in
    a <- getEnt st attacker ;;
    let bonus :=
      match a with
      | EF f => Ref_eqb attacker RPlayer && (0 <? Fighter.plasma f)%Z
      | EE _ => false
      end in
    let st := if bonus then modify attacker (ent_onFighter (reprime now)) st else st in
    a <- getEnt st attacker ;;
    let primed := bonus && ent_plasmaPrimed a in
    let mult := hitMultiplier primed extraMult in
    let st :=
      if primed then modify attacker (ent_onFighter (Fighter.set_plasmaPrimed false)) st
      else st in
    a <- getEnt st attacker ;;
    d <- getEnt st defender ;;
    let dmg := damageAmount (ent_atk a) (ent_def d) mult (u_jitter dr) in
    let st := modify defender (ent_set_hp (Qmax 0 (fsub (ent_hp d) (inject_Z dmg)))) st in
    let st :=
      if Ref_eqb attacker RPlayer then
        modify attacker (ent_onFighter (Fighter.set_lastLandedHitAt now)) st
      else st in
    d <- getEnt st defender ;;
    if Qleb (ent_hp d) 0 then applyDamage_death st attacker defender now dr
    else Some st.

Definition waveHit (st : State.t) (pr : Projectile.t) (t : Ref) (now : Q) (dr : Draws)
  : option State.t :=
  let mult :=
    fmul (Projectile.damageMult pr)
         (fadd 1 (fmul (inject_Z (Projectile.waveLevel pr)) (lit (5 # 100)))) in
  let st :=
    modify (Projectile.owner pr)
           (ent_on (fun f => Fighter.set_hitReadyAt (Qmin (Fighter.hitReadyAt f) now) f)
                   (fun e => Enemy.set_hitReadyAt (Qmin (Enemy.hitReadyAt e) now) e)) st in
  applyDamage st (Projectile.owner pr) t now mult true dr.

(** The target loop of the legacy [updateProjectiles] has no [break]: it
    goes on after a hit.  [hit] is the flag so far; [dr k] holds the
    draws of the hit on the [k]-th remaining target. *)
Fixpoint hitLoop (st : State.t) (pr : Projectile.t) (now : Q) (dr : nat -> Draws)
  (hit : bool) (ts : list Ref) : option (State.t * bool) :=
  match ts with
  | [] => Some (st, hit)
  | t :: rest =>
      let dr' := fun k => dr (S k) in
      te <- getEnt st t ;;
      if Qleb (ent_hp te) 0 then hitLoop st pr now dr' hit rest
      else if Ref_eqb t (Projectile.owner pr) then hitLoop st pr now dr' hit rest
      else if rectHitProjectile pr te then
        st' <- waveHit st pr t now (dr O) ;;
        hitLoop st' pr now dr' true rest
      else hitLoop st pr now dr' hit rest
  end.

Definition stepProjectile (st : State.t) (pr : Projectile.t) (dt now : Q)
  (dr : nat -> Draws) : option (State.t * option Projectile.t) :=
  let pr := advance pr dt in
  r <- hitLoop st pr now dr false (targets st) ;;
  let (st, hit) := r in
  Some (st, if Qleb (Projectile.life pr) (Projectile.age pr) || hit then None else Some pr).

(** Lines "Movement" and "Stuck detection" of the legacy
    [updateBotPlayer]: the counter is reset, not decayed; the escape
    direction is the velocity turned by a quarter turn to the left or to
    the right ([uturn] is the draw); the escape lasts [BOT_ESCAPE_MS]. *)
Definition updateBotPlayer_stuck (obstacles : list Rect.t) (b : Fighter.t)
  (dt now uturn : Q) : Fighter.t :=
  let preX := Fighter.x b in
  let preY := Fighter.y b in
  let b := moveFighter obstacles b dt (fmul BASE_SPEED (lit (92 # 100))) in
  let b := Fighter.set_rot (fadd (Fighter.rot b) (fmul dt (lit (17 # 10)))) b in
  let moved := Math_hypot (fsub (Fighter.x b) preX) (fsub (Fighter.y b) preY) in
  let trying := Qltb (lit (2 # 10)) (Math_hypot (Fighter.vx b) (Fighter.vy b)) in
  let b :=
    if trying && Qltb moved BOT_STUCK_DIST_EPS
    then Fighter.set_stuckFrames (Fighter.stuckFrames b + 1) b
    else Fighter.set_stuckFrames 0 b in
  if (BOT_STUCK_FRAMES <=? Fighter.stuckFrames b)%Z then
    let b := Fighter.set_stuckFrames 0 b in
    let turn := if Qltb uturn (lit (5 # 10)) then 1 else - (1) in
    let ex := fmul (- Fighter.vy b) turn in
    let ey := fmul (Fighter.vx b) turn in
    let h := Math_hypot ex ey in
    let mag := if Qeq_bool h 0 then 1 else h in
    let b := Fighter.set_escapeX (fdiv ex mag) b in
    let b := Fighter.set_escapeY (fdiv ey mag) b in
    Fighter.set_escapeUntil (fadd now BOT_ESCAPE_MS) b
  else b.

End Simulation.

End Legacy.

(* ================================================================== *)
(** * Effects: particles, floating text, shake and flash *)
(* ================================================================== *)

(** The [FX] object and the functions that write it.  The simulation
    never reads [FX]; the functions of the sections above and below
    leave their effect calls out, and the effect functions are embedded
    here on their own. *)

Definition MAX_PARTICLES : nat := 220.
Definition MAX_FLOAT_TEXT : nat := 40.

Module Particle.
Record t : Type := mk {
  x : Q; y : Q; vx : Q; vy : Q; life : Q; born : Q; size : Q; color : string
}.
End Particle.

Module FloatText.
Record t : Type := mk {
  x : Q; y : Q; vy : Q; text : string; color : string; born : Q; life : Q
}.
End FloatText.

Module FX.
Record t : Type := mk {
  particles : list Particle.t;
  floatText : list FloatText.t;
  shakeT : Q;
  shakeMag : Q;
  flashT : Q
}.
Definition set_particles (v : list Particle.t) (o : t) : t :=
  mk v (floatText o) (shakeT o) (shakeMag o) (flashT o).
Definition set_floatText (v : list FloatText.t) (o : t) : t :=
  mk (particles o) v (shakeT o) (shakeMag o) (flashT o).
Definition set_shakeT (v : Q) (o : t) : t :=
  mk (particles o) (floatText o) v (shakeMag o) (flashT o).
Definition set_shakeMag (v : Q) (o : t) : t :=
  mk (particles o) (floatText o) (shakeT o) v (flashT o).
Definition set_flashT (v : Q) (o : t) : t :=
  mk (particles o) (floatText o) (shakeT o) (shakeMag o) v.
End FX.

(** [addShake(mag, ms)] and [addFlash(ms)]; the defaults [ms = 120] and
    [ms = 70] are given by the caller. *)
Definition addShake (mag ms : Q) (fx : FX.t) : FX.t :=
  let fx := FX.set_shakeMag (Qmax (FX.shakeMag fx) mag) fx in
  FX.set_shakeT (Qmax (FX.shakeT fx) ms) fx.

Definition addFlash (ms : Q) (fx : FX.t) : FX.t :=
  FX.set_flashT (Qmax (FX.flashT fx) ms) fx.

(** [pushParticle]: [shift()] drops the first element (and does nothing
    on an empty array), [push] appends. *)
Definition pushParticle (p : Particle.t) (fx : FX.t) : FX.t :=
  let fx :=
    if (MAX_PARTICLES <=? List.length (FX.particles fx))%nat
    then FX.set_particles (tl (FX.particles fx)) fx else fx in
  FX.set_particles (FX.particles fx ++ [p]) fx.

(** The four draws of one particle, in the order of the source: angle,
    speed, life, size. *)
Record ParticleDraws : Type := {
  u_pangle : Q; u_pspeed : Q; u_plife : Q; u_psize : Q
}.

(** [spawnFloatText(x, y, text, color, ms)], [now] being the clock. *)
Definition spawnFloatText (x y : Q) (text color : string) (ms now : Q) (fx : FX.t) : FX.t :=
  let fx :=
    if (MAX_FLOAT_TEXT <=? List.length (FX.floatText fx))%nat
    then FX.set_floatText (tl (FX.floatText fx)) fx else fx in
  FX.set_floatText
    (FX.floatText fx
     ++ [ {| FloatText.x := x; FloatText.y := y; FloatText.vy := - (26);
             FloatText.text := text; FloatText.color := color;
             FloatText.born := now; FloatText.life := ms |} ]) fx.

(* ================================================================== *)
(** * Obstacles *)
(* ================================================================== *)

Definition OBSTACLE_COUNT : nat := 28.

(** The four draws of [makeObstacle], in the order of the source. *)
Record ObstacleDraws : Type := {
  u_ow : Q; u_oh : Q; u_ox : Q; u_oy : Q
}.

Definition makeObstacle (u : ObstacleDraws) : Rect.t :=
  let w := rand 70 190 (u_ow u) in
  let h := rand 50 160 (u_oh u) in
  {| Rect.x := rand 100 (fsub (fsub WORLD_W 100) w) (u_ox u);
     Rect.y := rand 100 (fsub (fsub WORLD_H 100) h) (u_oy u);
     Rect.w := w; Rect.h := h |}.

Definition obstacleOverlaps (a b : Rect.t) : bool :=
  negb (Qltb (fadd (Rect.x a) (Rect.w a)) (Rect.x b)
        || Qltb (fadd (Rect.x b) (Rect.w b)) (Rect.x a)
        || Qltb (fadd (Rect.y a) (Rect.h a)) (Rect.y b)
        || Qltb (fadd (Rect.y b) (Rect.h b)) (Rect.y a)).

(** [safe]: the centre of the obstacle is more than 260 away from the
    spawn point of the player. *)
Definition obstacleSafe (o : Rect.t) : bool :=
  let cx := fadd (Rect.x o) (fdiv (Rect.w o) 2) in
  let cy := fadd (Rect.y o) (fdiv (Rect.h o) 2) in
  Qltb (fmul 260 260)
       (dist2 cx cy (fmul WORLD_W (lit (5 # 10))) (fmul WORLD_H (lit (55 # 100)))).

(** The [while] loop of [buildObstacles]; [u k] holds the draws of the
    attempt number [k] (counted from 1).  Every iteration increments
    [attempts] and the loop stops at 4000, so [fuel = 4000 - attempts]
    iterations are enough. *)
Fixpoint buildObstacles_loop (fuel : nat) (attempts : nat) (obs : list Rect.t)
  (u : nat -> ObstacleDraws) : list Rect.t :=
  match fuel with
  | O => obs
  | S fuel' =>
      if (List.length obs <? OBSTACLE_COUNT)%nat && (attempts <? 4000)%nat then
        let attempts := S attempts in
        let o := makeObstacle (u attempts) in
        if negb (obstacleSafe o) then buildObstacles_loop fuel' attempts obs u
        else if existsb (obstacleOverlaps o) obs
             then buildObstacles_loop fuel' attempts obs u
             else buildObstacles_loop fuel' attempts (obs ++ [o]) u
      else obs
  end.

Definition buildObstacles (u : nat -> ObstacleDraws) (st : State.t) : State.t :=
  State.set_obstacles (buildObstacles_loop 4000 0 [] u) st.

(* ================================================================== *)
(** * The frame: parts, dash, boss, enemies, player, bot *)
(* ================================================================== *)

Definition REGEN_PART_SPAWN_CHANCE : Q := lit (22 # 100).
Definition WAVE_PART_SPAWN_CHANCE : Q := lit (5 # 100).

Definition DASH_SPEED : Q := 560.
Definition DASH_TIME_MS : Q := 125.
Definition DASH_COOLDOWN_MS : Q := 850.

Definition ENEMY_COUNT : nat := 9.
Definition PART_SPAWN_INTERVAL_MS : Q := 800.
Definition PART_MAX_ON_FIELD : nat := 28.

Section Frame.

Variables Math_cos Math_sin : Q -> Q.
Variable Math_hypot : Q -> Q -> Q.

Local Abbreviation applyDamage := (applyDamage Math_cos Math_sin Math_hypot).
Local Abbreviation tryWave := (tryWave Math_hypot).

(** [choosePartKind], [r] being its draw. *)
Definition choosePartKind (r : Q) : PartKind :=
  if Qltb r WAVE_PART_SPAWN_CHANCE then wave
  else if Qltb r (fadd WAVE_PART_SPAWN_CHANCE REGEN_PART_SPAWN_CHANCE) then regen
  else edge.

(** [tryDash(p, now)] *)
Definition tryDash (p : Fighter.t) (now : Q) : Fighter.t :=
  if Qltb now (Fighter.dashReadyAt p) then p
  else
    let p := Fighter.set_dashReadyAt (fadd now DASH_COOLDOWN_MS) p in
    Fighter.set_dashingUntil (fadd now DASH_TIME_MS) p.

(** [x || 1] on a number: 1 replaces a zero. *)
Definition orOne (x : Q) : Q := if Qeq_bool x 0 then 1 else x.

(** [keys.has(k)] on the set of pressed keys. *)
Definition has (keys : list string) (k : string) : bool :=
  existsb (String.eqb k) keys.

(** The nearest part that is not a score orb, with its squared distance:
    [let best = null, bestD2 = Infinity; for (const p of ...) { ... }].
    Every distance is below [Infinity], so the first candidate is taken. *)
Definition nearestPart (x y : Q) (parts : list Part.t) : option (Q * Part.t) :=
  fold_left
    (fun acc p =>
       match Part.kind p with
       | score => acc
       | _ =>
           let d2 := dist2 x y (Part.x p) (Part.y p) in
           match acc with
           | None => Some (d2, p)
           | Some (best, _) => if Qltb d2 best then Some (d2, p) else acc
           end
       end)
    parts None.

(** [chase]: the bot when there is one and it is strictly closer than
    the player, the player otherwise. *)
Definition chase (st : State.t) (x y : Q) : Fighter.t :=
  let p := State.player st in
  let dp := dist2 x y (Fighter.x p) (Fighter.y p) in
  match State.botPlayer st with
  | Some b => if Qltb (dist2 x y (Fighter.x b) (Fighter.y b)) dp then b else p
  | None => p
  end.

Definition Enemy_circle (e : Enemy.t) : Circle.t :=
  Circle.mk (Enemy.x e) (Enemy.y e) (Enemy.r e).

Definition moveEnemy (obstacles : list Rect.t) (e : Enemy.t) (dt speed : Q) : Enemy.t :=
  let c := moveEntity obstacles (Enemy_circle e) (Enemy.vx e) (Enemy.vy e) dt speed in
  Enemy.set_y (Circle.y c) (Enemy.set_x (Circle.x c) e).

(** What one call of [updateEnemyAI] draws: the delay of the next
    retargeting, the two offsets of the target, and one draw for each
    edge part the enemy touches (indexed by the position of the part in
    [state.partsOnField]). *)
Record EnemyAIDraws : Type := {
  u_retarget : Q; u_offX : Q; u_offY : Q; u_grow : nat -> Q
}.

(** The pickup loop of [updateEnemyAI], from the last part to the first
    (the tail of the list is processed before its head): the parts left
    on the field and the enemy. *)
Fixpoint enemyPickups (parts : list Part.t) (e : Enemy.t) (u : nat -> Q)
  : list Part.t * Enemy.t :=
  match parts with
  | [] => ([], e)
  | part :: rest =>
      let (rest', e) := enemyPickups rest e (fun k => u (S k)) in
      match Part.kind part with
      | score => (part :: rest', e)
      | kind =>
          let rr := fadd (fadd (Enemy.r e) (Part.r part)) 2 in
          if Qleb (dist2 (Enemy.x e) (Enemy.y e) (Part.x part) (Part.y part)) (fmul rr rr)
          then
            (rest',
             match kind with
             | edge =>
                 if Qltb (u O) (lit (40 # 100)) then
                   let prev := Enemy.edges e in
                   let e := Enemy.set_edges (clampZ (Enemy.edges e + 1) 3 EDGE_CAP) e in
                   if negb (Enemy.edges e =? prev)%Z then
                     let s := computeStats (Enemy.edges e) in
                     Enemy.set_maxHp (Stats.maxHp s)
                       (Enemy.set_def (Stats.def s) (Enemy.set_atk (Stats.atk s) e))
                   else e
                 else e
             | _ =>
                 let heal := Math_round (fmul (inject_Z (Enemy.maxHp e)) (lit (14 # 100))) in
                 Enemy.set_hp
                   (clamp (fadd (Enemy.hp e) (inject_Z heal)) 0 (inject_Z (Enemy.maxHp e))) e
             end)
          else (part :: rest', e)
      end
  end.

(** [updateEnemyAI] on the enemy [e], the other fields of [state] being
    read from [st]: the enemy and the parts left on the field. *)
Definition updateEnemyAI_on (st : State.t) (e : Enemy.t) (dt now : Q) (dr : EnemyAIDraws)
  : list Part.t * Enemy.t :=
  let e :=
    if Qltb (Enemy.retargetAt e) now then
      let e := Enemy.set_retargetAt (fadd now (rand 650 1200 (u_retarget dr))) e in
      let c := chase st (Enemy.x e) (Enemy.y e) in
      let e := Enemy.set_targetX (fadd (Fighter.x c) (rand (- (160)) 160 (u_offX dr))) e in
      Enemy.set_targetY (fadd (Fighter.y c) (rand (- (160)) 160 (u_offY dr))) e
    else e in
  let partBias := match Enemy.type e with brute => lit (55 # 100) | _ => 1 end in
  let e :=
    match nearestPart (Enemy.x e) (Enemy.y e) (State.partsOnField st) with
    | Some (bestD2, best) =>
        if Qltb bestD2 (fmul (fmul 260 260) partBias) then
          Enemy.set_targetY (Part.y best) (Enemy.set_targetX (Part.x best) e)
        else e
    | None => e
    end in
  let dx := fsub (Enemy.targetX e) (Enemy.x e) in
  let dy := fsub (Enemy.targetY e) (Enemy.y e) in
  let len := orOne (Math_hypot dx dy) in
  let dx := fdiv dx len in
  let dy := fdiv dy len in
  let e := Enemy.set_vy dy (Enemy.set_vx dx e) in
  let speedMul :=
    match Enemy.type e with
    | brute => lit (75 # 100)
    | skitter => lit (115 # 100)
    | _ => lit (9 # 10)
    end in
  let speed :=
    fadd (fmul (fmul BASE_SPEED (lit (86 # 100))) speedMul)
         (fmul (inject_Z (Enemy.edges e - 4)) (lit (28 # 10))) in
  let e := moveEnemy (State.obstacles st) e dt speed in
  let e :=
    Enemy.set_rot
      (fadd (Enemy.rot e)
            (fmul dt (fadd (lit (16 # 10))
                           (fmul (inject_Z (Enemy.edges e - 4)) (lit (5 # 100)))))) e in
  enemyPickups (State.partsOnField st) e (u_grow dr).

(** [updateEnemyAI(e, dt, now)] for the enemy at index [i] of
    [state.enemies] (the loop of [tick] only passes indices of the
    array). *)
Definition updateEnemyAI (i : nat) (dt now : Q) (dr : EnemyAIDraws) (st : State.t)
  : State.t :=
  match nth_error (State.enemies st) i with
  | Some e =>
      let (parts, e) := updateEnemyAI_on st e dt now dr in
      State.set_partsOnField parts
        (State.set_enemies (replace_nth i e (State.enemies st)) st)
  | None => st
  end.

(** [updateBoss(dt)] *)
Definition updateBoss (dt : Q) (st : State.t) : State.t :=
  match State.boss st with
  | None => st
  | Some b =>
      let c := chase st (Enemy.x b) (Enemy.y b) in
      let dx := fsub (Fighter.x c) (Enemy.x b) in
      let dy := fsub (Fighter.y c) (Enemy.y b) in
      let len := orOne (Math_hypot dx dy) in
      let b := Enemy.set_vy (fdiv dy len) (Enemy.set_vx (fdiv dx len) b) in
      let b := moveEnemy (State.obstacles st) b dt (fmul BASE_SPEED (lit (78 # 100))) in
      let b := Enemy.set_rot (fadd (Enemy.rot b) (fmul dt (lit (12 # 10)))) b in
      State.set_boss (Some b) st
  end.

(** The three draws of [makeBoss] and the draw of [scheduleNextBoss]. *)
Record BossDraws : Type := {
  u_bx : Q; u_by : Q; u_brot : Q; u_bnext : Q
}.

(** [maybeSpawnBoss(now)] *)
Definition maybeSpawnBoss (now : Q) (u : BossDraws) (st : State.t) : State.t :=
  match State.boss st with
  | Some _ => st
  | None =>
      if Qltb now (State.nextBossAt st) then st
      else
        let st := State.set_boss (Some (makeBoss (u_bx u) (u_by u) (u_brot u))) st in
        let st := State.set_message (Some "A BOSS has appeared!"%string) st in
        let st := State.set_messageUntil (fadd now 1500) st in
        scheduleNextBoss now (u_bnext u) st
  end.

(** The pickup loop of [updatePlayer] and of [updateBotPlayer], from the
    last part to the first: the parts left on the field and the fighter. *)
Fixpoint fighterPickups (parts : list Part.t) (f : Fighter.t) : list Part.t * Fighter.t :=
  match parts with
  | [] => ([], f)
  | part :: rest =>
      let (rest', f) := fighterPickups rest f in
      let rr := fadd (fadd (Fighter.r f) (Part.r part)) 4 in
      if Qleb (dist2 (Fighter.x f) (Fighter.y f) (Part.x part) (Part.y part)) (fmul rr rr)
      then (rest', pickupPart f part)
      else (part :: rest', f)
  end.

(** The three draws of [spawnPart]: angle, distance, kind. *)
Record PartDraws : Type := {
  u_sa : Q; u_srad : Q; u_skind : Q
}.

(** What [updateBotPlayer] draws itself: the two offsets of the point it
    shadows, the chance of a wave, the escape angle and the jitter of
    the escape time. *)
Record BotDraws : Type := {
  u_shadowX : Q; u_shadowY : Q; u_cast : Q; u_escape : Q; u_jit : Q
}.

(** The draws of the two [applyDamage] calls of an exchange of blows:
    for each enemy (by index), for the boss, and between the player and
    the bot. *)
Record CombatDraws : Type := {
  d_enemy : nat -> Draws * Draws;
  d_boss : Draws * Draws;
  d_pvp : Draws * Draws
}.

(** [spawnParticles(x, y, color, count, speedMin, speedMax, lifeMin,
    lifeMax, sizeMin, sizeMax)]: [n] iterations are left and [i] is the
    loop counter; [now] is the clock read on entry. *)
Fixpoint spawnParticles_loop (n i : nat) (x y : Q) (color : string)
  (speedMin speedMax lifeMin lifeMax sizeMin sizeMax now : Q)
  (u : nat -> ParticleDraws) (fx : FX.t) : FX.t :=
  match n with
  | O => fx
  | S n' =>
      let a := rand 0 (fmul Math_PI 2) (u_pangle (u i)) in
      let sp := rand speedMin speedMax (u_pspeed (u i)) in
      let fx :=
        pushParticle
          {| Particle.x := x; Particle.y := y;
             Particle.vx := fmul (Math_cos a) sp;
             Particle.vy := fmul (Math_sin a) sp;
             Particle.life := rand lifeMin lifeMax (u_plife (u i));
             Particle.born := now;
             Particle.size := rand sizeMin sizeMax (u_psize (u i));
             Particle.color := color |} fx in
      spawnParticles_loop n' (S i) x y color speedMin speedMax lifeMin lifeMax
                          sizeMin sizeMax now u fx
  end.

Definition spawnParticles (x y : Q) (color : string) (count : nat)
  (speedMin speedMax lifeMin lifeMax sizeMin sizeMax now : Q)
  (u : nat -> ParticleDraws) (fx : FX.t) : FX.t :=
  spawnParticles_loop count 0 x y color speedMin speedMax lifeMin lifeMax
                      sizeMin sizeMax now u fx.

(** [spawnPart()], [now] being the clock it reads. *)
Definition spawnPart (now : Q) (u : PartDraws) (st : State.t) : State.t :=
  let p := State.player st in
  let a := rand 0 (fmul Math_PI 2) (u_sa u) in
  let rad := rand 220 720 (u_srad u) in
  let x := clamp (fadd (Fighter.x p) (fmul (Math_cos a) rad)) 40 (fsub WORLD_W 40) in
  let y := clamp (fadd (Fighter.y p) (fmul (Math_sin a) rad)) 40 (fsub WORLD_H 40) in
  State.set_partsOnField
    (State.partsOnField st
     ++ [ {| Part.x := x; Part.y := y; Part.r := PART_RADIUS;
             Part.kind := choosePartKind (u_skind u);
             Part.value := None; Part.born := now |} ]) st.

(** An exchange of blows: [applyDamage(a, b, now); applyDamage(b, a, now);]
    with the default [extraMult = 1] and [fromWave = false]. *)
Definition exchange (st : State.t) (a b : Ref) (now : Q) (dr : Draws * Draws)
  : option State.t :=
  st <- applyDamage st a b now 1 false (fst dr) ;;
  applyDamage st b a now 1 false (snd dr).

(** [for (const e of state.enemies) { if (dist2(...) <= HIT_RANGE *
    HIT_RANGE) { applyDamage(f, e, now); applyDamage(e, f, now); } }] for
    the fighter behind [who], over the indices [idx] of the array. *)
Fixpoint meleeEnemies (who : Ref) (idx : list nat) (now : Q) (dr : nat -> Draws * Draws)
  (st : State.t) : option State.t :=
  match idx with
  | [] => Some st
  | i :: rest =>
      f <- getEnt st who ;;
      e <- getEnt st (REnemy i) ;;
      st <- (if Qleb (dist2 (ent_x f) (ent_y f) (ent_x e) (ent_y e))
                     (fmul HIT_RANGE HIT_RANGE)
             then exchange st who (REnemy i) now (dr i)
             else Some st) ;;
      meleeEnemies who rest now dr st
  end.

(** [if (state.boss && dist2(...) <= (HIT_RANGE + 14) ** 2) {
    applyDamage(f, state.boss, now); applyDamage(state.boss, f, now); }].
    [state.boss] is read again for the second call: when the first call
    has defeated the boss it is [null], and the second call fails on
    [attacker.hitReadyAt]. *)
Definition meleeBoss (who : Ref) (now : Q) (dr : Draws * Draws) (st : State.t)
  : option State.t :=
  match State.boss st with
  | None => Some st
  | Some b =>
      f <- getEnt st who ;;
      let reach := fadd HIT_RANGE 14 in
      if Qleb (dist2 (ent_x f) (ent_y f) (Enemy.x b) (Enemy.y b)) (fmul reach reach)
      then exchange st who RBoss now dr
      else Some st
  end.

(** The exchange between the two fighters, [a] striking first. *)
Definition meleeFighter (a b : Ref) (now : Q) (dr : Draws * Draws) (st : State.t)
  : option State.t :=
  fa <- getEnt st a ;;
  match getEnt st b with
  | None => Some st
  | Some fb =>
      if Qleb (dist2 (ent_x fa) (ent_y fa) (ent_x fb) (ent_y fb))
              (fmul HIT_RANGE HIT_RANGE)
      then exchange st a b now dr
      else Some st
  end.

(** [updatePlayer(dt, now)] up to the pickups: direction from the keys,
    dash, movement, rotation, regeneration. *)
Definition updatePlayer_move (obstacles : list Rect.t) (keys : list string)
  (dt now : Q) (p : Fighter.t) : Fighter.t :=
  let up := has keys "w" || has keys "arrowup" in
  let down := has keys "s" || has keys "arrowdown" in
  let left := has keys "a" || has keys "arrowleft" in
  let right := has keys "d" || has keys "arrowright" in
  let ay := if up then fsub 0 1 else 0 in
  let ay := if down then fadd ay 1 else ay in
  let ax := if left then fsub 0 1 else 0 in
  let ax := if right then fadd ax 1 else ax in
  let len := Math_hypot ax ay in
  let p :=
    if Qltb (lit (1 # 1000)) len
    then Fighter.set_aimY (fdiv ay len) (Fighter.set_aimX (fdiv ax len) p)
    else p in
  let n := orOne len in
  let p := Fighter.set_vy (fdiv ay n) (Fighter.set_vx (fdiv ax n) p) in
  let p := if has keys " " then tryDash p now else p in
  let isDashing := Qltb now (Fighter.dashingUntil p) in
  let speed := if isDashing then DASH_SPEED else BASE_SPEED in
  let p := moveFighter obstacles p dt speed in
  let p :=
    Fighter.set_rot
      (fadd (Fighter.rot p)
            (fmul dt (fadd (lit (18 # 10))
                           (fmul (inject_Z (Fighter.edges p - 4)) (lit (7 # 100)))))) p in
  regenTick p dt.

(** [updatePlayer(dt, now)]; the camera is not part of the state. *)
Definition updatePlayer (keys : list string) (dt now : Q) (dr : CombatDraws)
  (st : State.t) : option State.t :=
  let p := updatePlayer_move (State.obstacles st) keys dt now (State.player st) in
  let (parts, p) := fighterPickups (State.partsOnField st) p in
  let st := State.set_partsOnField parts (State.set_player p st) in
  st <- meleeEnemies RPlayer (seq 0 (List.length (State.enemies st))) now (d_enemy dr) st ;;
  st <- meleeBoss RPlayer now (d_boss dr) st ;;
  meleeFighter RPlayer RBot now (d_pvp dr) st.

(** [steerTo(tx, ty, strength)], the closure of [updateBotPlayer]. *)
Definition steerTo (dt : Q) (b : Fighter.t) (tx ty strength : Q) : Fighter.t :=
  let dx := fsub tx (Fighter.x b) in
  let dy := fsub ty (Fighter.y b) in
  let len := orOne (Math_hypot dx dy) in
  let dx := fdiv dx len in
  let dy := fdiv dy len in
  let s := clamp (fmul (fmul dt 10) strength) 0 1 in
  let b := Fighter.set_vx (fadd (Fighter.vx b) (fmul (fsub dx (Fighter.vx b)) s)) b in
  let b := Fighter.set_vy (fadd (Fighter.vy b) (fmul (fsub dy (Fighter.vy b)) s)) b in
  let aimLen := orOne (Math_hypot (Fighter.vx b) (Fighter.vy b)) in
  Fighter.set_aimY (fdiv (Fighter.vy b) aimLen)
                   (Fighter.set_aimX (fdiv (Fighter.vx b) aimLen) b).

(** "Go for the nearest part, else shadow the player", [spread] being
    160 next to a boss and 140 without one. *)
Definition steerToPartOrPlayer (st : State.t) (dt spread : Q) (dr : BotDraws)
  (b : Fighter.t) : Fighter.t :=
  match nearestPart (Fighter.x b) (Fighter.y b) (State.partsOnField st) with
  | Some (_, target) => steerTo dt b (Part.x target) (Part.y target) 1
  | None =>
      steerTo dt b
              (fadd (Fighter.x (State.player st)) (rand (- spread) spread (u_shadowX dr)))
              (fadd (Fighter.y (State.player st)) (rand (- spread) spread (u_shadowY dr)))
              (lit (9 # 10))
  end.

(** [if (b.wave > 0 && Math.random() < chance) tryWave(b, now);] *)
Definition maybeWave (chance now : Q) (dr : BotDraws) (st : State.t) : State.t :=
  match State.botPlayer st with
  | Some b =>
      if (0 <? Fighter.wave b)%Z && Qltb (u_cast dr) chance then tryWave st RBot now
      else st
  | None => st
  end.

(** The steering part of [updateBotPlayer]: everything before
    "Movement". *)
Definition updateBotPlayer_steer (dt now : Q) (dr : BotDraws) (b : Fighter.t)
  (st : State.t) : State.t :=
  if Qltb now (Fighter.escapeUntil b) then
    State.set_botPlayer
      (Some (Fighter.set_vy (Fighter.escapeY b) (Fighter.set_vx (Fighter.escapeX b) b))) st
  else
    match State.boss st with
    | Some boss =>
        let bd := Math_hypot (fsub (Fighter.x b) (Enemy.x boss))
                             (fsub (Fighter.y b) (Enemy.y boss)) in
        if Qltb bd 520 then
          let dx := fsub (Fighter.x b) (Enemy.x boss) in
          let dy := fsub (Fighter.y b) (Enemy.y boss) in
          let d := orOne (Math_hypot dx dy) in
          let awayX := fadd (Fighter.x b) (fmul (fdiv dx d) 240) in
          let awayY := fadd (Fighter.y b) (fmul (fdiv dy d) 240) in
          let st := State.set_botPlayer (Some (steerTo dt b awayX awayY (lit (13 # 10)))) st in
          maybeWave (lit (18 # 1000)) now dr st
        else
          let st := State.set_botPlayer (Some (steerToPartOrPlayer st dt 160 dr b)) st in
          maybeWave (lit (10 # 1000)) now dr st
    | None =>
        let st := State.set_botPlayer (Some (steerToPartOrPlayer st dt 140 dr b)) st in
        maybeWave (lit (10 # 1000)) now dr st
    end.

(** [updateBotPlayer(dt, now)] *)
Definition updateBotPlayer (dt now : Q) (dr : BotDraws) (cd : CombatDraws)
  (st : State.t) : option State.t :=
  match State.botPlayer st with
  | None => Some st
  | Some b =>
      let st := updateBotPlayer_steer dt now dr b st in
      match State.botPlayer st with
      | None => Some st
      | Some b =>
          let b := updateBotPlayer_stuck Math_cos Math_sin Math_hypot (State.obstacles st) b dt now
                                         (u_escape dr) (u_jit dr) in
          let b := regenTick b dt in
          let (parts, b) := fighterPickups (State.partsOnField st) b in
          let st := State.set_partsOnField parts (State.set_botPlayer (Some b) st) in
          st <- meleeEnemies RBot (seq 0 (List.length (State.enemies st))) now (d_enemy cd) st ;;
          st <- meleeBoss RBot now (d_boss cd) st ;;
          meleeFighter RBot RPlayer now (d_pvp cd) st
      end
  end.

(** Everything one frame draws. *)
Record TickDraws : Type := {
  t_spawn : Q;
  d_part : PartDraws;
  d_bossSpawn : BossDraws;
  d_player : CombatDraws;
  d_bot : BotDraws;
  d_botCombat : CombatDraws;
  d_ai : nat -> EnemyAIDraws;
  d_proj : nat -> Draws
}.

(** [for (const e of state.enemies) updateEnemyAI(e, dt, now);] *)
Definition updateEnemies (dt now : Q) (dr : nat -> EnemyAIDraws) (st : State.t) : State.t :=
  fold_left (fun st i => updateEnemyAI i dt now (dr i) st)
            (seq 0 (List.length (State.enemies st))) st.

(** The part-spawning lines of [tick]. *)
Definition tick_spawn (now : Q) (dr : TickDraws) (st : State.t) : State.t :=
  if Qltb (State.nextPartAt st) now then
    let st := State.set_nextPartAt (fadd now PART_SPAWN_INTERVAL_MS) st in
    if (List.length (State.partsOnField st) <? PART_MAX_ON_FIELD)%nat
    then spawnPart (t_spawn dr) (d_part dr) st
    else st
  else st.

(** [dt] of [tick]: seconds since the last frame, at most 0.033. *)
Definition frameTime (lastT now : Q) : Q :=
  Qmin (lit (33 # 1000)) (fdiv (fsub now lastT) 1000).

(** [tick(now)] when the game is not paused: the state after the frame
    and the new value of [lastT].  The HUD and the rendering read the
    state and write none of it. *)
Definition tick (keys : list string) (lastT now : Q) (dr : TickDraws) (st : State.t)
  : option (State.t * Q) :=
  let dt := frameTime lastT now in
  let st := tick_spawn now dr st in
  let st := maybeSpawnBoss now (d_bossSpawn dr) st in
  st <- updatePlayer keys dt now (d_player dr) st ;;
  st <- updateBotPlayer dt now (d_bot dr) (d_botCombat dr) st ;;
  let st := updateEnemies dt now (d_ai dr) st in
  let st := updateBoss dt st in
  st <- updateProjectiles Math_cos Math_sin Math_hypot st dt now (d_proj dr) ;;
  Some (st, now).

End Frame.

(** [resetGame()]: [uo] and [ue] are the draws of the obstacles and of
    the enemies, [u_next] the draw of [scheduleNextBoss]; [t_part],
    [t_boss] and [t_msg] are the three readings of the clock.  Every
    field of the state is assigned, so the result does not depend on the
    state before. *)
Definition resetGame (uo : nat -> ObstacleDraws) (ue : nat -> EnemyDraws)
  (u_next t_part t_boss t_msg : Q) : State.t :=
  {| State.partsOnField := [];
     State.enemies := map (fun i => makeEnemy (Z.of_nat i) None (ue i)) (seq 0 ENEMY_COUNT);
     State.obstacles := buildObstacles_loop 4000 0 [] uo;
     State.projectiles := [];
     State.player := recomputeFighterStats makePlayer;
     State.botPlayer := Some (recomputeFighterStats makeBotPlayer);
     State.kos := 0;
     State.nextPartAt := fadd t_part 250;
     State.boss := None;
     State.nextBossAt := fadd t_boss (rand BOSS_MIN_SPAWN_MS BOSS_MAX_SPAWN_MS u_next);
     State.message :=
       Some "Optimized visuals: smoother FPS. WASD/Arrows • Space dash • E wave"%string;
     State.messageUntil := fadd t_msg 2400 |}.

(* ================================================================== *)
(** * Predicates used in the statements *)
(* ================================================================== *)

Section Predicates.

Variable Math_hypot : Q -> Q -> Q.

Local Abbreviation respawnFighter := (respawnFighter Math_hypot).

(** Half a unit in the last place, relative: 2^-53. *)
Definition eps64 : Q := 1 # 9007199254740992.

(** The largest integer up to which every integer is a binary64 value;
    clock readings (milliseconds) stay far below it. *)
Definition MAX_SAFE : Q := 9007199254740992.

(** Component-wise order on derived stats, and its boolean test. *)
Definition stats_le (a b : Stats.t) : Prop :=
  (Stats.atk a <= Stats.atk b)%Z /\
  (Stats.def a <= Stats.def b)%Z /\
  (Stats.maxHp a <= Stats.maxHp b)%Z.

Definition stats_leb (a b : Stats.t) : bool :=
  (Stats.atk a <=? Stats.atk b)%Z &&
  (Stats.def a <=? Stats.def b)%Z &&
  (Stats.maxHp a <=? Stats.maxHp b)%Z.

(** Concrete data for the closed examples: truncated Taylor polynomials
    standing for the host's [Math.cos] and [Math.sin] (the theorems hold
    for any implementation of the two), fixed draws, and a small arena
    with the player, the bot and one chaser. *)
Definition cos_taylor (a : Q) : Q :=
  round64 (1 - a * a / 2 + a * a * a * a / 24 - a * a * a * a * a * a / 720).
Definition sin_taylor (a : Q) : Q :=
  round64 (a - a * a * a / 6 + a * a * a * a * a / 120
           - a * a * a * a * a * a * a / 5040).

(** A [Math.hypot] for the closed examples: the correctly rounded root
    of the exact sum of squares.  An implementation may differ from it in
    the last bit; the theorems hold for every [Math_hypot]. *)
Definition hypot_rounded (a b : Q) : Q := Math_sqrt (a * a + b * b).

Definition sampleEnemyDraws : EnemyDraws :=
  {| u_roll := 1 # 2; u_x := 1 # 2; u_y := 1 # 2; u_rot := 1 # 2;
     u_tx := 1 # 2; u_ty := 1 # 2 |}.

Definition sampleDraws : Draws :=
  {| u_jitter := 1 # 2; u_nextBoss := 1 # 2; u_orb := fun _ => (1 # 8, 1 # 2);
     u_ex := 1 # 4; u_ey := 1 # 4; u_eroll := 1 # 2;
     t_orbs := 1000; t_respawn := 1000 |}.

Definition sampleState : State.t :=
  {| State.partsOnField := [];
     State.enemies := [makeEnemy 0 (Some chaser) sampleEnemyDraws];
     State.obstacles := [];
     State.projectiles := [];
     State.player := makePlayer;
     State.botPlayer := Some makeBotPlayer;
     State.kos := 0;
     State.nextPartAt := 0;
     State.boss := None;
     State.nextBossAt := 0;
     State.message := None;
     State.messageUntil := 0 |}.

(** The sample arena with the bot under spawn protection until [t]. *)
Definition sampleState_botInvuln (t : Q) : State.t :=
  State.set_botPlayer (Some (Fighter.set_invulnUntil t makeBotPlayer)) sampleState.

(** The sample arena with the bot at health [hp] and score [s]. *)
Definition sampleBot (hp : Q) (s : Z) : Fighter.t :=
  Fighter.set_score s (Fighter.set_hp hp makeBotPlayer).

Definition sampleState_bot (hp : Q) (s : Z) : State.t :=
  State.set_botPlayer (Some (sampleBot hp s)) sampleState.

(** The sample arena with an unprimed bot at health [hp] and score [s]. *)
Definition sampleState_unprimedBot (hp : Q) (s : Z) : State.t :=
  State.set_botPlayer (Some (Fighter.set_plasmaPrimed false (sampleBot hp s))) sampleState.

(** An edge part lying on the field. *)
Definition sampleEdgePart : Part.t :=
  {| Part.x := 100; Part.y := 100; Part.r := PART_RADIUS; Part.kind := edge;
     Part.value := None; Part.born := 0 |}.

(** A brute-sized entity whose centre is inside an obstacle, 5 units
    from its left side. *)
Definition sampleRect : Rect.t := Rect.mk 100 100 80 60.
Definition sampleCircleInside : Circle.t := Circle.mk 105 130 18.

(** The bot pressed against the left side of an obstacle, steering into
    it, after nine stuck frames. *)
Definition sampleWall : Rect.t := Rect.mk 1000 1000 100 100.
Definition sampleStuckBot : Fighter.t :=
  Fighter.set_stuckFrames 9
    (Fighter.set_vy 0 (Fighter.set_vx 1
       (Fighter.set_y 1050 (Fighter.set_x 980 makeBotPlayer)))).

(** A wave of the player about to reach the chaser of the sample arena
    (which stands at (2100, 1300)), and one flying away from everything
    at the end of its life. *)
Definition sampleWaveHit : Projectile.t :=
  {| Projectile.owner := RPlayer;
     Projectile.x := 2040; Projectile.y := 1300;
     Projectile.dx := 1; Projectile.dy := 0;
     Projectile.w := WAVE_WIDTH; Projectile.len := 52;
     Projectile.speed := WAVE_SPEED;
     Projectile.life := fdiv WAVE_RANGE WAVE_SPEED;
     Projectile.age := 0;
     Projectile.damageMult := WAVE_DAMAGE_MULT;
     Projectile.waveLevel := 1;
     Projectile.born := 0 |}.

Definition sampleWaveMiss : Projectile.t :=
  {| Projectile.owner := RPlayer;
     Projectile.x := 3000; Projectile.y := 300;
     Projectile.dx := 1; Projectile.dy := 0;
     Projectile.w := WAVE_WIDTH; Projectile.len := 52;
     Projectile.speed := WAVE_SPEED;
     Projectile.life := fdiv WAVE_RANGE WAVE_SPEED;
     Projectile.age := fdiv WAVE_RANGE WAVE_SPEED;
     Projectile.damageMult := WAVE_DAMAGE_MULT;
     Projectile.waveLevel := 1;
     Projectile.born := 0 |}.

(** A fresh wave flying away from everything, and the sample arena with
    a given list of projectiles in flight. *)
Definition sampleWaveFar : Projectile.t := Projectile.set_age 0 sampleWaveMiss.

Definition sampleState_waves (prs : list Projectile.t) : State.t :=
  State.set_projectiles prs sampleState.

(** The sample arena with a second chaser standing on the first, and
    the sample arena with a player of plasma 2 whose flag was used up at
    time 0. *)
Definition sampleState_twoChasers : State.t :=
  State.set_enemies [makeEnemy 0 (Some chaser) sampleEnemyDraws;
                     makeEnemy 1 (Some chaser) sampleEnemyDraws] sampleState.

Definition sampleState_unprimed : State.t :=
  State.set_player
    (Fighter.set_lastLandedHitAt 0
       (Fighter.set_plasmaPrimed false (addPlasma makePlayer 2))) sampleState.

(** The state once [applyDamage] has consumed the attacker's cooldown. *)
Definition afterCooldown (st : State.t) (a : Ref) (now : Q) : State.t :=
  modify a (ent_set_hitReadyAt (fadd now HIT_COOLDOWN_MS)) st.

(** The defender's health after a hit that is neither on cooldown nor
    blocked by spawn protection; [ae] and [de] are the attacker and the
    defender on entry. *)
Definition hitHp (ae de : Ent) (m : Q) (dr : Draws) : Q :=
  Qmax 0 (fsub (ent_hp de)
               (inject_Z (damageAmount (ent_atk ae) (ent_def de)
                                       (hitMultiplier (ent_plasmaPrimed ae) m)
                                       (u_jitter dr)))).

(** The state of [applyDamage] when it reaches [if (defender.hp <= 0)]. *)
Definition hitState (st : State.t) (a d : Ref) (now m : Q) (dr : Draws) (ae de : Ent)
  : State.t :=
  let st1 := afterCooldown st a now in
  let st2 :=
    if ent_plasmaPrimed ae then
      modify a (ent_onFighter
                  (fun f => Fighter.set_plasmaFlashUntil (fadd now 160)
                              (Fighter.set_plasmaPrimed false f))) st1
    else st1 in
  let st3 := modify d (ent_set_hp (hitHp ae de m dr)) st2 in
  if Ref_eqb a RPlayer then
    modify a (ent_onFighter (Fighter.set_lastLandedHitAt now)) st3
  else st3.

(** [part.value || 0], and the total value of a list of parts. *)
Definition partValue (p : Part.t) : Z :=
  match Part.value p with Some v => v | None => 0%Z end.

Definition orbTotal (ps : list Part.t) : Z :=
  fold_right (fun p acc => (partValue p + acc)%Z) 0%Z ps.

(** [dropped] of the PvP branch of [applyDamage], for a loser whose score
    is [s]. *)
Definition droppedScore (s : Z) : Z :=
  Math_floor (fmul (inject_Z s) SCORE_DROP_FRACTION_PVP).

(** The four bounds of a fighter. *)
Definition fighterBounds (f : Fighter.t) : Prop :=
  (0 <= Fighter.hp f /\ Fighter.hp f <= inject_Z (Fighter.maxHp f)) /\
  (0 <= Fighter.edges f <= PLAYER_EDGE_CAP)%Z /\
  (0 <= Fighter.plasma f <= PLASMA_MAX)%Z /\
  (0 <= Fighter.wave f <= WAVE_MAX)%Z.

(** The operations that change a fighter on its own: a part pickup, a
    regeneration tick, the addition of plasma or wave levels, the
    recomputation of the stats, and a respawn.  (Heals are part of the
    pickup and of [addPlasma]; damage goes through [applyDamage], on the
    whole state.) *)
Inductive Mutation : Type :=
| MPickup (part : Part.t)
| MRegen (dt : Q)
| MAddPlasma (amount : Z)
| MAddWave (amount : Z)
| MRecompute
| MRespawn (boss : option Enemy.t) (now : Q) (isPlayer : bool).

Definition mutate (mu : Mutation) (f : Fighter.t) : Fighter.t :=
  match mu with
  | MPickup part => pickupPart f part
  | MRegen dt => regenTick f dt
  | MAddPlasma amount => addPlasma f amount
  | MAddWave amount => addWave f amount
  | MRecompute => recomputeFighterStats f
  | MRespawn boss now isPlayer => respawnFighter boss now f isPlayer
  end.

(** Every fighter of the state is within its bounds. *)
Definition stateBounds (st : State.t) : Prop :=
  forall r f, getEnt st r = Some (EF f) -> fighterBounds f.

(** Max health is an integer that binary64 represents exactly. *)
Definition stateSafe (st : State.t) : Prop :=
  forall r f, getEnt st r = Some (EF f) -> inject_Z (Fighter.maxHp f) <= MAX_SAFE.

(** [respawnFighter] up to the statement that grants spawn protection,
    before the spawn point is moved away from the boss. *)
Definition respawnCore (now : Q) (p : Fighter.t) (isPlayer : bool) : Fighter.t :=
  let p := Fighter.set_x (fadd (fmul WORLD_W (lit (5 # 10))) (if isPlayer then 0 else 220)) p in
  let p := Fighter.set_y (fadd (fmul WORLD_H (lit (55 # 100))) (if isPlayer then 0 else 160)) p in
  let p := Fighter.set_vy 0 (Fighter.set_vx 0 p) in
  let p := recomputeFighterStats p in
  let p := Fighter.set_hp (inject_Z (Fighter.maxHp p)) p in
  let p := Fighter.set_plasmaPrimed true p in
  let p := Fighter.set_lastLandedHitAt (- 1000000000) p in
  let p := Fighter.set_stuckFrames 0 p in
  let p := Fighter.set_escapeUntil 0 p in
  Fighter.set_invulnUntil (fadd now 1400) p.

(** [q] is a binary64 value. *)
Definition is_binary64 (q : Q) : Prop := round64 q = q.

(** The points a part adds to the score of the fighter who picks it up. *)
Definition partGain (part : Part.t) : Z :=
  match Part.kind part with
  | score => partValue part
  | edge => SCORE_PER_EDGE_PART
  | regen => SCORE_PER_REGEN_PART
  | wave => SCORE_PER_WAVE_PART
  end.

(** [q] is a binary64 value, whatever fraction represents it. *)
Definition exact64 (q : Q) : Prop := round64 q == q.

(** The centre of the entity lies in the rectangle (sides included). *)
Definition centreInside (ent : Circle.t) (rect : Rect.t) : Prop :=
  (Rect.x rect <= Circle.x ent /\ Circle.x ent <= fadd (Rect.x rect) (Rect.w rect)) /\
  (Rect.y rect <= Circle.y ent /\ Circle.y ent <= fadd (Rect.y rect) (Rect.h rect)).

(** Distance from a point of the rectangle to the nearest point of its
    four sides. *)
Definition distanceToSides (ent : Circle.t) (rect : Rect.t) : Q :=
  Qmin (Qmin (Circle.x ent - Rect.x rect)
             (Rect.x rect + Rect.w rect - Circle.x ent))
       (Qmin (Circle.y ent - Rect.y rect)
             (Rect.y rect + Rect.h rect - Circle.y ent)).

(** Squared distance from the centre to the point of the rectangle
    closest to it, the [d2] of [resolveCircleRect]. *)
Definition closestPointDist2 (ent : Circle.t) (rect : Rect.t) : Q :=
  let closestX := clamp (Circle.x ent) (Rect.x rect) (fadd (Rect.x rect) (Rect.w rect)) in
  let closestY := clamp (Circle.y ent) (Rect.y rect) (fadd (Rect.y rect) (Rect.h rect)) in
  let dx := fsub (Circle.x ent) closestX in
  let dy := fsub (Circle.y ent) closestY in
  fadd (fmul dx dx) (fmul dy dy).

(** The bot after the "Movement" lines of [updateBotPlayer]. *)
Definition botMoved (obstacles : list Rect.t) (b : Fighter.t) (dt : Q) : Fighter.t :=
  let b := moveFighter obstacles b dt (fmul BASE_SPEED (lit (94 # 100))) in
  Fighter.set_rot (fadd (Fighter.rot b) (fmul dt (lit (17 # 10)))) b.

(** [moved] and [trying] of the stuck detection. *)
Definition botDisplacement (obstacles : list Rect.t) (b : Fighter.t) (dt : Q) : Q :=
  Math_hypot (fsub (Fighter.x (botMoved obstacles b dt)) (Fighter.x b))
             (fsub (Fighter.y (botMoved obstacles b dt)) (Fighter.y b)).

Definition botTrying (b : Fighter.t) : bool :=
  Qltb (lit (2 # 10)) (Math_hypot (Fighter.vx b) (Fighter.vy b)).

(** The test a target must pass to be hit by a projectile: alive, not
    the owner, inside the capsule. *)
Definition waveCandidate (st : State.t) (pr : Projectile.t) (t : Ref) : bool :=
  match getEnt st t with
  | Some te =>
      negb (Qleb (ent_hp te) 0) && negb (Ref_eqb t (Projectile.owner pr))
      && rectHitProjectile pr te
  | None => false
  end.

(** The reference points to an object of the state. *)
Definition valid (st : State.t) (r : Ref) : Prop := exists e, getEnt st r = Some e.

(** The [plasmaPrimed] flags of the two fighters of the state. *)
Definition primedFlags (st : State.t) : bool * option bool :=
  (Fighter.plasmaPrimed (State.player st),
   option_map Fighter.plasmaPrimed (State.botPlayer st)).

(** Writes never turn a fighter object into an enemy object or back. *)
Definition same_kind (e e' : Ent) : Prop :=
  match e, e' with
  | EF _, EF _ | EE _, EE _ => True
  | _, _ => False
  end.

End Predicates.

(** Proofs never unfold the arithmetic of the binary64 layer by
    simplification. *)
Arguments round64 : simpl never.
Arguments lit : simpl never.
Arguments fadd : simpl never.
Arguments fsub : simpl never.
Arguments fmul : simpl never.
Arguments fdiv : simpl never.
Arguments rand : simpl never.
Arguments Math_sqrt : simpl never.
Arguments hypot_rounded : simpl never.
Arguments Math_round : simpl never.
Arguments Math_floor : simpl never.
Arguments Math_ceil : simpl never.
Arguments computeStats : simpl never.
Arguments clamp : simpl never.
Arguments clampZ : simpl never.
Arguments Qmax : simpl never.
Arguments Qmin : simpl never.

(** Reduction of record projections applied to setters, and nothing else. *)
Ltac rsimpl :=
  cbn [Fighter.x Fighter.y Fighter.vx Fighter.vy Fighter.r Fighter.tint
       Fighter.edges Fighter.parts Fighter.plasma Fighter.plasmaParts
       Fighter.wave Fighter.waveParts Fighter.regenParts Fighter.regenRate
       Fighter.atk Fighter.def Fighter.maxHp Fighter.hp Fighter.rot
       Fighter.hitReadyAt Fighter.dashReadyAt Fighter.dashingUntil
       Fighter.plasmaPrimed Fighter.lastLandedHitAt Fighter.aimX Fighter.aimY
       Fighter.waveReadyAt Fighter.score Fighter.stuckFrames
       Fighter.escapeUntil Fighter.escapeX Fighter.escapeY
       Fighter.invulnUntil Fighter.plasmaFlashUntil Fighter.set_x
       Fighter.set_y Fighter.set_vx Fighter.set_vy Fighter.set_edges
       Fighter.set_parts Fighter.set_plasma Fighter.set_plasmaParts
       Fighter.set_wave Fighter.set_waveParts Fighter.set_regenParts
       Fighter.set_atk Fighter.set_def Fighter.set_maxHp Fighter.set_hp
       Fighter.set_rot Fighter.set_hitReadyAt Fighter.set_plasmaPrimed
       Fighter.set_lastLandedHitAt Fighter.set_score Fighter.set_stuckFrames
       Fighter.set_escapeUntil Fighter.set_escapeX Fighter.set_escapeY
       Fighter.set_invulnUntil Fighter.set_plasmaFlashUntil Fighter.set_waveReadyAt
       Fighter.set_dashReadyAt Fighter.set_dashingUntil Fighter.set_aimX Fighter.set_aimY
       Enemy.set_rot Enemy.set_targetX Enemy.set_targetY Enemy.set_retargetAt
       State.set_obstacles State.set_nextPartAt Enemy.id
       Enemy.type Enemy.x Enemy.y Enemy.vx Enemy.vy Enemy.r Enemy.edges
       Enemy.atk Enemy.def Enemy.maxHp Enemy.hp Enemy.rot Enemy.hitReadyAt
       Enemy.targetX Enemy.targetY Enemy.retargetAt Enemy.set_x Enemy.set_y
       Enemy.set_vx Enemy.set_vy Enemy.set_edges Enemy.set_atk Enemy.set_def
       Enemy.set_maxHp Enemy.set_hp Enemy.set_hitReadyAt Projectile.owner
       Projectile.x Projectile.y Projectile.dx Projectile.dy Projectile.w
       Projectile.len Projectile.speed Projectile.life Projectile.age
       Projectile.damageMult Projectile.waveLevel Projectile.born
       Projectile.set_x Projectile.set_y Projectile.set_age
       State.partsOnField State.enemies State.obstacles State.projectiles
       State.player State.botPlayer State.kos State.nextPartAt State.boss
       State.nextBossAt State.message State.messageUntil
       State.set_partsOnField State.set_enemies State.set_projectiles
       State.set_player State.set_botPlayer State.set_kos State.set_boss
       State.set_nextBossAt State.set_message State.set_messageUntil
       Stats.atk Stats.def Stats.maxHp Circle.x Circle.y Circle.r Rect.x
       Rect.y Rect.w Rect.h Part.x Part.y Part.r Part.kind Part.value
       Part.born].
Ltac rsimpl_in H :=
  cbn [Fighter.x Fighter.y Fighter.vx Fighter.vy Fighter.r Fighter.tint
       Fighter.edges Fighter.parts Fighter.plasma Fighter.plasmaParts
       Fighter.wave Fighter.waveParts Fighter.regenParts Fighter.regenRate
       Fighter.atk Fighter.def Fighter.maxHp Fighter.hp Fighter.rot
       Fighter.hitReadyAt Fighter.dashReadyAt Fighter.dashingUntil
       Fighter.plasmaPrimed Fighter.lastLandedHitAt Fighter.aimX Fighter.aimY
       Fighter.waveReadyAt Fighter.score Fighter.stuckFrames
       Fighter.escapeUntil Fighter.escapeX Fighter.escapeY
       Fighter.invulnUntil Fighter.plasmaFlashUntil Fighter.set_x
       Fighter.set_y Fighter.set_vx Fighter.set_vy Fighter.set_edges
       Fighter.set_parts Fighter.set_plasma Fighter.set_plasmaParts
       Fighter.set_wave Fighter.set_waveParts Fighter.set_regenParts
       Fighter.set_atk Fighter.set_def Fighter.set_maxHp Fighter.set_hp
       Fighter.set_rot Fighter.set_hitReadyAt Fighter.set_plasmaPrimed
       Fighter.set_lastLandedHitAt Fighter.set_score Fighter.set_stuckFrames
       Fighter.set_escapeUntil Fighter.set_escapeX Fighter.set_escapeY
       Fighter.set_invulnUntil Fighter.set_plasmaFlashUntil Fighter.set_waveReadyAt
       Fighter.set_dashReadyAt Fighter.set_dashingUntil Fighter.set_aimX Fighter.set_aimY
       Enemy.set_rot Enemy.set_targetX Enemy.set_targetY Enemy.set_retargetAt
       State.set_obstacles State.set_nextPartAt Enemy.id
       Enemy.type Enemy.x Enemy.y Enemy.vx Enemy.vy Enemy.r Enemy.edges
       Enemy.atk Enemy.def Enemy.maxHp Enemy.hp Enemy.rot Enemy.hitReadyAt
       Enemy.targetX Enemy.targetY Enemy.retargetAt Enemy.set_x Enemy.set_y
       Enemy.set_vx Enemy.set_vy Enemy.set_edges Enemy.set_atk Enemy.set_def
       Enemy.set_maxHp Enemy.set_hp Enemy.set_hitReadyAt Projectile.owner
       Projectile.x Projectile.y Projectile.dx Projectile.dy Projectile.w
       Projectile.len Projectile.speed Projectile.life Projectile.age
       Projectile.damageMult Projectile.waveLevel Projectile.born
       Projectile.set_x Projectile.set_y Projectile.set_age
       State.partsOnField State.enemies State.obstacles State.projectiles
       State.player State.botPlayer State.kos State.nextPartAt State.boss
       State.nextBossAt State.message State.messageUntil
       State.set_partsOnField State.set_enemies State.set_projectiles
       State.set_player State.set_botPlayer State.set_kos State.set_boss
       State.set_nextBossAt State.set_message State.set_messageUntil
       Stats.atk Stats.def Stats.maxHp Circle.x Circle.y Circle.r Rect.x
       Rect.y Rect.w Rect.h Part.x Part.y Part.r Part.kind Part.value
       Part.born] in H.

(* ================================================================== *)
(** * Facts about the binary64 layer *)
(* ================================================================== *)

Lemma pow2_pos (e : Z) : 0 < pow2 e.
Proof. unfold pow2. apply Qpower_0_lt. reflexivity. Qed.

Lemma pow2_add (a b : Z) : pow2 (a + b) == pow2 a * pow2 b.
Proof. unfold pow2. apply Qpower_plus. discriminate. Qed.

Lemma pow2_nonneg_exp (a : Z) : (0 <= a)%Z -> pow2 a == inject_Z (2 ^ a).
Proof. intros Ha. unfold pow2. symmetry. apply (Zpower_Qpower 2 a Ha). Qed.

Lemma Qmake_times_den (n : Z) (d : positive) :
  (n # d) * inject_Z (Zpos d) == inject_Z n.
Proof. unfold Qeq, Qmult, inject_Z. simpl. rewrite Pos.mul_1_r. ring. Qed.

(** [ilog2 q] never overshoots: [2^(ilog2 q) <= q]. *)
Lemma ilog2_lower (q : Q) : 0 < q -> pow2 (ilog2 q) <= q.
Proof.
  intros Hq. unfold ilog2.
  destruct (Qle_bool _ q) eqn:E.
  - apply Qle_bool_iff. exact E.
  - clear E. destruct q as [n d].
    assert (Hn : (0 < n)%Z).
    { unfold Qlt in Hq. simpl in Hq. lia. }
    cbn [Qnum Qden].
    set (a := Z.log2 n). set (b := Z.log2 (Zpos d)).
    assert (Ha : (0 <= a)%Z) by apply Z.log2_nonneg.
    assert (Hb : (0 <= b)%Z) by apply Z.log2_nonneg.
    assert (Hna : (2 ^ a <= n)%Z) by (apply Z.log2_spec; exact Hn).
    assert (Hdb : (Zpos d < 2 ^ (b + 1))%Z).
    { replace (b + 1)%Z with (Z.succ b) by lia. apply Z.log2_spec. reflexivity. }
    assert (Hsplit : pow2 (a - b - 1) * inject_Z (2 ^ (b + 1)) == inject_Z (2 ^ a)).
    { rewrite <- (pow2_nonneg_exp (b + 1)) by lia.
      rewrite <- pow2_add. rewrite <- pow2_nonneg_exp by lia.
      replace (a - b - 1 + (b + 1))%Z with a by lia. reflexivity. }
    assert (Hpos : 0 < inject_Z (2 ^ (b + 1))).
    { rewrite <- pow2_nonneg_exp by lia. apply pow2_pos. }
    apply (Qmult_le_r _ _ _ Hpos). rewrite Hsplit.
    apply Qle_trans with (inject_Z n).
    + rewrite <- Zle_Qle. exact Hna.
    + rewrite <- (Qmake_times_den n d).
      apply Qmult_le_l; [exact Hq|].
      rewrite <- Zle_Qle. lia.
Qed.

(** The nearest integer is within one half. *)
Lemma rne_err (x : Q) :
  x - (1 # 2) <= inject_Z (rne x) /\ inject_Z (rne x) <= x + (1 # 2).
Proof.
  unfold rne. cbv zeta.
  pose proof (Qfloor_le x) as Hlo. pose proof (Qlt_floor x) as Hhi.
  rewrite inject_Z_plus in Hhi. change (inject_Z 1) with 1 in Hhi.
  destruct (Qcompare_spec (x - inject_Z (Qfloor x)) (1 # 2)) as [E|E|E];
    [destruct (Z.even (Qfloor x))| |];
    rewrite ?inject_Z_plus; change (inject_Z 1) with 1;
    generalize dependent (inject_Z (Qfloor x)); intros f Hlo Hhi E;
    split; lra.
Qed.

Lemma pow2_53 : pow2 52 * 2 * eps64 == 1.
Proof. vm_compute. reflexivity. Qed.

(** Relative error of the rounding: half a unit in the last place. *)
Lemma round64_err (q : Q) :
  0 < q -> q * (1 - eps64) <= round64 q /\ round64 q <= q * (1 + eps64).
Proof.
  intros Hq. unfold round64.
  destruct (Qcompare_spec q 0) as [E|E|E]; try lra.
  rewrite Qred_correct. unfold round64_pos.
  set (e := (ilog2 q - 52)%Z).
  pose proof (pow2_pos e) as He.
  pose proof (ilog2_lower q Hq) as Hl.
  replace (ilog2 q) with (e + 52)%Z in Hl by (unfold e; lia).
  rewrite pow2_add in Hl.
  destruct (rne_err (q / pow2 e)) as [R1 R2].
  set (m := inject_Z (rne (q / pow2 e))) in *.
  assert (B1 : (q / pow2 e - (1 # 2)) * pow2 e <= m * pow2 e)
    by (apply Qmult_le_compat_r; lra).
  assert (B2 : m * pow2 e <= (q / pow2 e + (1 # 2)) * pow2 e)
    by (apply Qmult_le_compat_r; lra).
  assert (E1 : (q / pow2 e - (1 # 2)) * pow2 e == q - (1 # 2) * pow2 e)
    by (field; lra).
  assert (E2 : (q / pow2 e + (1 # 2)) * pow2 e == q + (1 # 2) * pow2 e)
    by (field; lra).
  rewrite E1 in B1. rewrite E2 in B2.
  assert (Hpe : (1 # 2) * pow2 e <= q * eps64).
  { assert (H52 : pow2 52 == 4503599627370496) by (vm_compute; reflexivity).
    rewrite H52 in Hl. unfold eps64. lra. }
  split; lra.
Qed.

Lemma round64_0 : round64 0 = 0.
Proof. reflexivity. Qed.

Lemma round64_nonneg (q : Q) : 0 <= q -> 0 <= round64 q.
Proof.
  intros Hq. destruct (Qlt_le_dec 0 q) as [H|H].
  - destruct (round64_err q H) as [L _]. unfold eps64 in L.
    assert (0 <= q * (1 - (1 # 9007199254740992))).
    { apply Qmult_le_0_compat; lra. }
    lra.
  - assert (E : q == 0) by lra.
    unfold round64. destruct (Qcompare_spec q 0); lra.
Qed.

Lemma round64_eq0 (q : Q) : q == 0 -> round64 q = 0.
Proof.
  intros E. unfold round64. destruct (Qcompare_spec q 0) as [H|H|H];
    [reflexivity | lra | lra].
Qed.

(** [ilog2 q] is the exponent of the leading bit: [q < 2^(ilog2 q + 1)]. *)
Lemma ilog2_upper (q : Q) : 0 < q -> q < pow2 (ilog2 q + 1).
Proof.
  intros Hq. unfold ilog2.
  destruct (Qle_bool _ q) eqn:E.
  - clear E. destruct q as [n d].
    assert (Hn : (0 < n)%Z).
    { unfold Qlt in Hq. simpl in Hq. lia. }
    cbn [Qnum Qden].
    set (a := Z.log2 n). set (b := Z.log2 (Zpos d)).
    assert (Ha : (0 <= a)%Z) by apply Z.log2_nonneg.
    assert (Hb : (0 <= b)%Z) by apply Z.log2_nonneg.
    assert (Hna : (n < 2 ^ (a + 1))%Z).
    { replace (a + 1)%Z with (Z.succ a) by lia. apply Z.log2_spec. exact Hn. }
    assert (Hdb : (2 ^ b <= Zpos d)%Z) by (apply Z.log2_spec; reflexivity).
    assert (Hsplit : pow2 (a - b + 1) * inject_Z (2 ^ b) == inject_Z (2 ^ (a + 1))).
    { rewrite <- (pow2_nonneg_exp b) by lia.
      rewrite <- pow2_add. rewrite <- pow2_nonneg_exp by lia.
      replace (a - b + 1 + b)%Z with (a + 1)%Z by lia. reflexivity. }
    assert (Hpd : 0 < inject_Z (Zpos d)) by reflexivity.
    apply (Qmult_lt_r _ _ _ Hpd). rewrite Qmake_times_den.
    apply Qlt_le_trans with (inject_Z (2 ^ (a + 1))).
    + rewrite <- Zlt_Qlt. exact Hna.
    + rewrite <- Hsplit. apply Qmult_le_l; [apply pow2_pos|].
      rewrite <- Zle_Qle. exact Hdb.
  - replace (Z.log2 (Qnum q) - Z.log2 (Z.pos (Qden q)) - 1 + 1)%Z
      with (Z.log2 (Qnum q) - Z.log2 (Z.pos (Qden q)))%Z by lia.
    apply Qnot_le_lt. intros H. apply Qle_bool_iff in H. congruence.
Qed.

Lemma pow2_le (a b : Z) : (a <= b)%Z -> pow2 a <= pow2 b.
Proof.
  intros H. replace b with (a + (b - a))%Z by lia. rewrite pow2_add.
  rewrite (pow2_nonneg_exp (b - a)) by lia.
  assert (1 <= inject_Z (2 ^ (b - a))).
  { change 1 with (inject_Z 1). rewrite <- Zle_Qle.
    assert (0 < 2 ^ (b - a))%Z by (apply Z.pow_pos_nonneg; lia). lia. }
  pose proof (pow2_pos a). nra.
Qed.

(** The exponent is determined by the two bounds. *)
Lemma ilog2_unique (q : Q) (k : Z) : pow2 k <= q -> q < pow2 (k + 1) -> ilog2 q = k.
Proof.
  intros L U.
  assert (Hq : 0 < q) by (pose proof (pow2_pos k); lra).
  pose proof (ilog2_lower q Hq) as L'. pose proof (ilog2_upper q Hq) as U'.
  destruct (Z.lt_trichotomy (ilog2 q) k) as [H|[H|H]]; [|exact H|].
  - assert (pow2 (ilog2 q + 1) <= pow2 k) by (apply pow2_le; lia). lra.
  - assert (pow2 (k + 1) <= pow2 (ilog2 q)) by (apply pow2_le; lia). lra.
Qed.

Lemma ilog2_compat (q q' : Q) : 0 < q -> q == q' -> ilog2 q = ilog2 q'.
Proof.
  intros Hq E. symmetry. apply ilog2_unique; rewrite <- E.
  - apply ilog2_lower; exact Hq.
  - apply ilog2_upper; exact Hq.
Qed.

Lemma ilog2_mono (q q' : Q) : 0 < q -> q <= q' -> (ilog2 q <= ilog2 q')%Z.
Proof.
  intros Hq H.
  assert (Hq' : 0 < q') by lra.
  pose proof (ilog2_lower q Hq). pose proof (ilog2_upper q' Hq').
  destruct (Z_le_gt_dec (ilog2 q) (ilog2 q')) as [L|G]; [exact L|].
  assert (pow2 (ilog2 q' + 1) <= pow2 (ilog2 q)) by (apply pow2_le; lia). lra.
Qed.

Lemma rne_compat (x y : Q) : x == y -> rne x = rne y.
Proof.
  intros E. unfold rne. cbv zeta.
  assert (F : Qfloor x = Qfloor y) by (rewrite E; reflexivity).
  rewrite F.
  assert (C : (x - inject_Z (Qfloor y) ?= 1 # 2) = (y - inject_Z (Qfloor y) ?= 1 # 2)).
  { rewrite E. reflexivity. }
  rewrite C. reflexivity.
Qed.

Lemma rne_inject_Z (z : Z) : rne (inject_Z z) = z.
Proof.
  unfold rne. cbv zeta. rewrite Qfloor_Z.
  destruct (Qcompare_spec (inject_Z z - inject_Z z) (1 # 2)) as [E|E|E]; try reflexivity; lra.
Qed.

Lemma rne_mono (x y : Q) : x <= y -> (rne x <= rne y)%Z.
Proof.
  intros H.
  assert (F : (Qfloor x <= Qfloor y)%Z) by (apply Qfloor_resp_le; exact H).
  pose proof (Qfloor_le x) as Lx. pose proof (Qlt_floor x) as Ux.
  pose proof (Qfloor_le y) as Ly. pose proof (Qlt_floor y) as Uy.
  rewrite inject_Z_plus in Ux, Uy. change (inject_Z 1) with 1 in Ux, Uy.
  unfold rne. cbv zeta.
  destruct (Z.eq_dec (Qfloor x) (Qfloor y)) as [E|N].
  - rewrite E in *.
    destruct (Qcompare_spec (x - inject_Z (Qfloor y)) (1 # 2)) as [A|A|A];
      destruct (Qcompare_spec (y - inject_Z (Qfloor y)) (1 # 2)) as [B|B|B];
      try destruct (Z.even (Qfloor y)); try lia; lra.
  - assert (F' : (Qfloor x + 1 <= Qfloor y)%Z) by lia.
    destruct (Qcompare (x - inject_Z (Qfloor x)) (1 # 2));
      destruct (Qcompare (y - inject_Z (Qfloor y)) (1 # 2));
      try destruct (Z.even (Qfloor x)); try destruct (Z.even (Qfloor y)); lia.
Qed.

(** The significand of a positive number lies between 2^52 and 2^53. *)
Lemma significand_range (q : Q) :
  0 < q ->
  (2 ^ 52 <= rne (q / pow2 (ilog2 q - 52)) <= 2 ^ 53)%Z.
Proof.
  intros Hq. set (e := (ilog2 q - 52)%Z).
  pose proof (pow2_pos e) as He.
  pose proof (ilog2_lower q Hq) as L. pose proof (ilog2_upper q Hq) as U.
  replace (ilog2 q) with (e + 52)%Z in L by (unfold e; lia).
  replace (ilog2 q + 1)%Z with (e + 53)%Z in U by (unfold e; lia).
  rewrite pow2_add in L, U.
  assert (H52 : pow2 52 == inject_Z (2 ^ 52)) by (apply pow2_nonneg_exp; lia).
  assert (H53 : pow2 53 == inject_Z (2 ^ 53)) by (apply pow2_nonneg_exp; lia).
  assert (A : inject_Z (2 ^ 52) <= q / pow2 e).
  { apply Qle_shift_div_l; [exact He|]. rewrite <- H52. lra. }
  assert (B : q / pow2 e <= inject_Z (2 ^ 53)).
  { apply Qle_shift_div_r; [exact He|]. rewrite <- H53. lra. }
  split.
  - apply Z.le_trans with (rne (inject_Z (2 ^ 52))).
    + rewrite rne_inject_Z. apply Z.le_refl.
    + apply rne_mono. exact A.
  - apply Z.le_trans with (rne (inject_Z (2 ^ 53))).
    + apply rne_mono. exact B.
    + rewrite rne_inject_Z. apply Z.le_refl.
Qed.

Lemma round64_pos_compat (q q' : Q) : 0 < q -> q == q' -> round64_pos q == round64_pos q'.
Proof.
  intros Hq E. unfold round64_pos. cbv zeta.
  rewrite <- (ilog2_compat q q' Hq E).
  rewrite (rne_compat (q / pow2 (ilog2 q - 52)) (q' / pow2 (ilog2 q - 52))).
  - reflexivity.
  - apply Qdiv_comp; [exact E|reflexivity].
Qed.

(** Rounding does not depend on the fraction that represents the number. *)
Lemma round64_compat (q q' : Q) : q == q' -> round64 q = round64 q'.
Proof.
  intros E. unfold round64.
  assert (C : (q ?= 0) = (q' ?= 0)) by (rewrite E; reflexivity).
  rewrite <- C.
  destruct (Qcompare_spec q 0) as [H|H|H]; [reflexivity| |].
  - apply Qred_complete. apply Qopp_comp. apply round64_pos_compat; lra.
  - apply Qred_complete. apply round64_pos_compat; lra.
Qed.

Lemma round64_pos_bounds (q : Q) :
  0 < q -> pow2 (ilog2 q) <= round64_pos q /\ round64_pos q <= pow2 (ilog2 q + 1).
Proof.
  intros Hq. destruct (significand_range q Hq) as [A B].
  unfold round64_pos. cbv zeta. set (e := (ilog2 q - 52)%Z) in *.
  pose proof (pow2_pos e) as He.
  replace (ilog2 q) with (52 + e)%Z at 1 by (unfold e; lia).
  replace (ilog2 q + 1)%Z with (53 + e)%Z by (unfold e; lia).
  rewrite !pow2_add.
  rewrite (pow2_nonneg_exp 52), (pow2_nonneg_exp 53) by lia.
  split; apply Qmult_le_compat_r; try lra; rewrite <- Zle_Qle; assumption.
Qed.

Lemma round64_pos_mono (q q' : Q) : 0 < q -> q <= q' -> round64_pos q <= round64_pos q'.
Proof.
  intros Hq H. assert (Hq' : 0 < q') by lra.
  pose proof (ilog2_mono q q' Hq H) as K.
  destruct (Z.eq_dec (ilog2 q) (ilog2 q')) as [E|N].
  - unfold round64_pos. cbv zeta. rewrite <- E.
    set (e := (ilog2 q - 52)%Z). pose proof (pow2_pos e) as He.
    apply Qmult_le_compat_r; [|lra].
    rewrite <- Zle_Qle. apply rne_mono.
    apply Qmult_le_compat_r; [exact H|].
    apply Qlt_le_weak. apply Qinv_lt_0_compat. exact He.
  - destruct (round64_pos_bounds q Hq) as [_ U].
    destruct (round64_pos_bounds q' Hq') as [L _].
    assert (pow2 (ilog2 q + 1) <= pow2 (ilog2 q')) by (apply pow2_le; lia).
    lra.
Qed.

Lemma round64_pos_pos (q : Q) : 0 < q -> 0 < round64_pos q.
Proof.
  intros Hq. destruct (round64_pos_bounds q Hq) as [L _].
  pose proof (pow2_pos (ilog2 q)). lra.
Qed.

(** Rounding is monotone. *)
Lemma round64_mono (q q' : Q) : q <= q' -> round64 q <= round64 q'.
Proof.
  intros H. unfold round64.
  destruct (Qcompare_spec q 0) as [A|A|A]; destruct (Qcompare_spec q' 0) as [B|B|B];
    rewrite ?Qred_correct; try lra.
  - pose proof (round64_pos_pos q' B). lra.
  - pose proof (round64_pos_pos (- q)). lra.
  - pose proof (round64_pos_mono (- q') (- q)). lra.
  - pose proof (round64_pos_pos (- q)). pose proof (round64_pos_pos q'). lra.
  - apply round64_pos_mono; lra.
Qed.

(** A rounded number rounds to itself. *)
Lemma round64_pos_idem (q : Q) : 0 < q -> round64_pos (round64_pos q) == round64_pos q.
Proof.
  intros Hq. destruct (significand_range q Hq) as [A B].
  destruct (round64_pos_bounds q Hq) as [L U].
  set (r := round64_pos q) in *.
  assert (Hr : r == inject_Z (rne (q / pow2 (ilog2 q - 52))) * pow2 (ilog2 q - 52))
    by reflexivity.
  set (N := rne (q / pow2 (ilog2 q - 52))) in *.
  set (e := (ilog2 q - 52)%Z) in *.
  pose proof (pow2_pos e) as He.
  destruct (Z.eq_dec N (2 ^ 53)) as [E|E].
  - assert (Er : r == pow2 (ilog2 q + 1)).
    { rewrite Hr, E. replace (ilog2 q + 1)%Z with (53 + e)%Z by (unfold e; lia).
      rewrite pow2_add, (pow2_nonneg_exp 53) by lia. reflexivity. }
    assert (K : ilog2 r = (ilog2 q + 1)%Z).
    { apply ilog2_unique; rewrite Er; [lra|].
      assert (pow2 (ilog2 q + 1 + 1) == pow2 (ilog2 q + 1) * 2).
      { rewrite pow2_add. reflexivity. }
      pose proof (pow2_pos (ilog2 q + 1)). lra. }
    unfold round64_pos at 1. cbv zeta. rewrite K.
    replace (ilog2 q + 1 - 52)%Z with (e + 1)%Z by (unfold e; lia).
    rewrite (rne_compat _ (inject_Z (2 ^ 52))).
    + rewrite rne_inject_Z. rewrite Hr, E. rewrite pow2_add.
      change (pow2 1) with 2. change (inject_Z (2 ^ 52)) with 4503599627370496.
      change (inject_Z (2 ^ 53)) with 9007199254740992. ring.
    + rewrite Hr, E. rewrite pow2_add. change (pow2 1) with 2.
      change (inject_Z (2 ^ 52)) with 4503599627370496.
      change (inject_Z (2 ^ 53)) with 9007199254740992. field. lra.
  - assert (K : ilog2 r = ilog2 q).
    { apply ilog2_unique; [exact L|].
      rewrite Hr. replace (ilog2 q + 1)%Z with (53 + e)%Z by (unfold e; lia).
      rewrite pow2_add, (pow2_nonneg_exp 53) by lia.
      apply Qmult_lt_compat_r; [exact He|]. rewrite <- Zlt_Qlt. lia. }
    unfold round64_pos at 1. cbv zeta. rewrite K. fold e.
    rewrite (rne_compat _ (inject_Z N)).
    + rewrite rne_inject_Z. symmetry. exact Hr.
    + rewrite Hr. field. lra.
Qed.

Lemma round64_gt (q : Q) : 0 < q -> round64 q = Qred (round64_pos q).
Proof. intros H. unfold round64. destruct (Qcompare_spec q 0); try lra. reflexivity. Qed.

Lemma round64_lt (q : Q) : q < 0 -> round64 q = Qred (- round64_pos (- q)).
Proof. intros H. unfold round64. destruct (Qcompare_spec q 0); try lra. reflexivity. Qed.

Lemma round64_idem (q : Q) : round64 (round64 q) = round64 q.
Proof.
  destruct (Q_dec q 0) as [[A|A]|A].
  - pose proof (round64_pos_pos (- q)) as P.
    rewrite (round64_lt q A).
    rewrite (round64_compat _ (- round64_pos (- q))) by apply Qred_correct.
    rewrite round64_lt by lra.
    apply Qred_complete. apply Qopp_comp.
    rewrite (round64_pos_compat (- - round64_pos (- q)) (round64_pos (- q))).
    + apply round64_pos_idem. lra.
    + lra.
    + ring.
  - pose proof (round64_pos_pos q A) as P.
    rewrite (round64_gt q A).
    rewrite (round64_compat _ (round64_pos q)) by apply Qred_correct.
    rewrite round64_gt by lra.
    apply Qred_complete. apply round64_pos_idem. exact A.
  - rewrite (round64_eq0 q A). reflexivity.
Qed.

Lemma pow2_inv (e : Z) : pow2 e * pow2 (- e) == 1.
Proof. rewrite <- pow2_add. replace (e + - e)%Z with 0%Z by lia. reflexivity. Qed.

(** A number [N * 2^e] with [0 < N <= 2^53] is a binary64 value. *)
Lemma round64_pos_grid (N e : Z) :
  (0 < N <= 2 ^ 53)%Z -> round64_pos (inject_Z N * pow2 e) == inject_Z N * pow2 e.
Proof.
  intros [HN HN'].
  set (q := inject_Z N * pow2 e).
  set (j := Z.log2 N).
  assert (Hj : (0 <= j)%Z) by apply Z.log2_nonneg.
  assert (Hlo : (2 ^ j <= N)%Z) by (apply Z.log2_spec; exact HN).
  assert (Hhi : (N < 2 ^ (j + 1))%Z).
  { replace (j + 1)%Z with (Z.succ j) by lia. apply Z.log2_spec. exact HN. }
  pose proof (pow2_pos e) as He.
  assert (K : ilog2 q = (j + e)%Z).
  { apply ilog2_unique; unfold q.
    - rewrite pow2_add, (pow2_nonneg_exp j) by lia.
      apply Qmult_le_compat_r; [|lra]. rewrite <- Zle_Qle. exact Hlo.
    - replace (j + e + 1)%Z with (j + 1 + e)%Z by lia.
      rewrite pow2_add, (pow2_nonneg_exp (j + 1)) by lia.
      apply Qmult_lt_compat_r; [exact He|]. rewrite <- Zlt_Qlt. exact Hhi. }
  assert (Hj53 : (j <= 53)%Z).
  { destruct (Z_le_gt_dec j 53) as [L|G]; [exact L|].
    assert (2 ^ 54 <= 2 ^ j)%Z by (apply Z.pow_le_mono_r; lia). lia. }
  unfold round64_pos. cbv zeta. rewrite K.
  replace (j + e - 52)%Z with (e + (j - 52))%Z by lia.
  pose proof (pow2_pos (j - 52)) as Hp.
  pose proof (pow2_pos (e + (j - 52))) as Hp'.
  assert (M : exists m : Z, q / pow2 (e + (j - 52)) == inject_Z m).
  { destruct (Z.eq_dec j 53) as [E|E].
    - exists (2 ^ 52)%Z.
      assert (EN : N = (2 ^ 53)%Z).
      { rewrite E in Hlo. lia. }
      unfold q. rewrite pow2_add, E, EN.
      change (pow2 (53 - 52)) with 2.
      change (inject_Z (2 ^ 53)) with 9007199254740992.
      change (inject_Z (2 ^ 52)) with 4503599627370496. field. lra.
    - exists (N * 2 ^ (52 - j))%Z.
      rewrite inject_Z_mult, <- (pow2_nonneg_exp (52 - j)) by lia.
      unfold q. rewrite pow2_add.
      pose proof (pow2_inv (j - 52)) as I.
      replace (- (j - 52))%Z with (52 - j)%Z in I by lia.
      pose proof (pow2_pos (52 - j)).
      apply Qmult_inj_r with (pow2 e * pow2 (j - 52)); [nra|].
      rewrite Qmult_comm, Qmult_div_r by nra.
      transitivity (inject_Z N * pow2 e * (pow2 (j - 52) * pow2 (52 - j))); [|ring].
      rewrite I. ring. }
  destruct M as [m Hm].
  rewrite (rne_compat _ _ Hm), rne_inject_Z, <- Hm. unfold q. field. lra.
Qed.

Lemma round64_grid (N e : Z) :
  (- 2 ^ 53 <= N <= 2 ^ 53)%Z -> round64 (inject_Z N * pow2 e) == inject_Z N * pow2 e.
Proof.
  intros [L U]. pose proof (pow2_pos e) as He.
  destruct (Z.lt_trichotomy N 0) as [H|[H|H]].
  - assert (Hq : inject_Z N * pow2 e < 0).
    { assert (inject_Z N < 0) by (change 0 with (inject_Z 0); rewrite <- Zlt_Qlt; exact H).
      nra. }
    rewrite (round64_lt _ Hq), Qred_correct.
    rewrite (round64_pos_compat _ (inject_Z (- N) * pow2 e)).
    + rewrite round64_pos_grid by lia. rewrite inject_Z_opp. ring.
    + lra.
    + rewrite inject_Z_opp. ring.
  - subst N. rewrite (round64_compat _ 0) by ring. rewrite round64_0. ring.
  - assert (Hq : 0 < inject_Z N * pow2 e).
    { assert (0 < inject_Z N) by (change 0 with (inject_Z 0); rewrite <- Zlt_Qlt; exact H).
      nra. }
    rewrite (round64_gt _ Hq), Qred_correct. apply round64_pos_grid. lia.
Qed.

(** Integers up to 2^53 in magnitude are binary64 values. *)
Lemma round64_int (z : Z) : (- 2 ^ 53 <= z <= 2 ^ 53)%Z -> round64 (inject_Z z) == inject_Z z.
Proof.
  intros H. rewrite (round64_compat _ (inject_Z z * pow2 0)).
  - rewrite round64_grid by exact H. change (pow2 0) with 1. ring.
  - change (pow2 0) with 1. ring.
Qed.

Lemma exact64_round (q : Q) : exact64 (round64 q).
Proof. unfold exact64. rewrite round64_idem. reflexivity. Qed.

Lemma exact64_int (z : Z) : (- 2 ^ 53 <= z <= 2 ^ 53)%Z -> exact64 (inject_Z z).
Proof. apply round64_int. Qed.

Lemma round64_ge (a q : Q) : exact64 a -> a <= q -> a <= round64 q.
Proof. intros E H. unfold exact64 in E. rewrite <- E. apply round64_mono. exact H. Qed.

Lemma round64_le (b q : Q) : exact64 b -> q <= b -> round64 q <= b.
Proof. intros E H. unfold exact64 in E. rewrite <- E. apply round64_mono. exact H. Qed.

Lemma exact64_0 : exact64 0.
Proof. unfold exact64. rewrite round64_0. reflexivity. Qed.

(** [rand] stays between its bounds: the lower bound is always kept, the
    upper bound is the binary64 value of [a + (b - a)]. *)
Lemma rand_bounds (a b u : Q) :
  exact64 a -> a <= b -> 0 <= u <= 1 ->
  a <= rand a b u /\ rand a b u <= fadd a (fsub b a).
Proof.
  intros Ea Hab [U0 U1]. unfold rand, fadd, fmul.
  assert (W : 0 <= fsub b a).
  { unfold fsub. apply round64_ge; [apply exact64_0|lra]. }
  assert (M0 : 0 <= round64 (u * fsub b a)).
  { apply round64_ge; [apply exact64_0|]. apply Qmult_le_0_compat; assumption. }
  assert (M1 : round64 (u * fsub b a) <= fsub b a).
  { apply round64_le; [apply exact64_round|]. nra. }
  split.
  - apply round64_ge; [exact Ea|lra].
  - apply round64_mono. lra.
Qed.

(** Sanity checks of the rounding against known binary64 values:
    0.35 = 0x1.6666666666666p-2, 1.1 = 0x1.199999999999ap+0,
    180 * 0.35 = 62.99999999999999 (one unit in the last place below 63)
    and 20 * 0.35 = 7. *)
Example lit_035 : lit (35 # 100) = 3152519739159347 # 9007199254740992.
Proof. vm_compute. reflexivity. Qed.

Example lit_11 : lit (11 # 10) = 2476979795053773 # 2251799813685248.
Proof. vm_compute. reflexivity. Qed.

Example fmul_180_035 :
  fmul 180 (lit (35 # 100)) = 8866461766385663 # 140737488355328.
Proof. vm_compute. reflexivity. Qed.

Example fmul_20_035 : fmul 20 (lit (35 # 100)) = 7.
Proof. vm_compute. reflexivity. Qed.

(* ================================================================== *)
(** * Derived stats *)
(* ================================================================== *)

Lemma stats_leb_le (a b : Stats.t) : stats_leb a b = true -> stats_le a b.
Proof.
  unfold stats_leb, stats_le. intros H.
  apply andb_prop in H as [H H3]. apply andb_prop in H as [H1 H2].
  repeat split; apply Z.leb_le; assumption.
Qed.

Lemma stats_le_trans (a b c : Stats.t) : stats_le a b -> stats_le b c -> stats_le a c.
Proof. unfold stats_le. intros (?&?&?) (?&?&?). repeat split; lia. Qed.

(** One more edge never lowers a stat, checked on every edge count from 4
    to [EDGE_CAP - 1]. *)
Lemma computeStats_step_table :
  forallb (fun i => stats_leb (computeStats (4 + Z.of_nat i))
                              (computeStats (4 + Z.of_nat i + 1)))
          (seq 0 28) = true.
Proof. vm_compute. reflexivity. Qed.

Lemma computeStats_step (e : Z) :
  (4 <= e < EDGE_CAP)%Z -> stats_le (computeStats e) (computeStats (e + 1)).
Proof.
  unfold EDGE_CAP. intros He.
  pose proof computeStats_step_table as T.
  rewrite forallb_forall in T.
  specialize (T (Z.to_nat (e - 4))).
  replace (4 + Z.of_nat (Z.to_nat (e - 4)))%Z with e in T by lia.
  apply stats_leb_le, T, in_seq. lia.
Qed.

Lemma computeStats_le_add (n : nat) (e : Z) :
  (4 <= e)%Z -> (e + Z.of_nat n <= EDGE_CAP)%Z ->
  stats_le (computeStats e) (computeStats (e + Z.of_nat n)).
Proof.
  induction n as [|n IH]; intros He Hcap.
  - replace (e + Z.of_nat 0)%Z with e by lia. unfold stats_le. lia.
  - apply stats_le_trans with (computeStats (e + Z.of_nat n)).
    + apply IH; lia.
    + replace (e + Z.of_nat (S n))%Z with (e + Z.of_nat n + 1)%Z by lia.
      apply computeStats_step. lia.
Qed.

(** C8.  For edge counts [4 <= e <= e' <= cap] the derived attack,
    defense and max health of [computeStats] are non-decreasing.  The cap
    is [EDGE_CAP] (32, the cap of enemies), which covers the range of the
    player cap 26 as well. *)
Theorem computeStats_monotone (e e' : Z) :
  (4 <= e)%Z -> (e <= e')%Z -> (e' <= EDGE_CAP)%Z ->
  (Stats.atk (computeStats e) <= Stats.atk (computeStats e'))%Z /\
  (Stats.def (computeStats e) <= Stats.def (computeStats e'))%Z /\
  (Stats.maxHp (computeStats e) <= Stats.maxHp (computeStats e'))%Z.
Proof.
  intros H4 Hle Hcap.
  replace e' with (e + Z.of_nat (Z.to_nat (e' - e)))%Z by lia.
  apply computeStats_le_add; lia.
Qed.

Lemma computeStats_monotone_witness :
  (Stats.atk (computeStats 9) <= Stats.atk (computeStats 26))%Z /\
  (Stats.def (computeStats 9) <= Stats.def (computeStats 26))%Z /\
  (Stats.maxHp (computeStats 9) <= Stats.maxHp (computeStats 26))%Z.
Proof. apply (computeStats_monotone 9 26); unfold EDGE_CAP; lia. Defined.

(* ================================================================== *)
(** * Creation of enemies *)
(* ================================================================== *)

(** C9 (fails on the code).  [makeEnemy] sets [hp] to the max health of
    the base stats, not to the variant-scaled [maxHp]: a brute starts at
    104 of 130, a skitter at 100 of 85, only a chaser starts at its
    maximum. *)
Theorem makeEnemy_hp_is_base_maxHp (i : Z) (u : EnemyDraws) :
  (Enemy.hp (makeEnemy i (Some brute) u) = 104 /\
   Enemy.maxHp (makeEnemy i (Some brute) u) = 130%Z) /\
  (Enemy.hp (makeEnemy i (Some skitter) u) = 100 /\
   Enemy.maxHp (makeEnemy i (Some skitter) u) = 85%Z) /\
  (Enemy.hp (makeEnemy i (Some chaser) u) = 100 /\
   Enemy.maxHp (makeEnemy i (Some chaser) u) = 100%Z).
Proof. repeat split; vm_compute; reflexivity. Qed.

(** The two sibling paths restore full health: the boss is created with
    [hp = maxHp], and [respawnEnemy] ends with [enemy.hp = enemy.maxHp]. *)
Lemma makeBoss_hp_maxHp (ux uy urot : Q) :
  Enemy.hp (makeBoss ux uy urot) = inject_Z (Enemy.maxHp (makeBoss ux uy urot)).
Proof. reflexivity. Qed.

Lemma respawnEnemy_hp_maxHp (ux uy uroll : Q) (e : Enemy.t) :
  Enemy.hp (respawnEnemy ux uy uroll e)
  = inject_Z (Enemy.maxHp (respawnEnemy ux uy uroll e)).
Proof. reflexivity. Qed.

(* ================================================================== *)
(** * Respawn of a fighter *)
(* ================================================================== *)

Section RespawnFacts.

Variable Math_hypot : Q -> Q -> Q.

Local Abbreviation respawnFighter := (respawnFighter Math_hypot).

(** [respawnFighter] is [respawnCore] followed by a write of the two
    coordinates. *)
Lemma respawnFighter_shape (boss : option Enemy.t) (now : Q) (p : Fighter.t)
  (isPlayer : bool) :
  exists x' y',
    respawnFighter boss now p isPlayer
    = Fighter.set_y y' (Fighter.set_x x' (respawnCore now p isPlayer)).
Proof.
  unfold respawnFighter. fold (respawnCore now p isPlayer).
  generalize (respawnCore now p isPlayer). intros q. cbv zeta.
  destruct boss as [b|].
  - match goal with |- context [if ?c then _ else _] => destruct c end.
    + eexists. eexists. reflexivity.
    + exists (Fighter.x q), (Fighter.y q). destruct q. reflexivity.
  - exists (Fighter.x q), (Fighter.y q). destruct q. reflexivity.
Qed.

(** Adding at least two milliseconds to a clock reading gives a strictly
    later binary64 value. *)
Lemma fadd_future (now c : Q) :
  0 <= now -> now <= MAX_SAFE -> 2 <= c -> now < fadd now c.
Proof.
  unfold MAX_SAFE, fadd. intros H0 Hmax Hc.
  assert (Hq : 0 < now + c) by lra.
  destruct (round64_err (now + c) Hq) as [L _].
  unfold eps64 in L. lra.
Qed.

(** C6.  Whatever the state of the fighter, [respawnFighter] restores
    health to the max health recomputed from the current edges (attack
    from edges and plasma), leaves edges and plasma as they are, zeroes
    the velocity, re-arms [plasmaPrimed], clears the stuck counter and the
    escape deadline, and sets [invulnUntil] to [now + 1400], strictly
    after the clock reading [now]; a second respawn leaves the stats as
    the first one set them. *)
Theorem respawnFighter_resets (boss : option Enemy.t) (now : Q) (p : Fighter.t)
  (isPlayer : bool) :
  0 <= now -> now <= MAX_SAFE ->
  let p' := respawnFighter boss now p isPlayer in
  Fighter.maxHp p' = Stats.maxHp (computeStats (Fighter.edges p)) /\
  Fighter.hp p' = inject_Z (Fighter.maxHp p') /\
  Fighter.atk p'
  = (Stats.atk (computeStats (Fighter.edges p)) + Fighter.plasma p * PLASMA_ATK_PER_LEVEL)%Z /\
  Fighter.def p' = Stats.def (computeStats (Fighter.edges p)) /\
  Fighter.edges p' = Fighter.edges p /\
  Fighter.plasma p' = Fighter.plasma p /\
  Fighter.vx p' = 0 /\ Fighter.vy p' = 0 /\
  Fighter.plasmaPrimed p' = true /\
  Fighter.stuckFrames p' = 0%Z /\
  Fighter.escapeUntil p' = 0 /\
  Fighter.invulnUntil p' = fadd now 1400 /\
  now < Fighter.invulnUntil p' /\
  (forall boss2 now2 isPlayer2,
      let p'' := respawnFighter boss2 now2 p' isPlayer2 in
      Fighter.maxHp p'' = Fighter.maxHp p' /\ Fighter.hp p'' = Fighter.hp p' /\
      Fighter.atk p'' = Fighter.atk p' /\ Fighter.def p'' = Fighter.def p').
Proof.
  intros H0 Hmax.
  assert (Hfut : now < fadd now 1400) by (apply fadd_future; lra).
  assert (Again : forall q boss2 now2 isPlayer2,
             let q' := respawnFighter boss2 now2 q isPlayer2 in
             Fighter.maxHp q' = Stats.maxHp (computeStats (Fighter.edges q)) /\
             Fighter.hp q' = inject_Z (Stats.maxHp (computeStats (Fighter.edges q))) /\
             Fighter.atk q'
             = (Stats.atk (computeStats (Fighter.edges q))
                + Fighter.plasma q * PLASMA_ATK_PER_LEVEL)%Z /\
             Fighter.def q' = Stats.def (computeStats (Fighter.edges q)) /\
             Fighter.edges q' = Fighter.edges q /\
             Fighter.plasma q' = Fighter.plasma q).
  { intros q boss2 now2 ip2.
    destruct (respawnFighter_shape boss2 now2 q ip2) as (x' & y' & E).
    cbv zeta. rewrite E. repeat split; reflexivity. }
  destruct (Again p boss now isPlayer) as (A1 & A2 & A3 & A4 & A5 & A6).
  cbv zeta. rewrite A1, A2, A3, A4, A5, A6.
  destruct (respawnFighter_shape boss now p isPlayer) as (x' & y' & E).
  repeat match goal with |- _ /\ _ => split end;
    try reflexivity; try (rewrite E; reflexivity).
  - rewrite E. exact Hfut.
  - intros boss2 now2 ip2.
    destruct (Again (respawnFighter boss now p isPlayer) boss2 now2 ip2)
      as (B1 & B2 & B3 & B4 & _ & _).
    rewrite B1, B2, B3, B4, A5, A6. repeat split; reflexivity.
Qed.

End RespawnFacts.

Lemma respawnFighter_resets_witness :
  (0 <= 5000 /\ 5000 <= MAX_SAFE) /\
  Fighter.hp (respawnFighter hypot_rounded None 5000 (Fighter.set_hp 0 makePlayer) true)
  = inject_Z (Fighter.maxHp (respawnFighter hypot_rounded None 5000 (Fighter.set_hp 0 makePlayer) true)) /\
  5000 < Fighter.invulnUntil (respawnFighter hypot_rounded None 5000 (Fighter.set_hp 0 makePlayer) true).
Proof.
  assert (H0 : 0 <= 5000) by (vm_compute; discriminate).
  assert (Hmax : 5000 <= MAX_SAFE) by (vm_compute; discriminate).
  split; [split; assumption|].
  pose proof (respawnFighter_resets hypot_rounded None 5000 (Fighter.set_hp 0 makePlayer) true H0 Hmax)
    as H.
  cbv zeta in H.
  destruct H as (_ & Hhp & _ & _ & _ & _ & _ & _ & _ & _ & _ & _ & Hinv & _).
  split; [exact Hhp | exact Hinv].
Defined.

(* ================================================================== *)
(** * References into the state *)
(* ================================================================== *)

Lemma Qltb_lt (a b : Q) : Qltb a b = true <-> a < b.
Proof.
  unfold Qltb. rewrite negb_true_iff. split; intros H.
  - apply Qnot_le_lt. intros Hle. apply Qle_bool_iff in Hle. congruence.
  - destruct (Qle_bool b a) eqn:E; [|reflexivity].
    apply Qle_bool_iff in E. apply Qle_not_lt in E. contradiction.
Qed.

Lemma Qltb_ge (a b : Q) : Qltb a b = false <-> b <= a.
Proof.
  unfold Qltb. rewrite negb_false_iff. apply Qle_bool_iff.
Qed.

Lemma Qleb_le (a b : Q) : Qleb a b = true <-> a <= b.
Proof. apply Qle_bool_iff. Qed.

Lemma Qleb_gt (a b : Q) : Qleb a b = false <-> b < a.
Proof.
  unfold Qleb. split; intros H.
  - apply Qnot_le_lt. intros Hle. apply Qle_bool_iff in Hle. congruence.
  - destruct (Qle_bool a b) eqn:E; [|reflexivity].
    apply Qle_bool_iff in E. apply Qle_not_lt in E. contradiction.
Qed.

Lemma Ref_eqb_eq (a b : Ref) : Ref_eqb a b = true <-> a = b.
Proof.
  destruct a, b; simpl; split; intros H; try reflexivity; try discriminate.
  - apply Nat.eqb_eq in H. congruence.
  - inversion H. apply Nat.eqb_refl.
Qed.

Lemma Ref_eqb_neq (a b : Ref) : Ref_eqb a b = false <-> a <> b.
Proof.
  rewrite <- Ref_eqb_eq. destruct (Ref_eqb a b); split; congruence.
Qed.

Lemma Ref_eqb_refl (a : Ref) : Ref_eqb a a = true.
Proof. apply Ref_eqb_eq. reflexivity. Qed.

Lemma nth_error_replace_nth_same {A : Type} (l : list A) (i : nat) (v w : A) :
  nth_error l i = Some w -> nth_error (replace_nth i v l) i = Some v.
Proof.
  revert i. induction l as [|a l IH]; intros [|i] H; simpl in *;
    try discriminate; auto.
Qed.

Lemma nth_error_replace_nth_other {A : Type} (l : list A) (i j : nat) (v : A) :
  i <> j -> nth_error (replace_nth i v l) j = nth_error l j.
Proof.
  revert i j. induction l as [|a l IH]; intros [|i] [|j] H; simpl;
    try reflexivity; try congruence.
  apply IH. congruence.
Qed.

Lemma length_replace_nth {A : Type} (l : list A) (i : nat) (v : A) :
  List.length (replace_nth i v l) = List.length l.
Proof.
  revert i. induction l as [|a l IH]; intros [|i]; simpl; auto.
Qed.

Lemma same_kind_ent_on gF gE (e : Ent) : same_kind e (ent_on gF gE e).
Proof. destruct e; exact I. Qed.

(** Reading back through the reference that was written. *)
Lemma getEnt_modify_same (st : State.t) (r : Ref) (g : Ent -> Ent) (e : Ent) :
  getEnt st r = Some e -> same_kind e (g e) ->
  getEnt (modify r g st) r = Some (g e).
Proof.
  intros H K. unfold modify. rewrite H.
  destruct r; simpl in H.
  - inversion H; subst. simpl in K. destruct (g (EF (State.player st))); [|contradiction].
    reflexivity.
  - destruct (State.botPlayer st) as [b|]; [|discriminate].
    inversion H; subst. simpl in K. destruct (g (EF b)); [|contradiction]. reflexivity.
  - destruct (State.boss st) as [b|]; [|discriminate].
    inversion H; subst. simpl in K. destruct (g (EE b)); [contradiction|]. reflexivity.
  - destruct (nth_error (State.enemies st) i) as [b|] eqn:E; [|discriminate].
    inversion H; subst. simpl in K. destruct (g (EE b)); [contradiction|].
    simpl. rewrite (nth_error_replace_nth_same _ _ _ _ E). reflexivity.
Qed.

(** A write through one reference is not seen through another. *)
Lemma getEnt_modify_other (st : State.t) (r r' : Ref) (g : Ent -> Ent) :
  r <> r' -> getEnt (modify r g st) r' = getEnt st r'.
Proof.
  intros N. unfold modify. destruct (getEnt st r) as [e|]; [|reflexivity].
  destruct r, (g e), r'; try reflexivity; try congruence.
  simpl. rewrite nth_error_replace_nth_other; [reflexivity|congruence].
Qed.

Lemma partsOnField_modify (st : State.t) (r : Ref) (g : Ent -> Ent) :
  State.partsOnField (modify r g st) = State.partsOnField st.
Proof.
  unfold modify. destruct (getEnt st r) as [e|]; [|reflexivity].
  destruct r, (g e); reflexivity.
Qed.

(* ================================================================== *)
(** * Combat *)
(* ================================================================== *)

Lemma getEnt_set_partsOnField v st r :
  getEnt (State.set_partsOnField v st) r = getEnt st r.
Proof. destruct r; reflexivity. Qed.

Lemma getEnt_set_projectiles v st r :
  getEnt (State.set_projectiles v st) r = getEnt st r.
Proof. destruct r; reflexivity. Qed.

Lemma getEnt_set_kos v st r : getEnt (State.set_kos v st) r = getEnt st r.
Proof. destruct r; reflexivity. Qed.

Lemma getEnt_set_message v st r : getEnt (State.set_message v st) r = getEnt st r.
Proof. destruct r; reflexivity. Qed.

Lemma getEnt_set_messageUntil v st r :
  getEnt (State.set_messageUntil v st) r = getEnt st r.
Proof. destruct r; reflexivity. Qed.

Lemma getEnt_scheduleNextBoss now u st r :
  getEnt (scheduleNextBoss now u st) r = getEnt st r.
Proof. destruct r; reflexivity. Qed.

Lemma getEnt_set_boss_other v st r :
  r <> RBoss -> getEnt (State.set_boss v st) r = getEnt st r.
Proof. destruct r; try reflexivity. congruence. Qed.

(** What a reference to [state.player] or [state.botPlayer] yields is a
    fighter object. *)
Lemma getEnt_fighter_ref st r e :
  Ref_eqb r RPlayer || Ref_eqb r RBot = true -> getEnt st r = Some e ->
  exists f, e = EF f.
Proof.
  destruct r; simpl; try discriminate; intros _ H.
  - inversion H. eauto.
  - destruct (State.botPlayer st); inversion H. eauto.
Qed.

Lemma getEnt_enemy_ref st r e :
  Ref_eqb r RPlayer = false -> Ref_eqb r RBot = false -> getEnt st r = Some e ->
  exists b, e = EE b.
Proof.
  destruct r; simpl; try discriminate; intros _ _ H.
  - destruct (State.boss st); inversion H. eauto.
  - destruct (nth_error _ _); inversion H. eauto.
Qed.

Create Rewrite HintDb getent.
#[local] Hint Rewrite getEnt_set_partsOnField getEnt_set_projectiles getEnt_set_kos
  getEnt_set_message getEnt_set_messageUntil getEnt_scheduleNextBoss : getent.

Section Combat.

Variables Math_cos Math_sin : Q -> Q.
Variable Math_hypot : Q -> Q -> Q.

Local Abbreviation respawnFighter := (respawnFighter Math_hypot).
Local Abbreviation mutate := (mutate Math_hypot).
Local Abbreviation applyDamage := (applyDamage Math_cos Math_sin Math_hypot).
Local Abbreviation applyDamage_death := (applyDamage_death Math_cos Math_sin Math_hypot).
Local Abbreviation spawnScoreOrbs := (spawnScoreOrbs Math_cos Math_sin).

(** What the hit leaves behind the attacker's and the defender's
    references. *)
Lemma hitState_attacker (st : State.t) (a d : Ref) (now m : Q) (dr : Draws)
  (ae de : Ent) :
  getEnt st a = Some ae -> a <> d ->
  exists ae', getEnt (hitState st a d now m dr ae de) a = Some ae' /\
              same_kind ae ae' /\ ent_plasmaPrimed ae' = false /\
              ent_atk ae' = ent_atk ae.
Proof.
  intros Ha N. unfold hitState, afterCooldown.
  set (st1 := modify a _ st).
  assert (Ha1 : getEnt st1 a = Some (ent_set_hitReadyAt (fadd now HIT_COOLDOWN_MS) ae)).
  { apply getEnt_modify_same; [exact Ha | apply same_kind_ent_on]. }
  set (st2 := if ent_plasmaPrimed ae then _ else st1).
  assert (Ha2 : exists ae2, getEnt st2 a = Some ae2 /\ same_kind ae ae2 /\
                            ent_plasmaPrimed ae2 = false /\ ent_atk ae2 = ent_atk ae).
  { unfold st2. destruct (ent_plasmaPrimed ae) eqn:P.
    - eexists. split; [|split; [|split]].
      + apply getEnt_modify_same; [exact Ha1 | apply same_kind_ent_on].
      + destruct ae; exact I.
      + destruct ae; [reflexivity | discriminate P].
      + destruct ae; reflexivity.
    - eexists. split; [exact Ha1|]. destruct ae; repeat split; exact P. }
  destruct Ha2 as (ae2 & Ha2 & K2 & P2 & A2).
  set (st3 := modify d _ st2).
  assert (Ha3 : getEnt st3 a = Some ae2).
  { unfold st3. rewrite getEnt_modify_other by congruence. exact Ha2. }
  destruct (Ref_eqb a RPlayer).
  - eexists. split; [|split; [|split]].
    + apply getEnt_modify_same; [exact Ha3 | apply same_kind_ent_on].
    + destruct ae, ae2; try contradiction; exact I.
    + destruct ae2; exact P2.
    + destruct ae2; exact A2.
  - exists ae2. repeat split; assumption.
Qed.

Lemma hitState_defender (st : State.t) (a d : Ref) (now m : Q) (dr : Draws)
  (ae de : Ent) :
  getEnt st d = Some de -> a <> d ->
  getEnt (hitState st a d now m dr ae de) d = Some (ent_set_hp (hitHp ae de m dr) de).
Proof.
  intros Hd N. unfold hitState, afterCooldown.
  set (st1 := modify a _ st).
  set (st2 := if ent_plasmaPrimed ae then _ else st1).
  assert (Hd2 : getEnt st2 d = Some de).
  { unfold st2, st1. destruct (ent_plasmaPrimed ae);
      rewrite ?getEnt_modify_other by exact N; exact Hd. }
  set (st3 := modify d _ st2).
  assert (Hd3 : getEnt st3 d = Some (ent_set_hp (hitHp ae de m dr) de)).
  { apply getEnt_modify_same; [exact Hd2 | apply same_kind_ent_on]. }
  destruct (Ref_eqb a RPlayer); [|exact Hd3].
  rewrite getEnt_modify_other by exact N. exact Hd3.
Qed.

Lemma hitState_other (st : State.t) (a d r : Ref) (now m : Q) (dr : Draws)
  (ae de : Ent) :
  r <> a -> r <> d -> getEnt (hitState st a d now m dr ae de) r = getEnt st r.
Proof.
  intros Na Nd. unfold hitState, afterCooldown.
  destruct (Ref_eqb a RPlayer), (ent_plasmaPrimed ae);
    rewrite ?getEnt_modify_other by congruence; reflexivity.
Qed.

(** [applyDamage] on two different objects, with every read resolved:
    the attacker is [ae] and the defender [de] on entry. *)
Lemma applyDamage_unfold (st : State.t) (a d : Ref) (now m : Q) (fw : bool)
  (dr : Draws) (ae de : Ent) :
  getEnt st a = Some ae -> getEnt st d = Some de -> a <> d ->
  applyDamage st a d now m fw dr =
  if onCooldown (ent_hitReadyAt ae) now fw then Some st
  else if ent_invulnerable de now then Some (afterCooldown st a now)
  else if Qleb (hitHp ae de m dr) 0 then
         applyDamage_death (hitState st a d now m dr ae de) a d now dr
  else Some (hitState st a d now m dr ae de).
Proof.
  intros Ha Hd N. unfold applyDamage, hitState, hitHp, afterCooldown.
  rewrite Ha, Hd.
  destruct (onCooldown _ now fw); [reflexivity|].
  rewrite (getEnt_modify_other _ a d _ N), Hd.
  destruct (ent_invulnerable de now); [reflexivity|].
  rewrite (getEnt_modify_same _ a _ ae Ha) by apply same_kind_ent_on.
  set (st1 := modify a _ st).
  assert (Ha1 : getEnt st1 a = Some (ent_set_hitReadyAt (fadd now HIT_COOLDOWN_MS) ae)).
  { apply getEnt_modify_same; [exact Ha | apply same_kind_ent_on]. }
  assert (Hd1 : getEnt st1 d = Some de).
  { unfold st1. rewrite getEnt_modify_other by exact N. exact Hd. }
  assert (P : ent_plasmaPrimed (ent_set_hitReadyAt (fadd now HIT_COOLDOWN_MS) ae)
              = ent_plasmaPrimed ae) by (destruct ae; reflexivity).
  rewrite P. cbv zeta.
  set (st2 := if ent_plasmaPrimed ae then _ else st1).
  assert (Ha2 : exists ae2, getEnt st2 a = Some ae2 /\ ent_atk ae2 = ent_atk ae).
  { unfold st2. destruct (ent_plasmaPrimed ae).
    - eexists. split.
      + apply getEnt_modify_same; [exact Ha1 | apply same_kind_ent_on].
      + destruct ae; reflexivity.
    - eexists. split; [exact Ha1 | destruct ae; reflexivity]. }
  destruct Ha2 as (ae2 & Ha2 & Hatk).
  assert (Hd2 : getEnt st2 d = Some de).
  { unfold st2. destruct (ent_plasmaPrimed ae); [|exact Hd1].
    rewrite getEnt_modify_other by exact N. exact Hd1. }
  rewrite Ha2, Hd2, Hatk.
  set (hp' := Qmax 0 _).
  set (st3 := modify d (ent_set_hp hp') st2).
  set (st4 := if Ref_eqb a RPlayer then _ else st3).
  assert (Hd4 : getEnt st4 d = Some (ent_set_hp hp' de)).
  { assert (Hd3 : getEnt st3 d = Some (ent_set_hp hp' de)).
    { apply getEnt_modify_same; [exact Hd2 | apply same_kind_ent_on]. }
    unfold st4. destruct (Ref_eqb a RPlayer); [|exact Hd3].
    rewrite getEnt_modify_other by exact N. exact Hd3. }
  rewrite Hd4.
  replace (ent_hp (ent_set_hp hp' de)) with hp' by (destruct de; reflexivity).
  reflexivity.
Qed.

Lemma invulnerable_active (df : Fighter.t) (now : Q) :
  0 <= now -> now < Fighter.invulnUntil df -> ent_invulnerable (EF df) now = true.
Proof.
  intros H0 H. simpl. apply andb_true_intro. split.
  - apply negb_true_iff. destruct (Qeq_bool _ 0) eqn:E; [|reflexivity].
    apply Qeq_bool_iff in E. lra.
  - apply Qltb_lt. exact H.
Qed.

(** C2, as the code has it.  While the defender's spawn protection is
    active ([now < invulnUntil], for a clock reading [now >= 0]),
    [applyDamage] leaves the defender's health as it is, but the
    attacker's cooldown is consumed: unless the call is rejected by the
    attacker's own cooldown ([hitReadyAt > now] and the hit is not from a
    wave), [hitReadyAt] becomes [now + HIT_COOLDOWN_MS].  For a melee
    call ([fromWave] false) at a clock reading up to 2^53 the new value
    is strictly later than the old one, so [hitReadyAt] is the same after
    the call as before exactly when the call was rejected by that
    cooldown. *)
Theorem applyDamage_invulnerable (st : State.t) (a d : Ref) (now m : Q) (fw : bool)
  (dr : Draws) (ae : Ent) (df : Fighter.t) :
  getEnt st a = Some ae -> getEnt st d = Some (EF df) ->
  0 <= now -> now < Fighter.invulnUntil df ->
  exists st',
    applyDamage st a d now m fw dr = Some st' /\
    (exists df', getEnt st' d = Some (EF df') /\ Fighter.hp df' = Fighter.hp df) /\
    (exists ae', getEnt st' a = Some ae' /\
                 ent_hitReadyAt ae'
                 = (if onCooldown (ent_hitReadyAt ae) now fw then ent_hitReadyAt ae
                    else fadd now HIT_COOLDOWN_MS) /\
                 (fw = false -> now <= MAX_SAFE ->
                  (onCooldown (ent_hitReadyAt ae) now fw = false ->
                   ent_hitReadyAt ae < ent_hitReadyAt ae') /\
                  (ent_hitReadyAt ae' == ent_hitReadyAt ae <->
                   onCooldown (ent_hitReadyAt ae) now fw = true))).
Proof.
  intros Ha Hd H0 Hinv.
  pose proof (invulnerable_active df now H0 Hinv) as I.
  assert (Melee : forall v : Q,
             v = (if onCooldown (ent_hitReadyAt ae) now fw then ent_hitReadyAt ae
                  else fadd now HIT_COOLDOWN_MS) ->
             fw = false -> now <= MAX_SAFE ->
             (onCooldown (ent_hitReadyAt ae) now fw = false -> ent_hitReadyAt ae < v) /\
             (v == ent_hitReadyAt ae <-> onCooldown (ent_hitReadyAt ae) now fw = true)).
  { intros v Ev Hfw Hmax. subst fw.
    assert (Hfut : now < fadd now HIT_COOLDOWN_MS).
    { apply fadd_future; [exact H0 | exact Hmax | vm_compute; discriminate]. }
    unfold onCooldown in *. rewrite andb_true_r in *.
    destruct (Qltb now (ent_hitReadyAt ae)) eqn:C; subst v.
    - split; [discriminate|]. split; [reflexivity | intros _; apply Qeq_refl].
    - apply Qltb_ge in C. split; [intros _; lra|].
      split; [intros E; lra | discriminate]. }
  unfold applyDamage. rewrite Ha, Hd.
  destruct (onCooldown _ now fw) eqn:OC.
  { exists st. split; [reflexivity|]. split; [eauto|].
    exists ae. split; [exact Ha|]. split; [reflexivity|].
    intros Hfw Hmax. apply (Melee _ eq_refl Hfw Hmax). }
  set (st1 := modify a _ st).
  assert (Ha1 : getEnt st1 a = Some (ent_set_hitReadyAt (fadd now HIT_COOLDOWN_MS) ae)).
  { apply getEnt_modify_same; [exact Ha | apply same_kind_ent_on]. }
  destruct (Ref_eqb a d) eqn:E.
  - apply Ref_eqb_eq in E. subst d.
    rewrite Ha in Hd. inversion Hd; subst ae. rewrite Ha1.
    simpl ent_set_hitReadyAt. simpl ent_invulnerable. simpl in I. rewrite I.
    exists st1. split; [reflexivity|]. split.
    + eexists. split; [exact Ha1 | reflexivity].
    + eexists. split; [exact Ha1|]. split; [reflexivity|].
      intros Hfw Hmax. apply (Melee _ eq_refl Hfw Hmax).
  - apply Ref_eqb_neq in E.
    assert (Hd1 : getEnt st1 d = Some (EF df)).
    { unfold st1. rewrite getEnt_modify_other by exact E. exact Hd. }
    rewrite Hd1, I.
    exists st1. split; [reflexivity|]. split.
    + eexists. split; [exact Hd1 | reflexivity].
    + eexists. split; [exact Ha1|].
      assert (V : ent_hitReadyAt (ent_set_hitReadyAt (fadd now HIT_COOLDOWN_MS) ae)
                  = fadd now HIT_COOLDOWN_MS) by (destruct ae; reflexivity).
      split; [exact V|].
      intros Hfw Hmax. rewrite V. apply (Melee _ eq_refl Hfw Hmax).
Qed.

(** The flag read through a reference ([undefined], hence [false], on
    an enemy object). *)
Lemma primed_add_score v e : ent_plasmaPrimed (ent_add_score v e) = ent_plasmaPrimed e.
Proof. destruct e; reflexivity. Qed.

Lemma getEnt_spawnScoreOrbs x y amount now u st r :
  getEnt (spawnScoreOrbs x y amount now u st) r = getEnt st r.
Proof. unfold spawnScoreOrbs. apply getEnt_set_partsOnField. Qed.

(** The death branch always returns, and the attacker comes out of it
    with the same [plasmaPrimed] flag (only its score may change). *)
Lemma applyDamage_death_attacker (st : State.t) (a d : Ref) (now : Q) (dr : Draws)
  (ae de : Ent) :
  a <> d -> getEnt st a = Some ae -> getEnt st d = Some de ->
  exists st' ae',
    applyDamage_death st a d now dr = Some st' /\
    getEnt st' a = Some ae' /\ same_kind ae ae' /\
    ent_plasmaPrimed ae' = ent_plasmaPrimed ae.
Proof.
  intros N Ha Hd. unfold applyDamage_death.
  assert (Hs : forall v, exists ae',
             getEnt (modify a (ent_add_score v) st) a = Some ae' /\
             same_kind ae ae' /\ ent_plasmaPrimed ae' = ent_plasmaPrimed ae).
  { intros v. eexists. split; [|split].
    - apply getEnt_modify_same; [exact Ha | apply same_kind_ent_on].
    - apply same_kind_ent_on.
    - apply primed_add_score. }
  destruct (Ref_eqb d RBoss) eqn:EB.
  { apply Ref_eqb_eq in EB. subst d.
    destruct (Hs SCORE_PER_BOSS_KO) as (ae' & G & K & P).
    exists (scheduleNextBoss now (u_nextBoss dr)
              (State.set_boss None
                 (State.set_messageUntil (fadd now 1400)
                    (State.set_message (Some "BOSS DEFEATED!"%string)
                       (modify a (ent_add_score SCORE_PER_BOSS_KO) st))))), ae'.
    split; [reflexivity|]. split; [|split; assumption].
    rewrite getEnt_scheduleNextBoss, getEnt_set_boss_other by exact N.
    autorewrite with getent. exact G. }
  destruct ((Ref_eqb d RPlayer || Ref_eqb d RBot)
            && (Ref_eqb a RPlayer || Ref_eqb a RBot) && negb (Ref_eqb a d)) eqn:EP.
  { apply andb_prop in EP as [EP _]. apply andb_prop in EP as [EP _].
    destruct (getEnt_fighter_ref st d de EP Hd) as (df & ->).
    rewrite Hd.
    set (dropped := Math_floor _).
    set (st1 := modify d _ st).
    set (st2 := if (0 <? dropped)%Z then _ else st1).
    assert (Ha2 : getEnt st2 a = Some ae).
    { unfold st2. destruct (0 <? dropped)%Z.
      - rewrite getEnt_spawnScoreOrbs. unfold st1.
        rewrite getEnt_modify_other by congruence. exact Ha.
      - unfold st1. rewrite getEnt_modify_other by congruence. exact Ha. }
    eexists. exists (ent_add_score SCORE_PER_ENEMY_KO ae).
    split; [reflexivity|]. split; [|split].
    - rewrite getEnt_modify_other by congruence.
      apply getEnt_modify_same; [exact Ha2 | apply same_kind_ent_on].
    - apply same_kind_ent_on.
    - apply primed_add_score. }
  destruct (negb (Ref_eqb d RPlayer) && negb (Ref_eqb d RBot)) eqn:EE.
  { destruct (Hs SCORE_PER_ENEMY_KO) as (ae' & G & K & P).
    eexists. exists ae'. split; [reflexivity|]. split; [|split; assumption].
    rewrite getEnt_modify_other by congruence.
    unfold modify at 1. unfold modify in G.
    rewrite getEnt_set_kos, Ha. rewrite Ha in G.
    destruct a, (ent_add_score SCORE_PER_ENEMY_KO ae); exact G. }
  eexists. exists ae. split; [reflexivity|]. split; [|split].
  - rewrite getEnt_modify_other by congruence. exact Ha.
  - destruct ae; exact I.
  - reflexivity.
Qed.

(** The death branch writes through the attacker's and the defender's
    references only. *)
Lemma applyDamage_death_other (st st' : State.t) (a d r : Ref) (now : Q) (dr : Draws) :
  r <> a -> r <> d -> applyDamage_death st a d now dr = Some st' ->
  getEnt st' r = getEnt st r.
Proof.
  intros Na Nd. unfold applyDamage_death.
  destruct (Ref_eqb d RBoss) eqn:EB.
  { apply Ref_eqb_eq in EB. subst d. intros H. inversion H; subst st'.
    rewrite getEnt_scheduleNextBoss, getEnt_set_boss_other by exact Nd.
    autorewrite with getent. apply getEnt_modify_other. congruence. }
  destruct ((Ref_eqb d RPlayer || Ref_eqb d RBot)
            && (Ref_eqb a RPlayer || Ref_eqb a RBot) && negb (Ref_eqb a d)).
  { destruct (getEnt st d) as [[df|]|]; try discriminate.
    intros H. inversion H; subst st'.
    rewrite !getEnt_modify_other by congruence.
    destruct (0 <? _)%Z; rewrite ?getEnt_spawnScoreOrbs;
      rewrite getEnt_modify_other by congruence; reflexivity. }
  destruct (negb (Ref_eqb d RPlayer) && negb (Ref_eqb d RBot)).
  { intros H. inversion H; subst st'.
    rewrite !getEnt_modify_other by congruence. apply getEnt_set_kos. }
  intros H. inversion H; subst st'.
  apply getEnt_modify_other. congruence.
Qed.

(** The operations on a fighter other than respawn leave [plasmaPrimed]
    as it is. *)
Lemma plasmaPrimed_recompute (f : Fighter.t) :
  Fighter.plasmaPrimed (recomputeFighterStats f) = Fighter.plasmaPrimed f.
Proof. reflexivity. Qed.

Lemma plasmaPrimed_addPlasma (f : Fighter.t) (n : Z) :
  Fighter.plasmaPrimed (addPlasma f n) = Fighter.plasmaPrimed f.
Proof. unfold addPlasma. cbv zeta. destruct (negb _); reflexivity. Qed.

Lemma plasmaPrimed_addWave (f : Fighter.t) (n : Z) :
  Fighter.plasmaPrimed (addWave f n) = Fighter.plasmaPrimed f.
Proof. reflexivity. Qed.

Lemma plasmaPrimed_regenTick (f : Fighter.t) (dt : Q) :
  Fighter.plasmaPrimed (regenTick f dt) = Fighter.plasmaPrimed f.
Proof. reflexivity. Qed.

Lemma plasmaPrimed_pickupPart (f : Fighter.t) (part : Part.t) :
  Fighter.plasmaPrimed (pickupPart f part) = Fighter.plasmaPrimed f.
Proof.
  unfold pickupPart. destruct (Part.kind part); cbv zeta.
  - destruct (_ <? _)%Z.
    + destruct (_ =? 0)%Z; [|reflexivity]. destruct (negb _); reflexivity.
    + destruct (_ =? 0)%Z; [|reflexivity]. rewrite plasmaPrimed_addPlasma. reflexivity.
  - reflexivity.
  - destruct (_ =? 0)%Z; reflexivity.
  - reflexivity.
Qed.

Lemma plasmaPrimed_moveFighter (obs : list Rect.t) (f : Fighter.t) (dt speed : Q) :
  Fighter.plasmaPrimed (moveFighter obs f dt speed) = Fighter.plasmaPrimed f.
Proof. reflexivity. Qed.

Lemma plasmaPrimed_updateBotPlayer_stuck (obs : list Rect.t) (b : Fighter.t)
  (dt now ua uj : Q) :
  Fighter.plasmaPrimed (updateBotPlayer_stuck Math_cos Math_sin Math_hypot obs b dt now ua uj)
  = Fighter.plasmaPrimed b.
Proof.
  unfold updateBotPlayer_stuck, stuckEscape. cbv zeta.
  destruct (_ <=? _)%Z; reflexivity.
Qed.

(** In [applyDamage], no object except the defender (which the call may
    respawn) goes from unprimed to primed. *)
Lemma applyDamage_never_primes (st st' : State.t) (a d r : Ref) (now m : Q) (fw : bool)
  (dr : Draws) (er er' : Ent) :
  a <> d -> r <> d ->
  applyDamage st a d now m fw dr = Some st' ->
  getEnt st r = Some er -> getEnt st' r = Some er' ->
  ent_plasmaPrimed er' = true -> ent_plasmaPrimed er = true.
Proof.
  intros N Nr H Hr Hr' P.
  destruct (getEnt st a) as [ae|] eqn:Ha;
    [|unfold applyDamage in H; rewrite Ha in H; discriminate].
  destruct (getEnt st d) as [de|] eqn:Hd;
    [|unfold applyDamage in H; rewrite Ha, Hd in H; discriminate].
  rewrite (applyDamage_unfold st a d now m fw dr ae de Ha Hd N) in H.
  destruct (onCooldown _ now fw).
  { inversion H; subst st'. congruence. }
  destruct (ent_invulnerable de now).
  { inversion H; subst st'. unfold afterCooldown in Hr'.
    destruct (Ref_eqb r a) eqn:E.
    - apply Ref_eqb_eq in E. subst r.
      rewrite (getEnt_modify_same _ a _ ae Ha) in Hr' by apply same_kind_ent_on.
      inversion Hr'; subst er'. rewrite Ha in Hr. inversion Hr; subst er.
      destruct ae; exact P.
    - apply Ref_eqb_neq in E. rewrite getEnt_modify_other in Hr' by congruence.
      congruence. }
  destruct (Ref_eqb r a) eqn:E.
  - apply Ref_eqb_eq in E. subst r. exfalso.
    destruct (hitState_attacker st a d now m dr ae de Ha N) as (ae4 & G4 & K4 & P4 & _).
    destruct (Qleb _ 0).
    + destruct (applyDamage_death_attacker _ a d now dr ae4 _ N G4
                  (hitState_defender st a d now m dr ae de Hd N))
        as (st'' & ae'' & D & G & _ & P'').
      rewrite D in H. inversion H; subst st''. rewrite G in Hr'.
      inversion Hr'; subst er'. congruence.
    + inversion H; subst st'. rewrite G4 in Hr'. inversion Hr'; subst er'. congruence.
  - apply Ref_eqb_neq in E.
    assert (G : getEnt st' r = getEnt st r).
    { destruct (Qleb _ 0).
      - rewrite (applyDamage_death_other _ _ a d r now dr E Nr H).
        apply hitState_other; assumption.
      - inversion H; subst st'. apply hitState_other; assumption. }
    congruence.
Qed.


(** What the death branch leaves behind the defender's reference: a
    defeated boss is removed, an enemy stays an enemy object, and a
    fighter is what [respawnFighter] returns. *)
Lemma applyDamage_death_defender (st st' : State.t) (a d : Ref) (now : Q) (dr : Draws)
  (de de' : Ent) :
  a <> d -> getEnt st d = Some de ->
  applyDamage_death st a d now dr = Some st' ->
  getEnt st' d = Some de' ->
  match de' with
  | EF f' => exists boss p, f' = respawnFighter boss (t_respawn dr) p (Ref_eqb d RPlayer)
  | EE _ => True
  end.
Proof.
  intros N Hd. unfold applyDamage_death.
  destruct (Ref_eqb d RBoss) eqn:EB.
  { apply Ref_eqb_eq in EB. subst d. intros H. inversion H; subst st'.
    intros G. discriminate G. }
  destruct ((Ref_eqb d RPlayer || Ref_eqb d RBot)
            && (Ref_eqb a RPlayer || Ref_eqb a RBot) && negb (Ref_eqb a d)) eqn:EP.
  { apply andb_prop in EP as [EP _]. apply andb_prop in EP as [EP _].
    destruct (getEnt_fighter_ref st d de EP Hd) as (df & ->).
    rewrite Hd.
    set (dropped := Math_floor _).
    set (st1 := modify d _ st).
    set (st2 := if (0 <? dropped)%Z then _ else st1).
    set (st3 := modify a _ st2).
    assert (H1 : exists p, getEnt st1 d = Some (EF p)).
    { eexists. unfold st1. rewrite (getEnt_modify_same _ d _ _ Hd) by exact I.
      reflexivity. }
    destruct H1 as (p & H1).
    assert (H2 : getEnt st2 d = Some (EF p)).
    { unfold st2. destruct (0 <? dropped)%Z; [rewrite getEnt_spawnScoreOrbs|]; exact H1. }
    assert (H3 : getEnt st3 d = Some (EF p)).
    { unfold st3. rewrite getEnt_modify_other by exact N. exact H2. }
    intros H. inversion H; subst st'. clear H.
    rewrite (getEnt_modify_same _ d _ _ H3) by exact I.
    intros G. inversion G; subst de'. eexists. eexists. reflexivity. }
  destruct (negb (Ref_eqb d RPlayer) && negb (Ref_eqb d RBot)) eqn:EE.
  { apply andb_prop in EE as [E1 E2].
    apply negb_true_iff in E1. apply negb_true_iff in E2.
    destruct (getEnt_enemy_ref st d de E1 E2 Hd) as (b & ->).
    intros H. inversion H; subst st'. clear H.
    set (st1 := State.set_kos _ st).
    set (st2 := modify a _ st1).
    assert (H2 : getEnt st2 d = Some (EE b)).
    { unfold st2. rewrite getEnt_modify_other by exact N.
      unfold st1. rewrite getEnt_set_kos. exact Hd. }
    rewrite (getEnt_modify_same _ d _ _ H2) by exact I.
    intros G. inversion G; subst de'. exact I. }
  assert (EF' : Ref_eqb d RPlayer || Ref_eqb d RBot = true).
  { destruct (Ref_eqb d RPlayer), (Ref_eqb d RBot); try reflexivity; discriminate EE. }
  destruct (getEnt_fighter_ref st d de EF' Hd) as (df & ->).
  intros H. inversion H; subst st'. clear H.
  rewrite (getEnt_modify_same _ d _ _ Hd) by exact I.
  intros G. inversion G; subst de'. eexists. eexists. reflexivity.
Qed.

(** The defender of [applyDamage] comes out primed only when it was
    primed already or when the hit was lethal and [respawnFighter] has
    rebuilt it. *)
Lemma applyDamage_defender_primed (st st' : State.t) (a d : Ref) (now m : Q) (fw : bool)
  (dr : Draws) (ae de de' : Ent) :
  a <> d -> getEnt st a = Some ae -> getEnt st d = Some de ->
  applyDamage st a d now m fw dr = Some st' ->
  getEnt st' d = Some de' ->
  ent_plasmaPrimed de' = true ->
  ent_plasmaPrimed de = true \/
  (onCooldown (ent_hitReadyAt ae) now fw = false /\
   ent_invulnerable de now = false /\
   hitHp ae de m dr <= 0 /\
   exists boss p,
     de' = EF (respawnFighter boss (t_respawn dr) p (Ref_eqb d RPlayer))).
Proof.
  intros N Ha Hd H Hd' P.
  rewrite (applyDamage_unfold st a d now m fw dr ae de Ha Hd N) in H.
  destruct (onCooldown _ now fw) eqn:OC.
  { inversion H; subst st'. left. congruence. }
  destruct (ent_invulnerable de now) eqn:IV.
  { inversion H; subst st'. unfold afterCooldown in Hd'.
    rewrite getEnt_modify_other in Hd' by exact N. left. congruence. }
  pose proof (hitState_defender st a d now m dr ae de Hd N) as D4.
  destruct (Qleb (hitHp ae de m dr) 0) eqn:L.
  - right. split; [reflexivity|]. split; [reflexivity|].
    split; [apply Qleb_le; exact L|].
    pose proof (applyDamage_death_defender _ st' a d now dr _ de' N D4 H Hd') as F.
    destruct de' as [f'|e']; [|discriminate P].
    destruct F as (boss & p & ->). exists boss, p. reflexivity.
  - inversion H; subst st'. rewrite D4 in Hd'. inversion Hd'; subst de'.
    left. destruct de; exact P.
Qed.

Lemma plasmaPrimed_tryDash (f : Fighter.t) (now : Q) :
  Fighter.plasmaPrimed (tryDash f now) = Fighter.plasmaPrimed f.
Proof. unfold tryDash. destruct (Qltb _ _); reflexivity. Qed.

Lemma plasmaPrimed_steerTo (dt : Q) (b : Fighter.t) (tx ty s : Q) :
  Fighter.plasmaPrimed (steerTo Math_hypot dt b tx ty s) = Fighter.plasmaPrimed b.
Proof. reflexivity. Qed.

Lemma plasmaPrimed_steerToPartOrPlayer (st : State.t) (dt spread : Q) (dr : BotDraws)
  (b : Fighter.t) :
  Fighter.plasmaPrimed (steerToPartOrPlayer Math_hypot st dt spread dr b)
  = Fighter.plasmaPrimed b.
Proof.
  unfold steerToPartOrPlayer. destruct (nearestPart _ _ _) as [[? ?]|]; reflexivity.
Qed.

Lemma plasmaPrimed_updatePlayer_move (obs : list Rect.t) (keys : list string)
  (dt now : Q) (p : Fighter.t) :
  Fighter.plasmaPrimed (updatePlayer_move Math_hypot obs keys dt now p)
  = Fighter.plasmaPrimed p.
Proof.
  unfold updatePlayer_move. cbv zeta.
  match goal with
  | |- Fighter.plasmaPrimed
         (regenTick (Fighter.set_rot _ (moveFighter _ ?P _ _)) _) = _ =>
      transitivity (Fighter.plasmaPrimed P); [reflexivity|]
  end.
  destruct (has keys " "); rewrite ?plasmaPrimed_tryDash;
    cbn [Fighter.plasmaPrimed Fighter.set_vy Fighter.set_vx];
    destruct (Qltb (lit (1 # 1000)) _); reflexivity.
Qed.

Lemma plasmaPrimed_fighterPickups (parts : list Part.t) (f : Fighter.t) :
  Fighter.plasmaPrimed (snd (fighterPickups parts f)) = Fighter.plasmaPrimed f.
Proof.
  induction parts as [|part rest IH]; [reflexivity|].
  cbn [fighterPickups]. destruct (fighterPickups rest f) as [rest' f'].
  cbn [snd] in IH. destruct (Qleb _ _); cbn [snd].
  - rewrite plasmaPrimed_pickupPart. exact IH.
  - exact IH.
Qed.

Lemma primedFlags_tryWave (st : State.t) (p : Ref) (now : Q) :
  primedFlags (tryWave Math_hypot st p now) = primedFlags st.
Proof.
  unfold tryWave. destruct (getEnt st p) as [[f|e]|] eqn:G; try reflexivity.
  destruct (_ <=? 0)%Z; [reflexivity|]. destruct (Qltb _ _); [reflexivity|].
  unfold primedFlags. rsimpl. unfold modify. rewrite G.
  destruct p; cbn [setEnt ent_onFighter ent_on]; rsimpl; try reflexivity.
  - simpl in G. inversion G. reflexivity.
  - simpl in G. destruct (State.botPlayer st) as [b|]; [|discriminate G].
    inversion G. reflexivity.
Qed.

Lemma primedFlags_maybeWave (chance now : Q) (dr : BotDraws) (st : State.t) :
  primedFlags (maybeWave Math_hypot chance now dr st) = primedFlags st.
Proof.
  unfold maybeWave. destruct (State.botPlayer st); [|reflexivity].
  destruct (_ && _); [apply primedFlags_tryWave | reflexivity].
Qed.

Lemma primedFlags_set_bot (st : State.t) (b b' : Fighter.t) :
  State.botPlayer st = Some b ->
  Fighter.plasmaPrimed b' = Fighter.plasmaPrimed b ->
  primedFlags (State.set_botPlayer (Some b') st) = primedFlags st.
Proof. intros E P. unfold primedFlags. rsimpl. rewrite E. simpl. rewrite P. reflexivity. Qed.

Lemma primedFlags_updateBotPlayer_steer (dt now : Q) (dr : BotDraws) (b : Fighter.t)
  (st : State.t) :
  State.botPlayer st = Some b ->
  primedFlags (updateBotPlayer_steer Math_hypot dt now dr b st) = primedFlags st.
Proof.
  intros E. unfold updateBotPlayer_steer.
  destruct (Qltb now _).
  { apply primedFlags_set_bot with b; [exact E | reflexivity]. }
  destruct (State.boss st) as [boss|].
  - destruct (Qltb _ 520); cbv zeta; rewrite primedFlags_maybeWave;
      apply primedFlags_set_bot with b; try exact E;
      [apply plasmaPrimed_steerTo | apply plasmaPrimed_steerToPartOrPlayer].
  - cbv zeta. rewrite primedFlags_maybeWave.
    apply primedFlags_set_bot with b; [exact E | apply plasmaPrimed_steerToPartOrPlayer].
Qed.

Lemma primedFlags_spawnPart (now : Q) (u : PartDraws) (st : State.t) :
  primedFlags (spawnPart Math_cos Math_sin now u st) = primedFlags st.
Proof. reflexivity. Qed.

Lemma primedFlags_tick_spawn (now : Q) (dr : TickDraws) (st : State.t) :
  primedFlags (tick_spawn Math_cos Math_sin now dr st) = primedFlags st.
Proof.
  unfold tick_spawn. destruct (Qltb _ now); [|reflexivity].
  cbv zeta. destruct (_ <? _)%nat; reflexivity.
Qed.

Lemma primedFlags_maybeSpawnBoss (now : Q) (u : BossDraws) (st : State.t) :
  primedFlags (maybeSpawnBoss now u st) = primedFlags st.
Proof.
  unfold maybeSpawnBoss. destruct (State.boss st); [reflexivity|].
  destruct (Qltb now _); reflexivity.
Qed.

Lemma primedFlags_updateEnemyAI (i : nat) (dt now : Q) (dr : EnemyAIDraws) (st : State.t) :
  primedFlags (updateEnemyAI Math_hypot i dt now dr st) = primedFlags st.
Proof.
  unfold updateEnemyAI. destruct (nth_error _ i); [|reflexivity].
  destruct (updateEnemyAI_on _ _ _ _ _ _). reflexivity.
Qed.

Lemma primedFlags_updateEnemies (dt now : Q) (dr : nat -> EnemyAIDraws) (st : State.t) :
  primedFlags (updateEnemies Math_hypot dt now dr st) = primedFlags st.
Proof.
  unfold updateEnemies. generalize (seq 0 (List.length (State.enemies st))).
  intros l. revert st. induction l as [|i l IH]; intros st; [reflexivity|].
  cbn [fold_left]. rewrite IH. apply primedFlags_updateEnemyAI.
Qed.

Lemma primedFlags_updateBoss (dt : Q) (st : State.t) :
  primedFlags (updateBoss Math_hypot dt st) = primedFlags st.
Proof. unfold updateBoss. destruct (State.boss st); reflexivity. Qed.

Lemma primedFlags_modify (st : State.t) (r : Ref) gF gE :
  (forall f, Fighter.plasmaPrimed (gF f) = Fighter.plasmaPrimed f) ->
  primedFlags (modify r (ent_on gF gE) st) = primedFlags st.
Proof.
  intros K. unfold modify. destruct (getEnt st r) as [e|] eqn:G; [|reflexivity].
  unfold primedFlags.
  destruct r, e; cbn [setEnt ent_on]; rsimpl; try reflexivity; simpl in G.
  - rewrite K. inversion G. reflexivity.
  - destruct (State.botPlayer st) as [b|]; [|discriminate G].
    inversion G. simpl. rewrite K. reflexivity.
Qed.

(** C10.  When [applyDamage] lands a hit (the attacker is off cooldown
    or the hit comes from a wave, and the defender is not protected), the
    damage is computed with the multiplier [extraMult * 3] exactly when
    the attacker's [plasmaPrimed] flag is set, whatever its plasma level,
    and with [extraMult] otherwise, whatever the time since its last
    landed hit; the attacker's flag is [false] after the call.

    The flag is re-armed by [respawnFighter] only.  Every operation of a
    frame that writes a fighter without going through [applyDamage]
    leaves the flag as it is: the pickups, regeneration, [addPlasma],
    [addWave], [recomputeFighterStats], the movement, [tryDash], the
    steering of the bot, its stuck detection, [tryWave], and the write of
    [hitReadyAt] that precedes the [applyDamage] of a wave hit; spawning
    parts or the boss and moving the enemies and the boss write no
    fighter.  In [applyDamage] itself an object that comes out primed
    was primed on entry, or it is the defender, the hit was lethal, and
    what the defender's reference holds is the result of
    [respawnFighter]: the attacker is never re-armed, and a defender
    that survives is not either. *)
Theorem plasma_first_strike :
  (forall (st : State.t) (a d : Ref) (now m : Q) (fw : bool) (dr : Draws)
          (af : Fighter.t) (de : Ent),
      getEnt st a = Some (EF af) -> getEnt st d = Some de -> a <> d ->
      onCooldown (Fighter.hitReadyAt af) now fw = false ->
      ent_invulnerable de now = false ->
      let mult := if Fighter.plasmaPrimed af then fmul m PLASMA_FIRST_HIT_MULT else m in
      let dmg := damageAmount (Fighter.atk af) (ent_def de) mult (u_jitter dr) in
      let hp' := Qmax 0 (fsub (ent_hp de) (inject_Z dmg)) in
      exists st' af',
        applyDamage st a d now m fw dr = Some st' /\
        getEnt st' a = Some (EF af') /\ Fighter.plasmaPrimed af' = false /\
        (0 < hp' -> exists de', getEnt st' d = Some de' /\ ent_hp de' = hp')) /\
  (forall (f : Fighter.t) (part : Part.t) (parts : list Part.t) (keys : list string)
          (dt speed now ua uj tx ty strength : Q) (n : Z) (obs : list Rect.t),
      Fighter.plasmaPrimed (pickupPart f part) = Fighter.plasmaPrimed f /\
      Fighter.plasmaPrimed (snd (fighterPickups parts f)) = Fighter.plasmaPrimed f /\
      Fighter.plasmaPrimed (regenTick f dt) = Fighter.plasmaPrimed f /\
      Fighter.plasmaPrimed (addPlasma f n) = Fighter.plasmaPrimed f /\
      Fighter.plasmaPrimed (addWave f n) = Fighter.plasmaPrimed f /\
      Fighter.plasmaPrimed (recomputeFighterStats f) = Fighter.plasmaPrimed f /\
      Fighter.plasmaPrimed (moveFighter obs f dt speed) = Fighter.plasmaPrimed f /\
      Fighter.plasmaPrimed (tryDash f now) = Fighter.plasmaPrimed f /\
      Fighter.plasmaPrimed (updatePlayer_move Math_hypot obs keys dt now f)
      = Fighter.plasmaPrimed f /\
      Fighter.plasmaPrimed (steerTo Math_hypot dt f tx ty strength)
      = Fighter.plasmaPrimed f /\
      Fighter.plasmaPrimed (updateBotPlayer_stuck Math_cos Math_sin Math_hypot obs f dt now
                                                  ua uj)
      = Fighter.plasmaPrimed f) /\
  (forall (st : State.t) (p : Ref) (b : Fighter.t) (pr : Projectile.t) (dt now : Q)
          (bd : BotDraws) (td : TickDraws) (u : BossDraws) (ai : nat -> EnemyAIDraws),
      primedFlags (tryWave Math_hypot st p now) = primedFlags st /\
      (State.botPlayer st = Some b ->
       primedFlags (updateBotPlayer_steer Math_hypot dt now bd b st) = primedFlags st) /\
      primedFlags
        (modify (Projectile.owner pr)
                (ent_on (fun f => Fighter.set_hitReadyAt (Qmin (Fighter.hitReadyAt f) now) f)
                        (fun e => Enemy.set_hitReadyAt (Qmin (Enemy.hitReadyAt e) now) e))
                st)
      = primedFlags st /\
      primedFlags (tick_spawn Math_cos Math_sin now td st) = primedFlags st /\
      primedFlags (maybeSpawnBoss now u st) = primedFlags st /\
      primedFlags (updateEnemies Math_hypot dt now ai st) = primedFlags st /\
      primedFlags (updateBoss Math_hypot dt st) = primedFlags st) /\
  (forall (st st' : State.t) (a d r : Ref) (now m : Q) (fw : bool) (dr : Draws)
          (er er' : Ent),
      a <> d ->
      applyDamage st a d now m fw dr = Some st' ->
      getEnt st r = Some er -> getEnt st' r = Some er' ->
      ent_plasmaPrimed er' = true ->
      ent_plasmaPrimed er = true \/
      (r = d /\
       exists (ae : Ent) (boss : option Enemy.t) (p : Fighter.t),
         getEnt st a = Some ae /\
         onCooldown (ent_hitReadyAt ae) now fw = false /\
         ent_invulnerable er now = false /\
         hitHp ae er m dr <= 0 /\
         er' = EF (respawnFighter boss (t_respawn dr) p (Ref_eqb d RPlayer)))).
Proof.
  split; [|split; [|split]].
  - intros st a d now m fw dr af de Ha Hd N Hc Hi mult dmg hp'.
    rewrite (applyDamage_unfold st a d now m fw dr (EF af) de Ha Hd N).
    simpl ent_hitReadyAt. rewrite Hc, Hi.
    change (hitHp (EF af) de m dr) with hp'.
    destruct (hitState_attacker st a d now m dr (EF af) de Ha N)
      as (ae4 & G4 & K4 & P4 & _).
    pose proof (hitState_defender st a d now m dr (EF af) de Hd N) as D4.
    change (hitHp (EF af) de m dr) with hp' in D4.
    destruct (Qleb hp' 0) eqn:E.
    + destruct (applyDamage_death_attacker _ a d now dr ae4 _ N G4 D4)
        as (st' & ae' & D & G & K & P).
      destruct ae4 as [f4|e4]; [|destruct K4].
      destruct ae' as [f'|e']; [|destruct K].
      exists st', f'. split; [exact D|]. split; [exact G|].
      split; [simpl in P, P4; congruence|].
      intros Hpos. apply Qleb_le in E. lra.
    + destruct ae4 as [f4|e4]; [|destruct K4].
      exists (hitState st a d now m dr (EF af) de), f4.
      split; [reflexivity|]. split; [exact G4|]. split; [exact P4|].
      intros _. eexists. split; [exact D4|]. destruct de; reflexivity.
  - intros f part parts keys dt speed now ua uj tx ty strength n obs.
    split; [apply plasmaPrimed_pickupPart|].
    split; [apply plasmaPrimed_fighterPickups|].
    split; [apply plasmaPrimed_regenTick|].
    split; [apply plasmaPrimed_addPlasma|].
    split; [apply plasmaPrimed_addWave|].
    split; [apply plasmaPrimed_recompute|].
    split; [apply plasmaPrimed_moveFighter|].
    split; [apply plasmaPrimed_tryDash|].
    split; [apply plasmaPrimed_updatePlayer_move|].
    split; [apply plasmaPrimed_steerTo|].
    apply plasmaPrimed_updateBotPlayer_stuck.
  - intros st p b pr dt now bd td u ai.
    split; [apply primedFlags_tryWave|].
    split; [apply primedFlags_updateBotPlayer_steer|].
    split; [apply primedFlags_modify; intros f; reflexivity|].
    split; [apply primedFlags_tick_spawn|].
    split; [apply primedFlags_maybeSpawnBoss|].
    split; [apply primedFlags_updateEnemies|].
    apply primedFlags_updateBoss.
  - intros st st' a d r now m fw dr er er' N H Hr Hr' P.
    destruct (Ref_eqb r d) eqn:E.
    + apply Ref_eqb_eq in E. subst r.
      destruct (getEnt st a) as [ae|] eqn:Ha;
        [|unfold applyDamage in H; rewrite Ha in H; discriminate].
      destruct (applyDamage_defender_primed st st' a d now m fw dr ae er er'
                  N Ha Hr H Hr' P) as [L | (OC & IV & Le & boss & p & Er)].
      * left. exact L.
      * right. split; [reflexivity|]. exists ae, boss, p.
        repeat split; assumption.
    + apply Ref_eqb_neq in E. left.
      exact (applyDamage_never_primes st st' a d r now m fw dr er er' N E H Hr Hr' P).
Qed.

(* ------------------------------------------------------------------ *)
(** ** Score drop on a PvP elimination *)

(** The chunks of [spawnScoreOrbs] add up to the amount that was split:
    the last iteration ([i = chunks - 1]) takes what is left. *)
Lemma spawnScoreOrbs_loop_total (n : nat) :
  forall (i chunks remaining : Z) (x y now : Q) (u : nat -> Q * Q),
    (Z.of_nat (S n) + i = chunks)%Z ->
    orbTotal (spawnScoreOrbs_loop Math_cos Math_sin (S n) i chunks remaining x y now u)
    = remaining.
Proof.
  induction n as [|n IH]; intros i chunks remaining x y now u Hi.
  - cbn [spawnScoreOrbs_loop orbTotal fold_right partValue Part.value].
    replace (i =? chunks - 1)%Z with true by (symmetry; apply Z.eqb_eq; lia).
    lia.
  - change (orbTotal (spawnScoreOrbs_loop Math_cos Math_sin (S (S n)) i chunks
                        remaining x y now u))
      with (let val :=
              if (i =? chunks - 1)%Z then remaining
              else Math_floor (fdiv (inject_Z remaining) (inject_Z (chunks - i))) in
            (val + orbTotal (spawnScoreOrbs_loop Math_cos Math_sin (S n) (i + 1) chunks
                               (remaining - val) x y now u))%Z).
    cbv zeta. rewrite IH by lia. lia.
Qed.

Lemma spawnScoreOrbs_loop_kind (n : nat) :
  forall (i chunks remaining : Z) (x y now : Q) (u : nat -> Q * Q),
    Forall (fun p => Part.kind p = score)
           (spawnScoreOrbs_loop Math_cos Math_sin n i chunks remaining x y now u).
Proof.
  induction n as [|n IH]; intros; simpl; constructor; [reflexivity | apply IH].
Qed.

Lemma clampZ_range (v a b : Z) : (a <= b)%Z -> (a <= clampZ v a b <= b)%Z.
Proof. unfold clampZ. lia. Qed.

(** [spawnScoreOrbs] neither loses nor gains value. *)
Lemma spawnScoreOrbs_parts_total (x y amount now : Q) (u : nat -> Q * Q) :
  orbTotal (spawnScoreOrbs_parts Math_cos Math_sin x y amount now u)
  = Z.max 0 (Math_floor amount).
Proof.
  unfold spawnScoreOrbs_parts. cbv zeta.
  set (chunks := clampZ _ 2 7).
  assert (Hc : (2 <= chunks <= 7)%Z) by (apply clampZ_range; lia).
  destruct (Z.to_nat chunks) as [|n] eqn:E; [lia|].
  apply spawnScoreOrbs_loop_total. lia.
Qed.

Lemma Math_floor_inject_Z (z : Z) : Math_floor (inject_Z z) = z.
Proof. apply Qfloor_Z. Qed.

(** The dropped amount is between 0 and the score: the binary64 product
    [score * 0.35] never exceeds [score]. *)
Lemma droppedScore_bounds (s : Z) : (0 <= s)%Z -> (0 <= droppedScore s <= s)%Z.
Proof.
  intros Hs. unfold droppedScore, fmul.
  assert (Hc : SCORE_DROP_FRACTION_PVP = 3152519739159347 # 9007199254740992)
    by (vm_compute; reflexivity).
  rewrite Hc.
  assert (H0 : 0 <= inject_Z s)
    by (change (inject_Z 0 <= inject_Z s); rewrite <- Zle_Qle; exact Hs).
  set (q := inject_Z s * (3152519739159347 # 9007199254740992)).
  assert (Hq : 0 <= q) by (unfold q; lra).
  split.
  - change 0%Z with (Qfloor 0). apply Qfloor_resp_le. apply round64_nonneg. exact Hq.
  - apply Z.le_trans with (Qfloor (inject_Z s)); [|rewrite Qfloor_Z; lia].
    apply Qfloor_resp_le.
    destruct (Qlt_le_dec 0 q) as [Hpos|Hle].
    + destruct (round64_err q Hpos) as [_ U]. unfold eps64 in U. unfold q in *. lra.
    + assert (E : q == 0) by lra.
      unfold round64. destruct (Qcompare_spec q 0); lra.
Qed.

Lemma score_respawnFighter (boss : option Enemy.t) (now : Q) (p : Fighter.t) (ip : bool) :
  Fighter.score (respawnFighter boss now p ip) = Fighter.score p.
Proof.
  destruct (respawnFighter_shape Math_hypot boss now p ip) as (x' & y' & E).
  rewrite E. reflexivity.
Qed.

Lemma partsOnField_hitState st a d now m dr ae de :
  State.partsOnField (hitState st a d now m dr ae de) = State.partsOnField st.
Proof.
  unfold hitState, afterCooldown.
  destruct (Ref_eqb a RPlayer), (ent_plasmaPrimed ae);
    rewrite ?partsOnField_modify; reflexivity.
Qed.

(** C1.  On a PvP elimination (a fighter's hit, not on cooldown and not
    blocked by spawn protection, leaves the other fighter at zero
    health), for every non-negative score [s] of the loser: the dropped
    amount is [Math.floor(s * SCORE_DROP_FRACTION_PVP)] (the product is
    the binary64 product, as the program computes it); the loser's score
    becomes [s - dropped]; and the parts appended to the field are score
    orbs whose values add up to exactly [dropped]. *)
Theorem pvp_score_drop (st : State.t) (a d : Ref) (now m : Q) (fw : bool) (dr : Draws)
  (af df : Fighter.t) :
  getEnt st a = Some (EF af) -> getEnt st d = Some (EF df) -> a <> d ->
  onCooldown (Fighter.hitReadyAt af) now fw = false ->
  ent_invulnerable (EF df) now = false ->
  hitHp (EF af) (EF df) m dr <= 0 ->
  (0 <= Fighter.score df)%Z ->
  let dropped := Math_floor (fmul (inject_Z (Fighter.score df)) SCORE_DROP_FRACTION_PVP) in
  exists st' df' orbs,
    applyDamage st a d now m fw dr = Some st' /\
    getEnt st' d = Some (EF df') /\
    Fighter.score df' = (Fighter.score df - dropped)%Z /\
    State.partsOnField st' = State.partsOnField st ++ orbs /\
    Forall (fun p => Part.kind p = score) orbs /\
    orbTotal orbs = dropped.
Proof.
  intros Ha Hd N Hc Hi Hdead Hs dropped.
  pose proof (droppedScore_bounds _ Hs) as B. fold dropped in B. unfold droppedScore in B.
  rewrite (applyDamage_unfold st a d now m fw dr (EF af) (EF df) Ha Hd N).
  simpl ent_hitReadyAt. rewrite Hc, Hi.
  apply Qleb_le in Hdead. rewrite Hdead.
  set (hp' := hitHp (EF af) (EF df) m dr).
  set (st4 := hitState st a d now m dr (EF af) (EF df)).
  pose proof (hitState_defender st a d now m dr (EF af) (EF df) Hd N) as D4.
  fold st4 hp' in D4. simpl ent_set_hp in D4.
  pose proof (partsOnField_hitState st a d now m dr (EF af) (EF df)) as P4. fold st4 in P4.
  assert (Fa : Ref_eqb a RPlayer || Ref_eqb a RBot = true).
  { destruct a; simpl in Ha; try reflexivity.
    - destruct (State.boss st); discriminate.
    - destruct (nth_error _ _); discriminate. }
  assert (Fd : Ref_eqb d RPlayer || Ref_eqb d RBot = true).
  { destruct d; simpl in Hd; try reflexivity.
    - destruct (State.boss st); discriminate.
    - destruct (nth_error _ _); discriminate. }
  assert (Bd : Ref_eqb d RBoss = false) by (destruct d; try reflexivity; discriminate Fd).
  assert (Nad : Ref_eqb a d = false) by (apply Ref_eqb_neq; exact N).
  unfold applyDamage_death. rewrite Bd, Fa, Fd, Nad. simpl andb. cbv iota.
  rewrite D4. rsimpl. fold dropped.
  set (st5 := modify d _ st4).
  assert (D5 : getEnt st5 d
               = Some (EF (Fighter.set_score (Z.max 0 (Fighter.score df - dropped))
                                             (Fighter.set_hp hp' df)))).
  { unfold st5. rewrite (getEnt_modify_same _ d _ _ D4) by apply same_kind_ent_on.
    reflexivity. }
  assert (P5 : State.partsOnField st5 = State.partsOnField st).
  { unfold st5. rewrite partsOnField_modify. exact P4. }
  set (orbs := if (0 <? dropped)%Z
               then spawnScoreOrbs_parts Math_cos Math_sin (Fighter.x df) (Fighter.y df)
                      (inject_Z dropped) (t_orbs dr) (u_orb dr)
               else []).
  set (st6 := if (0 <? dropped)%Z then _ else st5).
  assert (D6 : getEnt st6 d = getEnt st5 d).
  { unfold st6. destruct (0 <? dropped)%Z; [apply getEnt_spawnScoreOrbs | reflexivity]. }
  assert (P6 : State.partsOnField st6 = State.partsOnField st ++ orbs).
  { unfold st6, orbs. destruct (0 <? dropped)%Z.
    - unfold spawnScoreOrbs. rsimpl. rewrite P5. reflexivity.
    - rewrite P5. symmetry. apply app_nil_r. }
  set (st7 := modify a (ent_add_score SCORE_PER_ENEMY_KO) st6).
  assert (D7 : getEnt st7 d = getEnt st5 d).
  { unfold st7. rewrite getEnt_modify_other by congruence. exact D6. }
  rewrite D5 in D7.
  eexists.
  exists (respawnFighter (State.boss st7) (t_respawn dr)
            (Fighter.set_score (Z.max 0 (Fighter.score df - dropped))
                               (Fighter.set_hp hp' df))
            (Ref_eqb d RPlayer)).
  exists orbs.
  split; [reflexivity|]. split; [|split; [|split; [|split]]].
  - rewrite (getEnt_modify_same _ d _ _ D7) by apply same_kind_ent_on. reflexivity.
  - rewrite score_respawnFighter. rsimpl. lia.
  - unfold st7. rewrite !partsOnField_modify. exact P6.
  - unfold orbs. destruct (0 <? dropped)%Z; [|constructor].
    apply spawnScoreOrbs_loop_kind.
  - unfold orbs. destruct (0 <? dropped)%Z eqn:E.
    + rewrite spawnScoreOrbs_parts_total, Math_floor_inject_Z. lia.
    + apply Z.ltb_ge in E. simpl. lia.
Qed.

End Combat.

(* ================================================================== *)
(** * The bounds of a fighter *)
(* ================================================================== *)

Lemma Qmax_spec (a b : Q) : a <= Qmax a b /\ b <= Qmax a b /\ (Qmax a b = a \/ Qmax a b = b).
Proof.
  unfold Qmax. destruct (Qle_bool a b) eqn:E.
  - apply Qle_bool_iff in E. repeat split; auto; lra.
  - assert (b < a).
    { apply Qnot_le_lt. intros H. apply Qle_bool_iff in H. congruence. }
    repeat split; auto; lra.
Qed.

Lemma Qmin_spec (a b : Q) : Qmin a b <= a /\ Qmin a b <= b /\ (Qmin a b = a \/ Qmin a b = b).
Proof.
  unfold Qmin. destruct (Qle_bool a b) eqn:E.
  - apply Qle_bool_iff in E. repeat split; auto; lra.
  - assert (b < a).
    { apply Qnot_le_lt. intros H. apply Qle_bool_iff in H. congruence. }
    repeat split; auto; lra.
Qed.

(** [clamp(v, a, b)] lies in [[a, b]] as soon as [a <= b]. *)
Lemma clamp_range (v a b : Q) : a <= b -> a <= clamp v a b /\ clamp v a b <= b.
Proof.
  intros Hab. unfold clamp.
  destruct (Qmax_spec a (Qmin b v)) as (M1 & M2 & [M|M]);
    destruct (Qmin_spec b v) as (N1 & N2 & _); rewrite M in M1, M2 |- *; split; lra.
Qed.

Lemma round64_nonpos (q : Q) : q <= 0 -> round64 q <= 0.
Proof.
  intros Hq. unfold round64. destruct (Qcompare_spec q 0) as [E|E|E]; try lra.
  rewrite Qred_correct.
  assert (Hp : 0 < - q) by lra.
  destruct (round64_err (- q) Hp) as [L _].
  unfold round64 in L. destruct (Qcompare_spec (- q) 0) as [E'|E'|E']; try lra.
  rewrite Qred_correct in L. unfold eps64 in L.
  assert (0 <= - q * (1 - (1 # 9007199254740992))) by (apply Qmult_le_0_compat; lra).
  lra.
Qed.

Lemma Math_round_nonneg (x : Q) : 0 <= x -> (0 <= Math_round x)%Z.
Proof.
  intros Hx. unfold Math_round. change 0%Z with (Qfloor 0).
  apply Qfloor_resp_le. lra.
Qed.

Lemma inject_Z_nonneg (z : Z) : (0 <= z)%Z -> 0 <= inject_Z z.
Proof. intros H. change (inject_Z 0 <= inject_Z z). rewrite <- Zle_Qle. exact H. Qed.

(** The recomputed max health is never negative. *)
Lemma computeStats_maxHp_nonneg (edges : Z) : (0 <= Stats.maxHp (computeStats edges))%Z.
Proof.
  unfold computeStats. cbv zeta. rsimpl.
  apply Math_round_nonneg. unfold fadd. apply round64_nonneg.
  assert (0 <= fmul (inject_Z (Z.max 0 (edges - 4))) MAXHP_PER_EDGE).
  { unfold fmul. apply round64_nonneg. apply Qmult_le_0_compat.
    - apply inject_Z_nonneg. lia.
    - vm_compute. discriminate. }
  lra.
Qed.

Lemma bounds_recompute (f : Fighter.t) :
  (0 <= Fighter.edges f <= PLAYER_EDGE_CAP)%Z ->
  (0 <= Fighter.plasma f <= PLASMA_MAX)%Z ->
  (0 <= Fighter.wave f <= WAVE_MAX)%Z ->
  fighterBounds (recomputeFighterStats f).
Proof.
  intros He Hp Hw. unfold fighterBounds, recomputeFighterStats. cbv zeta. rsimpl.
  split; [|auto].
  apply clamp_range. apply inject_Z_nonneg. apply computeStats_maxHp_nonneg.
Qed.

(** Writing a clamped health keeps the bounds. *)
Lemma bounds_set_hp_clamp (f : Fighter.t) (v : Q) :
  fighterBounds f -> fighterBounds (Fighter.set_hp (clamp v 0 (inject_Z (Fighter.maxHp f))) f).
Proof.
  intros ((H0 & H1) & R). unfold fighterBounds. rsimpl. split; [|exact R].
  apply clamp_range. lra.
Qed.

Lemma bounds_addPlasma (f : Fighter.t) (amount : Z) :
  fighterBounds f -> fighterBounds (addPlasma f amount).
Proof.
  intros B. pose proof B as (Hh & He & Hp & Hw). unfold addPlasma. cbv zeta.
  pose proof (clampZ_range (Fighter.plasma f + amount) 0 PLASMA_MAX) as C.
  destruct (negb _).
  - apply bounds_set_hp_clamp. apply bounds_recompute; rsimpl; auto.
    apply C. unfold PLASMA_MAX. lia.
  - unfold fighterBounds. rsimpl. repeat split; try tauto; apply C; unfold PLASMA_MAX; lia.
Qed.

Lemma bounds_addWave (f : Fighter.t) (amount : Z) :
  fighterBounds f -> fighterBounds (addWave f amount).
Proof.
  intros (Hh & He & Hp & Hw). unfold addWave, fighterBounds. rsimpl.
  repeat split; try tauto; apply clampZ_range; unfold WAVE_MAX; lia.
Qed.

Lemma bounds_regenTick (f : Fighter.t) (dt : Q) :
  fighterBounds f -> fighterBounds (regenTick f dt).
Proof. intros B. unfold regenTick. cbv zeta. apply bounds_set_hp_clamp. exact B. Qed.

Lemma bounds_score (f : Fighter.t) (v : Z) :
  fighterBounds f -> fighterBounds (Fighter.set_score v f).
Proof. intros B. exact B. Qed.

Lemma bounds_pickupPart (f : Fighter.t) (part : Part.t) :
  fighterBounds f -> fighterBounds (pickupPart f part).
Proof.
  intros B. pose proof B as (Hh & He & Hp & Hw).
  assert (C : (0 <= clampZ (Fighter.edges f + 1) 3 PLAYER_EDGE_CAP <= PLAYER_EDGE_CAP)%Z).
  { pose proof (clampZ_range (Fighter.edges f + 1) 3 PLAYER_EDGE_CAP).
    unfold PLAYER_EDGE_CAP in *. lia. }
  unfold pickupPart. destruct (Part.kind part); cbv zeta.
  - destruct (_ <? _)%Z.
    + destruct (_ =? 0)%Z; [|exact B]. destruct (negb _).
      * apply bounds_set_hp_clamp. apply bounds_recompute; rsimpl; auto.
      * unfold fighterBounds. rsimpl. repeat split; tauto.
    + destruct (_ =? 0)%Z; [|exact B]. apply bounds_addPlasma. exact B.
  - exact B.
  - destruct (_ =? 0)%Z; [|exact B]. apply bounds_addWave. exact B.
  - exact B.
Qed.

Section Bounds.

Variables Math_cos Math_sin : Q -> Q.
Variable Math_hypot : Q -> Q -> Q.

Local Abbreviation respawnFighter := (respawnFighter Math_hypot).
Local Abbreviation mutate := (mutate Math_hypot).
Local Abbreviation applyDamage := (applyDamage Math_cos Math_sin Math_hypot).
Local Abbreviation applyDamage_death := (applyDamage_death Math_cos Math_sin Math_hypot).
Local Abbreviation spawnScoreOrbs := (spawnScoreOrbs Math_cos Math_sin).

Lemma bounds_respawnFighter (boss : option Enemy.t) (now : Q) (f : Fighter.t) (ip : bool) :
  fighterBounds f -> fighterBounds (respawnFighter boss now f ip).
Proof.
  intros (Hh & He & Hp & Hw).
  assert (M := computeStats_maxHp_nonneg (Fighter.edges f)).
  apply inject_Z_nonneg in M.
  destruct (respawnFighter_shape Math_hypot boss now f ip) as (x' & y' & E).
  rewrite E. unfold fighterBounds, respawnCore, recomputeFighterStats. cbv zeta. rsimpl.
  split; [split; [exact M | apply Qle_refl] | auto].
Qed.

Lemma bounds_mutate (mu : Mutation) (f : Fighter.t) :
  fighterBounds f -> fighterBounds (mutate mu f).
Proof.
  intros B. destruct mu; simpl.
  - apply bounds_pickupPart, B.
  - apply bounds_regenTick, B.
  - apply bounds_addPlasma, B.
  - apply bounds_addWave, B.
  - destruct B as (_ & He & Hp & Hw). apply bounds_recompute; assumption.
  - apply bounds_respawnFighter, B.
Qed.


(** A state whose fighters are all fighters of a bounded state is
    bounded. *)
Lemma stateBounds_sub (st st' : State.t) :
  (forall r f, getEnt st' r = Some (EF f) -> getEnt st r = Some (EF f)) ->
  stateBounds st -> stateBounds st'.
Proof. intros S B r f H. apply (B r). apply S. exact H. Qed.

(** A write through a reference keeps the state bounded when it keeps
    the fighter it is applied to bounded. *)
Lemma stateBounds_modify (st : State.t) (r : Ref) gF gE :
  (forall f, getEnt st r = Some (EF f) -> fighterBounds f -> fighterBounds (gF f)) ->
  stateBounds st -> stateBounds (modify r (ent_on gF gE) st).
Proof.
  intros G B r0 f0 H.
  destruct (Ref_eqb r0 r) eqn:E.
  - apply Ref_eqb_eq in E. subst r0.
    destruct (getEnt st r) as [e|] eqn:Hr.
    + rewrite (getEnt_modify_same _ r _ e Hr) in H by apply same_kind_ent_on.
      destruct e as [f|b]; simpl in H; inversion H; subst f0.
      apply G; [reflexivity | apply (B r); exact Hr].
    + unfold modify in H. rewrite Hr in H. congruence.
  - apply Ref_eqb_neq in E. rewrite getEnt_modify_other in H by congruence.
    apply (B r0). exact H.
Qed.

(** The health left by a hit is between 0 and the max health. *)
Lemma hitHp_range (ae : Ent) (f : Fighter.t) (m : Q) (dr : Draws) :
  fighterBounds f -> inject_Z (Fighter.maxHp f) <= MAX_SAFE ->
  0 <= hitHp ae (EF f) m dr /\ hitHp ae (EF f) m dr <= inject_Z (Fighter.maxHp f).
Proof.
  intros ((H0 & H1) & _) Hsafe. unfold hitHp, MAX_SAFE in *.
  set (dmg := damageAmount _ _ _ _).
  assert (Hd : 2 <= inject_Z dmg).
  { change 2 with (inject_Z 2). rewrite <- Zle_Qle. unfold dmg, damageAmount. lia. }
  simpl ent_hp.
  generalize dependent (inject_Z dmg). intros D HD.
  generalize dependent (inject_Z (Fighter.maxHp f)). intros M H1 Hsafe.
  destruct (Qmax_spec 0 (fsub (Fighter.hp f) D)) as (M1 & M2 & [E|E]);
    rewrite E in M1, M2 |- *; split; try lra.
  unfold fsub in *.
  destruct (Qlt_le_dec 0 (Fighter.hp f - D)) as [P|P].
  - destruct (round64_err _ P) as [_ U]. unfold eps64 in U. lra.
  - pose proof (round64_nonpos _ P). lra.
Qed.

Lemma stateBounds_hitState st a d now m dr ae de :
  getEnt st d = Some de -> a <> d -> stateSafe st ->
  stateBounds st -> stateBounds (hitState st a d now m dr ae de).
Proof.
  intros Hd N S B. unfold hitState, afterCooldown.
  set (st1 := modify a _ st).
  assert (B1 : stateBounds st1).
  { apply stateBounds_modify; [|exact B]. intros f _ Bf. exact Bf. }
  set (st2 := if ent_plasmaPrimed ae then _ else st1).
  assert (B2 : stateBounds st2).
  { unfold st2. destruct (ent_plasmaPrimed ae); [|exact B1].
    apply stateBounds_modify; [|exact B1]. intros f _ Bf. exact Bf. }
  assert (Hd2 : getEnt st2 d = Some de).
  { unfold st2, st1. destruct (ent_plasmaPrimed ae);
      rewrite ?getEnt_modify_other by exact N; exact Hd. }
  set (st3 := modify d _ st2).
  assert (B3 : stateBounds st3).
  { apply stateBounds_modify; [|exact B2]. intros f Hf Bf.
    rewrite Hd2 in Hf. inversion Hf; subst de.
    destruct (hitHp_range ae f m dr Bf (S d f Hd)) as [R0 R1].
    destruct Bf as (_ & R). split; [|exact R]. rsimpl. split; assumption. }
  destruct (Ref_eqb a RPlayer); [|exact B3].
  apply stateBounds_modify; [|exact B3]. intros f _ Bf. exact Bf.
Qed.

Lemma stateBounds_death (st st' : State.t) (a d : Ref) (now : Q) (dr : Draws) :
  applyDamage_death st a d now dr = Some st' -> stateBounds st -> stateBounds st'.
Proof.
  intros H B. unfold applyDamage_death in H.
  assert (Sc : forall v s, stateBounds s -> stateBounds (modify a (ent_add_score v) s)).
  { intros v s Bs. apply stateBounds_modify; [|exact Bs]. intros f _ Bf. exact Bf. }
  assert (Rs : forall s bs t ip,
             stateBounds s ->
             stateBounds (modify d (ent_onFighter (fun p => respawnFighter bs t p ip)) s)).
  { intros s bs t ip Bs. apply stateBounds_modify; [|exact Bs].
    intros f _ Bf. apply bounds_respawnFighter. exact Bf. }
  destruct (Ref_eqb d RBoss).
  { inversion H; subst st'. eapply stateBounds_sub; [|apply (Sc SCORE_PER_BOSS_KO st B)].
    intros r f Hr. rewrite getEnt_scheduleNextBoss in Hr.
    destruct r; try exact Hr. simpl in Hr. discriminate Hr. }
  destruct ((Ref_eqb d RPlayer || Ref_eqb d RBot)
            && (Ref_eqb a RPlayer || Ref_eqb a RBot) && negb (Ref_eqb a d)).
  { destruct (getEnt st d) as [[df|]|]; try discriminate.
    inversion H; subst st'. apply Rs. apply Sc.
    assert (B1 : stateBounds
                   (modify d (ent_onFighter
                                (Fighter.set_score
                                   (Z.max 0 (Fighter.score df
                                             - Math_floor (fmul (inject_Z (Fighter.score df))
                                                                SCORE_DROP_FRACTION_PVP)))))
                           st)).
    { apply stateBounds_modify; [|exact B]. intros f _ Bf. exact Bf. }
    destruct (0 <? _)%Z; [|exact B1].
    eapply stateBounds_sub; [|exact B1].
    intros r f Hr. rewrite getEnt_spawnScoreOrbs in Hr. exact Hr. }
  destruct (negb (Ref_eqb d RPlayer) && negb (Ref_eqb d RBot)).
  { inversion H; subst st'.
    apply stateBounds_modify; [intros f _ Bf; exact Bf|]. apply Sc.
    eapply stateBounds_sub; [|exact B]. intros r f Hr.
    rewrite getEnt_set_kos in Hr. exact Hr. }
  inversion H; subst st'. apply Rs. exact B.
Qed.

(** C4.  Each operation on a fighter (part pickup with its heals,
    regeneration tick, plasma or wave level addition, stat recomputation,
    respawn) keeps [0 <= hp <= maxHp], [0 <= edges <= 26],
    [0 <= plasma <= 10] and [0 <= wave <= 8]; and a damage application
    between two different objects of the state returns a state in which
    every fighter is still within the four bounds (max health being an
    integer below 2^53, as every value of [computeStats] is). *)
Theorem fighter_bounds_preserved :
  (forall (mu : Mutation) (f : Fighter.t),
      fighterBounds f -> fighterBounds (mutate mu f)) /\
  (forall (st : State.t) (a d : Ref) (now m : Q) (fw : bool) (dr : Draws)
          (ae de : Ent),
      getEnt st a = Some ae -> getEnt st d = Some de -> a <> d ->
      stateSafe st -> stateBounds st ->
      exists st', applyDamage st a d now m fw dr = Some st' /\ stateBounds st').
Proof.
  split; [exact bounds_mutate|].
  intros st a d now m fw dr ae de Ha Hd N S B.
  rewrite (applyDamage_unfold Math_cos Math_sin Math_hypot st a d now m fw dr ae de Ha Hd N).
  destruct (onCooldown _ now fw); [exists st; split; [reflexivity | exact B]|].
  destruct (ent_invulnerable de now).
  { eexists. split; [reflexivity|]. unfold afterCooldown.
    apply stateBounds_modify; [|exact B]. intros f _ Bf. exact Bf. }
  pose proof (stateBounds_hitState st a d now m dr ae de Hd N S B) as B4.
  destruct (Qleb _ 0).
  - destruct (hitState_attacker st a d now m dr ae de Ha N) as (ae4 & G4 & _).
    destruct (applyDamage_death_attacker Math_cos Math_sin Math_hypot _ a d now dr ae4 _ N G4
                (hitState_defender st a d now m dr ae de Hd N))
      as (st' & ae' & D & _).
    exists st'. split; [exact D|]. exact (stateBounds_death _ _ a d now dr D B4).
  - eexists. split; [reflexivity | exact B4].
Qed.

End Bounds.

(* ================================================================== *)
(** * Collision against an obstacle *)
(* ================================================================== *)

Lemma Qplus_0_r_eq (q : Q) : q + 0 = q.
Proof.
  destruct q as [n d]. unfold Qplus. simpl.
  rewrite Pos.mul_1_r. f_equal. lia.
Qed.

(** Clamping a value that is already in range returns that value. *)
Lemma clamp_inside (v a b : Q) : a <= v -> v <= b -> clamp v a b == v.
Proof.
  intros Ha Hb. unfold clamp.
  destruct (Qmax_spec a (Qmin b v)) as (M1 & M2 & M).
  destruct (Qmin_spec b v) as (N1 & N2 & N).
  generalize dependent (Qmin b v). intros mn M1 M2 M N1 N2 N.
  generalize dependent (Qmax a mn). intros mx M1 M2 M.
  assert (M' : mx == a \/ mx == mn) by (destruct M as [->| ->]; [left|right]; reflexivity).
  assert (N' : mn == b \/ mn == v) by (destruct N as [->| ->]; [left|right]; reflexivity).
  destruct M', N'; lra.
Qed.

(** A centre inside the rectangle is its own closest point: the offset
    [(dx, dy)] is zero, and so is the displacement, whatever [push] is. *)
Lemma resolveCircleRect_inside (ent : Circle.t) (rect : Rect.t) :
  centreInside ent rect ->
  is_binary64 (Circle.x ent) -> is_binary64 (Circle.y ent) ->
  resolveCircleRect ent rect = ent.
Proof.
  intros ((X1 & X2) & (Y1 & Y2)) Bx By. unfold resolveCircleRect. cbv zeta.
  assert (Dx : fsub (Circle.x ent)
                    (clamp (Circle.x ent) (Rect.x rect) (fadd (Rect.x rect) (Rect.w rect)))
               = 0).
  { apply round64_eq0. rewrite (clamp_inside _ _ _ X1 X2). ring. }
  assert (Dy : fsub (Circle.y ent)
                    (clamp (Circle.y ent) (Rect.y rect) (fadd (Rect.y rect) (Rect.h rect)))
               = 0).
  { apply round64_eq0. rewrite (clamp_inside _ _ _ Y1 Y2). ring. }
  rewrite Dx, Dy.
  destruct (Qleb _ _); [reflexivity|].
  assert (Z : forall d p, fmul (fdiv 0 d) p = 0).
  { intros d p. unfold fmul, fdiv.
    rewrite (round64_eq0 (0 / d)) by (unfold Qdiv; ring).
    apply round64_eq0. ring. }
  rewrite !Z. unfold fadd. rewrite !Qplus_0_r_eq.
  unfold is_binary64 in Bx, By. rewrite Bx, By. destruct ent; reflexivity.
Qed.

(** C3 (fails on the code).  An entity of radius 18 whose centre is
    inside the obstacle, 5 units from its nearest side, overlaps it; one
    call of [resolveCircleRect] leaves it exactly where it was, closer to
    the side than its radius (and at distance 0 from the closest point of
    the rectangle, which is the centre itself). *)
Theorem resolveCircleRect_inside_stays :
  centreInside sampleCircleInside sampleRect /\
  resolveCircleRect sampleCircleInside sampleRect = sampleCircleInside /\
  distanceToSides (resolveCircleRect sampleCircleInside sampleRect) sampleRect == 5 /\
  closestPointDist2 (resolveCircleRect sampleCircleInside sampleRect) sampleRect == 0 /\
  5 < Circle.r sampleCircleInside.
Proof.
  split; [|split; [|split; [|split]]].
  - unfold centreInside. repeat split; vm_compute; discriminate.
  - vm_compute. reflexivity.
  - vm_compute. reflexivity.
  - vm_compute. reflexivity.
  - vm_compute. reflexivity.
Qed.

(* ================================================================== *)
(** * The companion bot: stuck detection *)
(* ================================================================== *)

(** The escape deadline lies strictly after the clock reading. *)
Lemma escape_deadline_future (now uj : Q) :
  0 <= now -> now <= MAX_SAFE -> 0 <= uj ->
  now < fadd (fadd now BOT_ESCAPE_MS) (rand 120 280 uj).
Proof.
  unfold MAX_SAFE, BOT_ESCAPE_MS, rand. intros H0 Hmax Hu.
  replace (fsub 280 120) with 160 by (vm_compute; reflexivity).
  assert (Ht : 0 <= fmul uj 160).
  { unfold fmul. apply round64_nonneg. lra. }
  set (t := fmul uj 160) in *.
  assert (Hj : 120 * (1 - eps64) <= fadd 120 t).
  { unfold fadd. assert (P : 0 < 120 + t) by lra.
    destruct (round64_err _ P) as [L _]. unfold eps64 in *. lra. }
  set (j := fadd 120 t) in *.
  assert (Ha : (now + 550) * (1 - eps64) <= fadd now 550).
  { unfold fadd. assert (P : 0 < now + 550) by lra.
    destruct (round64_err _ P) as [L _]. exact L. }
  set (a := fadd now 550) in *.
  unfold eps64 in *.
  unfold fadd. assert (P : 0 < a + j) by lra.
  destruct (round64_err _ P) as [L _]. unfold eps64 in L. lra.
Qed.

Section Bot.

Variables Math_cos Math_sin : Q -> Q.
Variable Math_hypot : Q -> Q -> Q.

Local Abbreviation updateBotPlayer_stuck :=
  (updateBotPlayer_stuck Math_cos Math_sin Math_hypot).
Local Abbreviation stuckCount := (stuckCount Math_hypot).
Local Abbreviation botDisplacement := (botDisplacement Math_hypot).
Local Abbreviation botTrying := (botTrying Math_hypot).

(** The stuck block, in terms of [moved] and [trying]. *)
Lemma updateBotPlayer_stuck_unfold (obstacles : list Rect.t) (b : Fighter.t)
  (dt now ua uj : Q) :
  updateBotPlayer_stuck obstacles b dt now ua uj
  = stuckEscape Math_cos Math_sin
      (Fighter.set_stuckFrames
         (if botTrying b && Qltb (botDisplacement obstacles b dt) BOT_STUCK_DIST_EPS
          then (Fighter.stuckFrames b + 1)%Z
          else Z.max 0 (Fighter.stuckFrames b - 1))
         (botMoved obstacles b dt))
      now ua uj.
Proof.
  unfold updateBotPlayer_stuck, stuckCount, botDisplacement, botTrying, botMoved,
    moveFighter.
  cbv zeta. rsimpl. reflexivity.
Qed.

(** The escape angle [rand(0, Math.PI * 2)] lies between 0 and the
    binary64 value of [2 * Math.PI]. *)
Lemma escape_angle_range (ua : Q) :
  0 <= ua <= 1 ->
  0 <= rand 0 (fmul Math_PI 2) ua /\ rand 0 (fmul Math_PI 2) ua <= fmul Math_PI 2.
Proof.
  intros Hu.
  assert (H2pi : 0 <= fmul Math_PI 2) by (vm_compute; discriminate).
  destruct (rand_bounds 0 (fmul Math_PI 2) ua exact64_0 H2pi Hu) as [L U].
  split; [exact L|].
  apply Qle_trans with (1 := U).
  assert (E : fadd 0 (fsub (fmul Math_PI 2) 0) = fmul Math_PI 2) by (vm_compute; reflexivity).
  rewrite E. apply Qle_refl.
Qed.


End Bot.

(* ================================================================== *)
(** * Wave projectiles *)
(* ================================================================== *)

Section Projectiles.

Variables Math_cos Math_sin : Q -> Q.
Variable Math_hypot : Q -> Q -> Q.

Local Abbreviation respawnFighter := (respawnFighter Math_hypot).
Local Abbreviation tryWave := (tryWave Math_hypot).
Local Abbreviation applyDamage := (applyDamage Math_cos Math_sin Math_hypot).
Local Abbreviation applyDamage_death := (applyDamage_death Math_cos Math_sin Math_hypot).
Local Abbreviation waveHit := (waveHit Math_cos Math_sin Math_hypot).
Local Abbreviation hitLoop := (hitLoop Math_cos Math_sin Math_hypot).
Local Abbreviation stepProjectile := (stepProjectile Math_cos Math_sin Math_hypot).
Local Abbreviation updateProjectiles := (updateProjectiles Math_cos Math_sin Math_hypot).

(** [applyDamage] between two different objects of the state returns. *)
Lemma applyDamage_total (st : State.t) (a d : Ref) (now m : Q) (fw : bool) (dr : Draws)
  (ae de : Ent) :
  getEnt st a = Some ae -> getEnt st d = Some de -> a <> d ->
  exists st', applyDamage st a d now m fw dr = Some st'.
Proof.
  intros Ha Hd N.
  rewrite (applyDamage_unfold Math_cos Math_sin Math_hypot st a d now m fw dr ae de Ha Hd N).
  destruct (onCooldown _ now fw); [eauto|].
  destruct (ent_invulnerable de now); [eauto|].
  destruct (Qleb _ 0); [|eauto].
  destruct (hitState_attacker st a d now m dr ae de Ha N) as (ae4 & G4 & _).
  destruct (applyDamage_death_attacker Math_cos Math_sin Math_hypot _ a d now dr ae4 _ N G4
              (hitState_defender st a d now m dr ae de Hd N))
    as (st' & _ & D & _).
  eauto.
Qed.

(** It writes through the attacker's and the defender's references
    only. *)
Lemma applyDamage_other (st st' : State.t) (a d r : Ref) (now m : Q) (fw : bool)
  (dr : Draws) :
  a <> d -> r <> a -> r <> d ->
  applyDamage st a d now m fw dr = Some st' -> getEnt st' r = getEnt st r.
Proof.
  intros N Na Nd H.
  destruct (getEnt st a) as [ae|] eqn:Ha;
    [|unfold applyDamage in H; rewrite Ha in H; discriminate].
  destruct (getEnt st d) as [de|] eqn:Hd;
    [|unfold applyDamage in H; rewrite Ha, Hd in H; discriminate].
  rewrite (applyDamage_unfold Math_cos Math_sin Math_hypot st a d now m fw dr ae de Ha Hd N) in H.
  destruct (onCooldown _ now fw); [inversion H; reflexivity|].
  destruct (ent_invulnerable de now).
  { inversion H; subst st'. unfold afterCooldown.
    apply getEnt_modify_other. congruence. }
  destruct (Qleb _ 0).
  - rewrite (applyDamage_death_other Math_cos Math_sin Math_hypot _ _ a d r now dr Na Nd H).
    apply hitState_other; assumption.
  - inversion H; subst st'. apply hitState_other; assumption.
Qed.

(** The attacker's own health is not touched. *)
Lemma applyDamage_attacker_hp (st st' : State.t) (a d : Ref) (now m : Q) (fw : bool)
  (dr : Draws) (ae : Ent) :
  a <> d -> getEnt st a = Some ae ->
  applyDamage st a d now m fw dr = Some st' ->
  exists ae', getEnt st' a = Some ae' /\ ent_hp ae' = ent_hp ae.
Proof.
  intros N Ha H.
  destruct (getEnt st d) as [de|] eqn:Hd;
    [|unfold applyDamage in H; rewrite Ha, Hd in H; discriminate].
  rewrite (applyDamage_unfold Math_cos Math_sin Math_hypot st a d now m fw dr ae de Ha Hd N) in H.
  assert (W : forall s e g, getEnt s a = Some e ->
                (forall x, ent_hp (g x) = ent_hp x) -> (forall x, same_kind x (g x)) ->
                exists e', getEnt (modify a g s) a = Some e' /\ ent_hp e' = ent_hp e).
  { intros s e g Hs Hg Kg. exists (g e). split; [|apply Hg].
    apply getEnt_modify_same; [exact Hs | apply Kg]. }
  destruct (onCooldown _ now fw); [inversion H; subst st'; eauto|].
  destruct (W st ae (ent_set_hitReadyAt (fadd now HIT_COOLDOWN_MS)) Ha)
    as (ae1 & G1 & E1); [intros []; reflexivity | intros []; exact I |].
  destruct (ent_invulnerable de now); [inversion H; subst st'; eauto|].
  assert (G4 : exists ae4, getEnt (hitState st a d now m dr ae de) a = Some ae4 /\
                           ent_hp ae4 = ent_hp ae).
  { unfold hitState, afterCooldown.
    set (st1 := modify a _ st) in *.
    set (st2 := if ent_plasmaPrimed ae then _ else st1).
    assert (G2 : exists ae2, getEnt st2 a = Some ae2 /\ ent_hp ae2 = ent_hp ae).
    { unfold st2. destruct (ent_plasmaPrimed ae); [|eauto].
      destruct (W st1 ae1 (ent_onFighter
                             (fun f => Fighter.set_plasmaFlashUntil (fadd now 160)
                                         (Fighter.set_plasmaPrimed false f))) G1)
        as (e & G & E); [intros []; reflexivity | intros []; exact I |].
      exists e. split; [exact G | congruence]. }
    destruct G2 as (ae2 & G2 & E2).
    set (st3 := modify d _ st2).
    assert (G3 : getEnt st3 a = Some ae2).
    { unfold st3. rewrite getEnt_modify_other by congruence. exact G2. }
    destruct (Ref_eqb a RPlayer); [|eauto].
    destruct (W st3 ae2 (ent_onFighter (Fighter.set_lastLandedHitAt now)) G3)
      as (e & G & E); [intros []; reflexivity | intros []; exact I |].
    exists e. split; [exact G | congruence]. }
  destruct G4 as (ae4 & G4 & E4).
  destruct (Qleb _ 0); [|inversion H; subst st'; eauto].
  clear W. revert H. unfold applyDamage_death.
  set (st4 := hitState st a d now m dr ae de) in *.
  assert (W : forall s v, getEnt s a = Some ae4 ->
                exists e', getEnt (modify a (ent_add_score v) s) a = Some e' /\
                           ent_hp e' = ent_hp ae).
  { intros s v Hs. exists (ent_add_score v ae4). split.
    - apply getEnt_modify_same; [exact Hs | apply same_kind_ent_on].
    - rewrite <- E4. destruct ae4; reflexivity. }
  destruct (Ref_eqb d RBoss) eqn:EB.
  { apply Ref_eqb_eq in EB. subst d. intros H. inversion H; subst st'.
    rewrite getEnt_scheduleNextBoss, getEnt_set_boss_other by exact N.
    autorewrite with getent. apply W. exact G4. }
  destruct ((Ref_eqb d RPlayer || Ref_eqb d RBot)
            && (Ref_eqb a RPlayer || Ref_eqb a RBot) && negb (Ref_eqb a d)).
  { destruct (getEnt st4 d) as [[df|]|]; try discriminate.
    intros H. inversion H; subst st'.
    rewrite getEnt_modify_other by congruence. apply W.
    destruct (0 <? _)%Z; rewrite ?getEnt_spawnScoreOrbs;
      rewrite getEnt_modify_other by congruence; exact G4. }
  destruct (negb (Ref_eqb d RPlayer) && negb (Ref_eqb d RBot)).
  { intros H. inversion H; subst st'.
    rewrite getEnt_modify_other by congruence. apply W.
    rewrite getEnt_set_kos. exact G4. }
  intros H. inversion H; subst st'.
  rewrite getEnt_modify_other by congruence. eauto.
Qed.

(** Every element of [targets] points to an object of the state. *)
Lemma targets_valid (st : State.t) (t : Ref) :
  In t (targets st) -> exists te, getEnt st t = Some te.
Proof.
  unfold targets. rewrite !in_app_iff. intros [H|[H|[H|H]]].
  - apply in_map_iff in H as (i & <- & Hi). apply in_seq in Hi.
    simpl. destruct (nth_error (State.enemies st) i) eqn:E; [eexists; reflexivity|].
    apply nth_error_None in E. lia.
  - destruct (State.boss st) eqn:E; [|contradiction].
    destruct H as [<-|[]]. simpl. rewrite E. eexists. reflexivity.
  - destruct (State.botPlayer st) eqn:E; [|contradiction].
    destruct H as [<-|[]]. simpl. rewrite E. eexists. reflexivity.
  - destruct H as [<-|[]]. eexists. reflexivity.
Qed.

Lemma hitLoop_cons (st : State.t) (pr : Projectile.t) (now : Q) (dr : Draws)
  (t : Ref) (ts : list Ref) :
  hitLoop st pr now dr (t :: ts) =
  match getEnt st t with
  | Some te =>
      if Qleb (ent_hp te) 0 then hitLoop st pr now dr ts
      else if Ref_eqb t (Projectile.owner pr) then hitLoop st pr now dr ts
      else if rectHitProjectile pr te then
        match waveHit st pr t now dr with
        | Some st' => Some (st', true)
        | None => None
        end
      else hitLoop st pr now dr ts
  | None => None
  end.
Proof. reflexivity. Qed.

(** A hit on a target other than the owner returns. *)
Lemma waveHit_total (st : State.t) (pr : Projectile.t) (t : Ref) (now : Q) (dr : Draws)
  (oe te : Ent) :
  getEnt st (Projectile.owner pr) = Some oe -> getEnt st t = Some te ->
  t <> Projectile.owner pr ->
  exists st', waveHit st pr t now dr = Some st'.
Proof.
  intros Ho Ht N. unfold waveHit. cbv zeta.
  eapply applyDamage_total.
  - apply getEnt_modify_same; [exact Ho | apply same_kind_ent_on].
  - rewrite getEnt_modify_other by congruence. exact Ht.
  - congruence.
Qed.

(** The inner loop stops at the first target that passes the test and
    hits it, once; without such a target it returns the state it was
    given. *)
Lemma hitLoop_first (st : State.t) (pr : Projectile.t) (now : Q) (dr : Draws)
  (oe : Ent) (ts : list Ref) :
  getEnt st (Projectile.owner pr) = Some oe ->
  (forall t, In t ts -> exists te, getEnt st t = Some te) ->
  match find (waveCandidate st pr) ts with
  | None => hitLoop st pr now dr ts = Some (st, false)
  | Some t =>
      exists st', waveHit st pr t now dr = Some st' /\
                  hitLoop st pr now dr ts = Some (st', true)
  end.
Proof.
  intros Ho. induction ts as [|t ts IH]; intros V; [reflexivity|].
  destruct (V t (or_introl eq_refl)) as (te & Ht).
  assert (V' : forall t', In t' ts -> exists te', getEnt st t' = Some te')
    by (intros t' H'; apply V; right; exact H').
  specialize (IH V').
  rewrite hitLoop_cons, Ht. simpl find. unfold waveCandidate at 1. rewrite Ht.
  destruct (Qleb (ent_hp te) 0); [exact IH|].
  destruct (Ref_eqb t (Projectile.owner pr)) eqn:E; [exact IH|].
  destruct (rectHitProjectile pr te); [|exact IH].
  simpl. apply Ref_eqb_neq in E.
  destruct (waveHit_total st pr t now dr oe te Ho Ht E) as (st' & W).
  exists st'. rewrite W. split; reflexivity.
Qed.

(** Writes keep every reference valid. *)
Lemma valid_modify (st : State.t) (r r' : Ref) gF gE :
  valid st r -> valid (modify r' (ent_on gF gE) st) r.
Proof.
  intros (e & He). destruct (Ref_eqb r r') eqn:E.
  - apply Ref_eqb_eq in E. subst r'. eexists.
    apply getEnt_modify_same; [exact He | apply same_kind_ent_on].
  - apply Ref_eqb_neq in E. exists e.
    rewrite getEnt_modify_other by congruence. exact He.
Qed.

Lemma valid_hitState st a d now m dr ae de r :
  valid st r -> valid (hitState st a d now m dr ae de) r.
Proof.
  intros V. unfold hitState, afterCooldown.
  destruct (Ref_eqb a RPlayer), (ent_plasmaPrimed ae);
    repeat apply valid_modify; exact V.
Qed.

(** Only the boss is ever removed from the state. *)
Lemma valid_applyDamage_death (st st' : State.t) (a d r : Ref) (now : Q) (dr : Draws) :
  r <> RBoss -> valid st r -> applyDamage_death st a d now dr = Some st' -> valid st' r.
Proof.
  intros Nb V. unfold applyDamage_death.
  destruct (Ref_eqb d RBoss).
  { intros H. inversion H; subst st'.
    destruct (valid_modify st r a (fun f => Fighter.set_score (Fighter.score f + SCORE_PER_BOSS_KO) f)
                (fun e => e) V) as (e & He).
    exists e. rewrite getEnt_scheduleNextBoss, getEnt_set_boss_other by exact Nb.
    autorewrite with getent. exact He. }
  destruct ((Ref_eqb d RPlayer || Ref_eqb d RBot)
            && (Ref_eqb a RPlayer || Ref_eqb a RBot) && negb (Ref_eqb a d)).
  { destruct (getEnt st d) as [[df|]|]; try discriminate.
    intros H. inversion H; subst st'.
    apply valid_modify. apply valid_modify.
    destruct (0 <? _)%Z.
    - destruct (valid_modify st r d
                  (Fighter.set_score
                     (Z.max 0 (Fighter.score df
                               - Math_floor (fmul (inject_Z (Fighter.score df))
                                                  SCORE_DROP_FRACTION_PVP))))
                  (fun e => e) V) as (e & He).
      exists e. rewrite (getEnt_spawnScoreOrbs Math_cos Math_sin). exact He.
    - apply valid_modify. exact V. }
  destruct (negb (Ref_eqb d RPlayer) && negb (Ref_eqb d RBot)).
  { intros H. inversion H; subst st'.
    apply valid_modify. apply valid_modify.
    destruct V as (e & He). exists e. rewrite getEnt_set_kos. exact He. }
  intros H. inversion H; subst st'. apply valid_modify. exact V.
Qed.

Lemma valid_applyDamage (st st' : State.t) (a d r : Ref) (now m : Q) (fw : bool)
  (dr : Draws) :
  a <> d -> r <> RBoss -> valid st r ->
  applyDamage st a d now m fw dr = Some st' -> valid st' r.
Proof.
  intros N Nb V H.
  destruct (getEnt st a) as [ae|] eqn:Ha;
    [|unfold applyDamage in H; rewrite Ha in H; discriminate].
  destruct (getEnt st d) as [de|] eqn:Hd;
    [|unfold applyDamage in H; rewrite Ha, Hd in H; discriminate].
  rewrite (applyDamage_unfold Math_cos Math_sin Math_hypot st a d now m fw dr ae de Ha Hd N) in H.
  destruct (onCooldown _ now fw); [inversion H; subst st'; exact V|].
  destruct (ent_invulnerable de now).
  { inversion H; subst st'. unfold afterCooldown. apply valid_modify. exact V. }
  pose proof (valid_hitState st a d now m dr ae de r V) as V4.
  destruct (Qleb _ 0).
  - exact (valid_applyDamage_death _ _ a d r now dr Nb V4 H).
  - inversion H; subst st'. exact V4.
Qed.

(** One iteration returns, keeps every reference except the boss's
    valid, and keeps the projectile only if it is unexpired. *)
Lemma stepProjectile_total (st : State.t) (pr : Projectile.t) (dt now : Q) (dr : Draws) :
  valid st (Projectile.owner pr) ->
  exists st' o,
    stepProjectile st pr dt now dr = Some (st', o) /\
    (forall r, r <> RBoss -> valid st r -> valid st' r) /\
    (forall q, o = Some q ->
               q = advance pr dt /\ Projectile.age q < Projectile.life q).
Proof.
  intros (oe & Ho).
  assert (Ho' : getEnt st (Projectile.owner (advance pr dt)) = Some oe) by exact Ho.
  pose proof (hitLoop_first st (advance pr dt) now dr oe (targets st) Ho'
                (targets_valid st)) as L.
  unfold stepProjectile. cbv zeta.
  destruct (find (waveCandidate st (advance pr dt)) (targets st)) as [t|] eqn:F.
  - destruct L as (st' & W & L). rewrite L. rewrite orb_true_r.
    exists st', None. split; [reflexivity|]. split; [|discriminate].
    intros r Nb V.
    apply find_some in F as [_ C]. unfold waveCandidate in C.
    destruct (getEnt st t) as [te|] eqn:Ht; [|discriminate].
    apply andb_prop in C as [C _]. apply andb_prop in C as [_ C].
    apply negb_true_iff, Ref_eqb_neq in C.
    unfold waveHit in W. cbv zeta in W.
    refine (valid_applyDamage _ st' _ t r now _ true dr _ Nb _ W); [congruence|].
    apply valid_modify. exact V.
  - rewrite L. rewrite orb_false_r.
    destruct (Qleb _ _) eqn:E.
    + exists st, None. split; [reflexivity|]. split; [auto | discriminate].
    + exists st, (Some (advance pr dt)). split; [reflexivity|]. split; [auto|].
      intros q Hq. inversion Hq; subst q. split; [reflexivity|].
      apply Qleb_gt. exact E.
Qed.

(** The whole loop returns when every projectile is owned by a fighter
    of the state, and what it leaves in the list are advanced, unexpired
    projectiles of the list it was given. *)
Lemma updateProjectiles_loop_total (dt now : Q) (prs : list Projectile.t) :
  forall (st : State.t) (dr : nat -> Draws),
    (forall pr, In pr prs -> Projectile.owner pr <> RBoss /\ valid st (Projectile.owner pr)) ->
    exists st' prs',
      updateProjectiles_loop Math_cos Math_sin Math_hypot prs st dt now dr = Some (st', prs') /\
      (forall r, r <> RBoss -> valid st r -> valid st' r) /\
      (forall q, In q prs' ->
                 exists pr, In pr prs /\ q = advance pr dt /\
                            Projectile.age q < Projectile.life q).
Proof.
  induction prs as [|pr prs IH]; intros st dr V.
  - exists st, []. split; [reflexivity|]. split; [auto|]. intros q [].
  - destruct (IH st (fun k => dr (S k))) as (st1 & prs1 & L1 & V1 & S1).
    { intros p Hp. apply V. right. exact Hp. }
    destruct (V pr (or_introl eq_refl)) as (Nb & Vo).
    destruct (stepProjectile_total st1 pr dt now (dr O) (V1 _ Nb Vo))
      as (st2 & o & L2 & V2 & S2).
    exists st2, (match o with Some p => p :: prs1 | None => prs1 end).
    split; [|split].
    + cbn [updateProjectiles_loop]. rewrite L1, L2. reflexivity.
    + intros r Nr Vr. apply V2; [exact Nr|]. apply V1; assumption.
    + intros q Hq.
      assert (Hin : (exists p, o = Some p /\ q = p) \/ In q prs1).
      { destruct o as [p|]; [|right; exact Hq].
        destruct Hq as [<-|Hq]; [left; eauto | right; exact Hq]. }
      destruct Hin as [(p & Ho & ->)|Hin].
      * destruct (S2 p Ho) as (E & A). exists pr. split; [left; reflexivity|].
        split; assumption.
      * destruct (S1 q Hin) as (p & Hp & E & A). exists p.
        split; [right; exact Hp|]. split; assumption.
Qed.

Lemma projectiles_modify (st : State.t) (r : Ref) (g : Ent -> Ent) :
  State.projectiles (modify r g st) = State.projectiles st.
Proof.
  unfold modify. destruct (getEnt st r) as [e|]; [|reflexivity].
  destruct r, (g e); reflexivity.
Qed.

(** A wave cast appends at most one projectile, owned by the caster,
    of age 0 and of lifetime [WAVE_RANGE / WAVE_SPEED]. *)
Lemma tryWave_projectile (st : State.t) (p : Ref) (now : Q) :
  State.projectiles (tryWave st p now) = State.projectiles st \/
  exists pr,
    State.projectiles (tryWave st p now) = State.projectiles st ++ [pr] /\
    Projectile.owner pr = p /\ Projectile.age pr = 0 /\
    Projectile.life pr = fdiv WAVE_RANGE WAVE_SPEED.
Proof.
  unfold tryWave. destruct (getEnt st p) as [[f|b]|]; try (left; reflexivity).
  destruct (_ <=? 0)%Z; [left; reflexivity|].
  destruct (Qltb now _); [left; reflexivity|].
  right. cbv zeta. rsimpl. rewrite projectiles_modify.
  eexists. split; [reflexivity|]. repeat split.
Qed.

(** One iteration of the loop of [updateProjectiles], that is, one live
    projectile in one tick; [pr'] is the projectile after its age and
    position are advanced. *)
Lemma stepProjectile_first_hit (st : State.t) (pr : Projectile.t) (dt now : Q)
  (dr : Draws) (oe : Ent) :
  getEnt st (Projectile.owner pr) = Some oe ->
  let pr' := advance pr dt in
  match find (waveCandidate st pr') (targets st) with
  | None =>
      stepProjectile st pr dt now dr
      = Some (st, if Qleb (Projectile.life pr') (Projectile.age pr') then None
                  else Some pr')
  | Some t =>
      exists st',
        waveHit st pr' t now dr = Some st' /\
        stepProjectile st pr dt now dr = Some (st', None) /\
        (forall r, r <> t -> r <> Projectile.owner pr -> getEnt st' r = getEnt st r) /\
        (exists oe', getEnt st' (Projectile.owner pr) = Some oe' /\ ent_hp oe' = ent_hp oe)
  end.
Proof.
  intros Ho pr'.
  assert (Ho' : getEnt st (Projectile.owner pr') = Some oe) by exact Ho.
  pose proof (hitLoop_first st pr' now dr oe (targets st) Ho' (targets_valid st)) as L.
  unfold stepProjectile. cbv zeta. fold pr'.
  destruct (find (waveCandidate st pr') (targets st)) as [t|] eqn:F.
  - destruct L as (st' & W & L). exists st'.
    split; [exact W|]. split.
    + rewrite L. rewrite orb_true_r. reflexivity.
    + apply find_some in F as [_ C]. unfold waveCandidate in C.
      destruct (getEnt st t) as [te|] eqn:Ht; [|discriminate].
      apply andb_prop in C as [C _]. apply andb_prop in C as [_ C].
      apply negb_true_iff, Ref_eqb_neq in C.
      unfold waveHit in W. cbv zeta in W.
      change (Projectile.owner pr') with (Projectile.owner pr) in *.
      set (st1 := modify (Projectile.owner pr) _ st) in W.
      assert (N : Projectile.owner pr <> t) by congruence.
      split.
      * intros r Nt Nown.
        rewrite (applyDamage_other st1 st' _ t r now _ true dr N Nown Nt W).
        unfold st1. apply getEnt_modify_other. congruence.
      * assert (G1 : exists oe1, getEnt st1 (Projectile.owner pr) = Some oe1 /\
                                 ent_hp oe1 = ent_hp oe).
        { eexists. split.
          - apply getEnt_modify_same; [exact Ho' | apply same_kind_ent_on].
          - destruct oe; reflexivity. }
        destruct G1 as (oe1 & G1 & E1).
        destruct (applyDamage_attacker_hp st1 st' _ t now _ true dr oe1 N G1 W)
          as (oe' & G' & E').
        exists oe'. split; [exact G' | congruence].
  - rewrite L. rewrite orb_false_r. reflexivity.
Qed.


(** The loop over a list that is the concatenation of two: the
    projectiles of the second list are processed first, then those of the
    first list on the state the second left; the survivors keep their
    order. *)
Lemma updateProjectiles_loop_app (dt now : Q) (front rest : list Projectile.t) :
  forall (st : State.t) (dr : nat -> Draws),
    updateProjectiles_loop Math_cos Math_sin Math_hypot (front ++ rest) st dt now dr
    = (rb <- updateProjectiles_loop Math_cos Math_sin Math_hypot rest st dt now
                                    (fun k => dr (List.length front + k)%nat) ;;
       rf <- updateProjectiles_loop Math_cos Math_sin Math_hypot front (fst rb) dt now dr ;;
       Some (fst rf, snd rf ++ snd rb)).
Proof.
  induction front as [|p front IH]; intros st dr.
  - cbn [app List.length Nat.add updateProjectiles_loop].
    change (fun k : nat => dr k) with dr.
    destruct (updateProjectiles_loop _ _ _ rest st dt now dr) as [[sb rest']|];
      reflexivity.
  - cbn [app updateProjectiles_loop]. rewrite IH.
    change (fun k : nat => dr (S (List.length front + k)))
      with (fun k : nat => dr (List.length (p :: front) + k)%nat).
    destruct (updateProjectiles_loop _ _ _ rest st dt now _) as [[sb rest']|];
      [|reflexivity].
    cbn [fst snd].
    destruct (updateProjectiles_loop _ _ _ front sb dt now _) as [[sf front']|];
      [|reflexivity].
    cbn [fst snd].
    destruct (stepProjectile sf p dt now (dr O)) as [[s2 [q|]]|]; reflexivity.
Qed.

(** A tick in which no projectile finds a target: the state is left as
    it was, and the list is the list of the advanced projectiles without
    those whose age has reached their lifetime. *)
Lemma updateProjectiles_loop_quiet (dt now : Q) (prs : list Projectile.t) :
  forall (st : State.t) (dr : nat -> Draws),
    (forall pr, In pr prs ->
                valid st (Projectile.owner pr) /\
                find (waveCandidate st (advance pr dt)) (targets st) = None) ->
    updateProjectiles_loop Math_cos Math_sin Math_hypot prs st dt now dr
    = Some (st, filter (fun q => negb (Qleb (Projectile.life q) (Projectile.age q)))
                       (map (fun pr => advance pr dt) prs)).
Proof.
  induction prs as [|pr prs IH]; intros st dr H; [reflexivity|].
  cbn [updateProjectiles_loop map filter].
  rewrite IH by (intros p Hp; apply H; right; exact Hp).
  destruct (H pr (or_introl eq_refl)) as ((oe & Ho) & F).
  pose proof (stepProjectile_first_hit st pr dt now (dr O) oe Ho) as S.
  cbv zeta in S. rewrite F in S. rewrite S.
  destruct (Qleb _ _); reflexivity.
Qed.

(** C5.  A wave cast creates a projectile of age 0 whose lifetime is
    [WAVE_RANGE / WAVE_SPEED].

    One projectile.  Advancing a projectile adds [dt] to its age and
    [dx * speed * dt], [dy * speed * dt] to its position, and leaves its
    lifetime and its owner as they are.  In one iteration of the loop of
    [updateProjectiles] ([pr'] being the advanced projectile):
    if no target passes the test (alive, not the owner, inside the
    capsule), the state is returned as it was, so no health changes, and
    the projectile leaves the list exactly when its age has reached its
    lifetime; otherwise the first target [t] of the list that passes the
    test is hit by one [applyDamage] of the owner on [t], no object other
    than [t] and the owner is written, the owner's health is unchanged,
    and the projectile leaves the list.

    The tick.  [updateProjectiles] runs that iteration once for every
    projectile of [state.projectiles], from the last to the first: for a
    list [front ++ pr :: back] the projectiles of [back] are processed,
    then [pr] on the state they left, then those of [front]; [pr] stays
    in the list, advanced and at its place, exactly when its iteration
    returned it.  When no projectile finds a target, the tick leaves the
    state as it was and the list becomes the list of the advanced
    projectiles without those whose age has reached their lifetime.
    When every projectile is owned by a fighter of the state, the tick
    returns, and what it leaves in the list are advanced projectiles
    whose age is below their lifetime. *)
Theorem projectile_single_hit :
  (forall (st : State.t) (p : Ref) (now : Q),
      State.projectiles (tryWave st p now) = State.projectiles st \/
      exists pr,
        State.projectiles (tryWave st p now) = State.projectiles st ++ [pr] /\
        Projectile.owner pr = p /\ Projectile.age pr = 0 /\
        Projectile.life pr = fdiv WAVE_RANGE WAVE_SPEED) /\
  (forall (pr : Projectile.t) (dt : Q),
      Projectile.age (advance pr dt) = fadd (Projectile.age pr) dt /\
      Projectile.x (advance pr dt)
      = fadd (Projectile.x pr) (fmul (fmul (Projectile.dx pr) (Projectile.speed pr)) dt) /\
      Projectile.y (advance pr dt)
      = fadd (Projectile.y pr) (fmul (fmul (Projectile.dy pr) (Projectile.speed pr)) dt) /\
      Projectile.life (advance pr dt) = Projectile.life pr /\
      Projectile.owner (advance pr dt) = Projectile.owner pr) /\
  (forall (st : State.t) (pr : Projectile.t) (dt now : Q) (dr : Draws) (oe : Ent),
      getEnt st (Projectile.owner pr) = Some oe ->
      let pr' := advance pr dt in
      match find (waveCandidate st pr') (targets st) with
      | None =>
          stepProjectile st pr dt now dr
          = Some (st, if Qleb (Projectile.life pr') (Projectile.age pr') then None
                      else Some pr')
      | Some t =>
          exists st',
            waveHit st pr' t now dr = Some st' /\
            stepProjectile st pr dt now dr = Some (st', None) /\
            (forall r, r <> t -> r <> Projectile.owner pr -> getEnt st' r = getEnt st r) /\
            (exists oe', getEnt st' (Projectile.owner pr) = Some oe' /\
                         ent_hp oe' = ent_hp oe)
      end) /\
  (forall (st : State.t) (dt now : Q) (dr : nat -> Draws)
          (front back : list Projectile.t) (pr : Projectile.t),
      State.projectiles st = front ++ pr :: back ->
      let dr' := fun k => dr (List.length front + k)%nat in
      updateProjectiles st dt now dr
      = (rb <- updateProjectiles_loop Math_cos Math_sin Math_hypot back st dt now
                                      (fun k => dr' (S k)) ;;
         rs <- stepProjectile (fst rb) pr dt now (dr' O) ;;
         rf <- updateProjectiles_loop Math_cos Math_sin Math_hypot front (fst rs) dt now dr ;;
         Some (State.set_projectiles
                 (snd rf ++ (match snd rs with Some q => [q] | None => [] end) ++ snd rb)
                 (fst rf)))) /\
  (forall (st : State.t) (dt now : Q) (dr : nat -> Draws),
      (forall pr, In pr (State.projectiles st) ->
                  valid st (Projectile.owner pr) /\
                  find (waveCandidate st (advance pr dt)) (targets st) = None) ->
      updateProjectiles st dt now dr
      = Some (State.set_projectiles
                (filter (fun q => negb (Qleb (Projectile.life q) (Projectile.age q)))
                        (map (fun pr => advance pr dt) (State.projectiles st)))
                st)) /\
  (forall (st : State.t) (dt now : Q) (dr : nat -> Draws),
      (forall pr, In pr (State.projectiles st) ->
                  Projectile.owner pr <> RBoss /\ valid st (Projectile.owner pr)) ->
      exists st',
        updateProjectiles st dt now dr = Some st' /\
        (forall q, In q (State.projectiles st') ->
                   exists pr, In pr (State.projectiles st) /\ q = advance pr dt /\
                              Projectile.age q < Projectile.life q)).
Proof.
  split; [exact tryWave_projectile|].
  split; [intros pr dt; repeat split; reflexivity|].
  split; [exact stepProjectile_first_hit|].
  split; [|split].
  - intros st dt now dr front back pr E dr'.
    unfold updateProjectiles. rewrite E, updateProjectiles_loop_app.
    cbn [updateProjectiles_loop].
    change (fun k : nat => dr (List.length front + S k)%nat)
      with (fun k : nat => dr' (S k)).
    change (dr (List.length front + 0)%nat) with (dr' O).
    destruct (updateProjectiles_loop _ _ _ back st dt now _) as [[sb back']|];
      [|reflexivity].
    cbn [fst snd].
    destruct (stepProjectile sb pr dt now (dr' O)) as [[s1 o]|]; [|reflexivity].
    cbn [fst snd].
    destruct (updateProjectiles_loop _ _ _ front s1 dt now dr) as [[s2 front']|];
      [|reflexivity].
    cbn [fst snd]. destruct o; reflexivity.
  - intros st dt now dr H. unfold updateProjectiles.
    rewrite (updateProjectiles_loop_quiet dt now _ st dr H). reflexivity.
  - intros st dt now dr V.
    destruct (updateProjectiles_loop_total dt now (State.projectiles st) st dr V)
      as (st' & prs' & L & _ & S).
    exists (State.set_projectiles prs' st'). split.
    + unfold updateProjectiles. rewrite L. reflexivity.
    + exact S.
Qed.

End Projectiles.

(* ================================================================== *)
(** * Where the legacy variant differs *)
(* ================================================================== *)

(** The legacy respawn grants no spawn protection. *)
Lemma Legacy_respawnFighter_no_protection (p : Fighter.t) (isPlayer : bool) :
  Fighter.invulnUntil (Legacy.respawnFighter p isPlayer) = Fighter.invulnUntil p.
Proof. reflexivity. Qed.

(** In the legacy loop a wave goes through: with two chasers in the
    capsule, both are damaged in the same tick ([game.js] stops at the
    first one). *)
Example Legacy_wave_pierces :
  option_map (fun r => (map Enemy.hp (State.enemies (fst r)), snd r))
    (Legacy.stepProjectile cos_taylor sin_taylor sampleState_twoChasers sampleWaveHit
                           (lit (16 # 1000)) 1000 (fun _ => sampleDraws))
  = Some ([91; 91], None) /\
  option_map (fun r => (map Enemy.hp (State.enemies (fst r)), snd r))
    (stepProjectile cos_taylor sin_taylor hypot_rounded sampleState_twoChasers sampleWaveHit
                    (lit (16 # 1000)) 1000 sampleDraws)
  = Some ([74; 100], None).
Proof. split; vm_compute; reflexivity. Qed.

(** In the legacy variant a quiet window re-arms the first strike of a
    player with plasma: unprimed at time 0, the player hits for three
    times the damage at time 5000; in [game.js] the same hit is not
    tripled. *)
Example Legacy_quiet_window_reprimes :
  option_map (fun st' => map Enemy.hp (State.enemies st'))
    (Legacy.applyDamage cos_taylor sin_taylor sampleState_unprimed RPlayer (REnemy 0)
                        5000 1 false sampleDraws)
  = Some [75] /\
  option_map (fun st' => map Enemy.hp (State.enemies st'))
    (applyDamage cos_taylor sin_taylor hypot_rounded sampleState_unprimed RPlayer (REnemy 0)
                 5000 1 false sampleDraws)
  = Some [92].
Proof. split; vm_compute; reflexivity. Qed.

(** The legacy stuck counter is reset by a frame that is not stuck; the
    counter of [game.js] decays by one. *)
Example Legacy_stuck_counter_resets :
  Fighter.stuckFrames
    (Legacy.updateBotPlayer_stuck hypot_rounded [] sampleStuckBot (lit (33 # 1000)) 5000 (1 # 4)) = 0%Z /\
  Fighter.stuckFrames
    (updateBotPlayer_stuck cos_taylor sin_taylor hypot_rounded [] sampleStuckBot (lit (33 # 1000)) 5000
                           (1 # 8) (1 # 2)) = 8%Z.
Proof. split; vm_compute; reflexivity. Qed.

(* ================================================================== *)
(** * Closed examples *)
(* ================================================================== *)


Lemma applyDamage_invulnerable_witness :
  (0 <= 1000 /\ 1000 < Fighter.invulnUntil (Fighter.set_invulnUntil 2000 makeBotPlayer) /\
   1000 <= MAX_SAFE) /\
  exists st',
    applyDamage cos_taylor sin_taylor hypot_rounded (sampleState_botInvuln 2000) RPlayer RBot
                1000 1 false sampleDraws = Some st' /\
    (exists df', getEnt st' RBot = Some (EF df') /\
                 Fighter.hp df' = Fighter.hp (Fighter.set_invulnUntil 2000 makeBotPlayer)) /\
    (exists ae', getEnt st' RPlayer = Some ae' /\
                 ent_hitReadyAt ae' = fadd 1000 HIT_COOLDOWN_MS /\
                 ent_hitReadyAt (EF makePlayer) < ent_hitReadyAt ae' /\
                 ~ ent_hitReadyAt ae' == ent_hitReadyAt (EF makePlayer)).
Proof.
  assert (H0 : 0 <= 1000) by (vm_compute; discriminate).
  assert (H1 : 1000 < Fighter.invulnUntil (Fighter.set_invulnUntil 2000 makeBotPlayer))
    by (vm_compute; reflexivity).
  assert (Hmax : 1000 <= MAX_SAFE) by (vm_compute; discriminate).
  split; [split; [exact H0 | split; [exact H1 | exact Hmax]]|].
  destruct (applyDamage_invulnerable cos_taylor sin_taylor hypot_rounded
              (sampleState_botInvuln 2000) RPlayer RBot 1000 1 false sampleDraws
              (EF makePlayer) (Fighter.set_invulnUntil 2000 makeBotPlayer)
              eq_refl eq_refl H0 H1) as (st' & A & B & ae' & G & V & M).
  destruct (M eq_refl Hmax) as [Lt Iff].
  exists st'. split; [exact A|]. split; [exact B|].
  exists ae'. split; [exact G|]. split; [exact V|]. split.
  - apply Lt. reflexivity.
  - intros E. apply Iff in E. vm_compute in E. discriminate E.
Defined.

(** C2 as stated fails: the player strikes the bot at time 1000 while the
    bot is protected until 2000; the bot keeps its 100 health, and the
    player's [hitReadyAt] goes from 0 to 1320. *)
Lemma applyDamage_invulnerable_cooldown_consumed :
  Fighter.hitReadyAt (State.player (sampleState_botInvuln 2000)) = 0 /\
  1000 < Fighter.invulnUntil (Fighter.set_invulnUntil 2000 makeBotPlayer) /\
  option_map
    (fun st' => (option_map Fighter.hp (State.botPlayer st'),
                 Fighter.hitReadyAt (State.player st')))
    (applyDamage cos_taylor sin_taylor hypot_rounded (sampleState_botInvuln 2000) RPlayer RBot
                 1000 1 false sampleDraws)
  = Some (Some 100, 1320) /\
  ~ 1320 == 0.
Proof.
  split; [reflexivity|]. split; [vm_compute; reflexivity|].
  split; [vm_compute; reflexivity|]. intros H. discriminate H.
Qed.

(** The player of a fresh game has plasma 0 and is primed: its first hit
    on the chaser is tripled (13 instead of 4), and the flag is cleared.
    An unprimed bot with 5 health that the player kills comes out primed,
    as the result of [respawnFighter]. *)
Lemma plasma_first_strike_witness :
  (Fighter.plasma makePlayer = 0%Z /\ Fighter.plasmaPrimed makePlayer = true /\
   exists st' af',
     applyDamage cos_taylor sin_taylor hypot_rounded sampleState RPlayer (REnemy 0) 1000 1
                 false sampleDraws = Some st' /\
     getEnt st' RPlayer = Some (EF af') /\ Fighter.plasmaPrimed af' = false /\
     exists de', getEnt st' (REnemy 0) = Some de' /\ ent_hp de' = 87) /\
  (option_map Fighter.plasmaPrimed (State.botPlayer (sampleState_unprimedBot 5 180))
   = Some false /\
   exists st' f',
     applyDamage cos_taylor sin_taylor hypot_rounded (sampleState_unprimedBot 5 180)
                 RPlayer RBot 1000 1 false sampleDraws = Some st' /\
     getEnt st' RBot = Some (EF f') /\ Fighter.plasmaPrimed f' = true /\
     exists boss p,
       f' = respawnFighter hypot_rounded boss (t_respawn sampleDraws) p false).
Proof.
  destruct (plasma_first_strike cos_taylor sin_taylor hypot_rounded) as (A & _ & _ & C).
  split.
  - split; [reflexivity|]. split; [reflexivity|].
    assert (Ha : getEnt sampleState RPlayer = Some (EF makePlayer)) by reflexivity.
    assert (Hd : getEnt sampleState (REnemy 0)
                 = Some (EE (makeEnemy 0 (Some chaser) sampleEnemyDraws))) by reflexivity.
    assert (N : RPlayer <> REnemy 0) by discriminate.
    assert (Hc : onCooldown (Fighter.hitReadyAt makePlayer) 1000 false = false)
      by (vm_compute; reflexivity).
    assert (Hi : ent_invulnerable (EE (makeEnemy 0 (Some chaser) sampleEnemyDraws)) 1000
                 = false) by reflexivity.
    pose proof (A sampleState RPlayer (REnemy 0) 1000 1 false sampleDraws makePlayer _
                  Ha Hd N Hc Hi) as H.
    cbv zeta in H.
    replace (Qmax 0 _) with 87 in H by (vm_compute; reflexivity).
    destruct H as (st' & af' & H1 & H2 & H3 & H4).
    exists st', af'. split; [exact H1|]. split; [exact H2|]. split; [exact H3|].
    apply H4. reflexivity.
  - split; [reflexivity|].
    set (st0 := sampleState_unprimedBot 5 180).
    set (st' := match applyDamage cos_taylor sin_taylor hypot_rounded st0 RPlayer RBot
                                  1000 1 false sampleDraws with
                | Some s => s | None => st0 end).
    set (f' := match State.botPlayer st' with Some f => f | None => makeBotPlayer end).
    assert (H : applyDamage cos_taylor sin_taylor hypot_rounded st0 RPlayer RBot
                            1000 1 false sampleDraws = Some st')
      by (vm_compute; reflexivity).
    assert (G : getEnt st' RBot = Some (EF f')) by (vm_compute; reflexivity).
    assert (P : ent_plasmaPrimed (EF f') = true) by (vm_compute; reflexivity).
    assert (N : RPlayer <> RBot) by discriminate.
    assert (G0 : getEnt st0 RBot
                 = Some (EF (Fighter.set_plasmaPrimed false (sampleBot 5 180))))
      by reflexivity.
    clearbody f'. clearbody st'. clearbody st0.
    exists st', f'. split; [exact H|]. split; [exact G|]. split; [exact P|].
    destruct (C st0 st' RPlayer RBot RBot 1000 1 false sampleDraws
                (EF (Fighter.set_plasmaPrimed false (sampleBot 5 180))) (EF f') N H G0 G P)
      as [L | (_ & ae & boss & p & _ & _ & _ & _ & E)].
    + discriminate L.
    + exists boss, p.
      exact (f_equal (fun e => match e with EF f => f | EE _ => f' end) E).
Defined.

(** A PvP elimination with a loser's score of 180: the player's first
    hit (13) kills the bot, which has 5 health left; the binary64 product
    180 * 0.35 is 62.99999999999999, so 62 points are dropped, in two
    orbs, and the bot keeps 118. *)
Lemma pvp_score_drop_witness :
  ((0 <= Fighter.score (sampleBot 5 180))%Z /\
   hitHp (EF makePlayer) (EF (sampleBot 5 180)) 1 sampleDraws <= 0) /\
  exists st' df' orbs,
    applyDamage cos_taylor sin_taylor hypot_rounded (sampleState_bot 5 180) RPlayer RBot 1000 1 false
                sampleDraws = Some st' /\
    getEnt st' RBot = Some (EF df') /\
    Fighter.score df' = (Fighter.score (sampleBot 5 180) - 62)%Z /\
    State.partsOnField st' = State.partsOnField (sampleState_bot 5 180) ++ orbs /\
    Forall (fun p => Part.kind p = score) orbs /\
    orbTotal orbs = 62%Z.
Proof.
  assert (Hs : (0 <= Fighter.score (sampleBot 5 180))%Z) by (vm_compute; discriminate).
  assert (Hdead : hitHp (EF makePlayer) (EF (sampleBot 5 180)) 1 sampleDraws <= 0)
    by (vm_compute; discriminate).
  split; [split; assumption|].
  assert (Ha : getEnt (sampleState_bot 5 180) RPlayer = Some (EF makePlayer))
    by reflexivity.
  assert (Hd : getEnt (sampleState_bot 5 180) RBot = Some (EF (sampleBot 5 180)))
    by reflexivity.
  assert (N : RPlayer <> RBot) by discriminate.
  assert (Hc : onCooldown (Fighter.hitReadyAt makePlayer) 1000 false = false)
    by (vm_compute; reflexivity).
  assert (Hi : ent_invulnerable (EF (sampleBot 5 180)) 1000 = false)
    by (vm_compute; reflexivity).
  pose proof (pvp_score_drop cos_taylor sin_taylor hypot_rounded (sampleState_bot 5 180) RPlayer RBot
                1000 1 false sampleDraws makePlayer (sampleBot 5 180)
                Ha Hd N Hc Hi Hdead Hs) as H.
  cbv zeta in H.
  replace (Math_floor (fmul (inject_Z (Fighter.score (sampleBot 5 180)))
                            SCORE_DROP_FRACTION_PVP))
    with 62%Z in H by (vm_compute; reflexivity).
  exact H.
Defined.

(** The run of the witness above, evaluated: two orbs of 31 points. *)
Example pvp_score_drop_180 :
  option_map
    (fun st' => (option_map Fighter.score (State.botPlayer st'),
                 Fighter.score (State.player st'),
                 map partValue (State.partsOnField st')))
    (applyDamage cos_taylor sin_taylor hypot_rounded (sampleState_bot 5 180) RPlayer RBot 1000 1 false
                 sampleDraws)
  = Some (Some 118%Z, 50%Z, [31%Z; 31%Z]).
Proof. vm_compute. reflexivity. Qed.

Lemma fighterBounds_makeFighter (x y : Q) (tint : Tint) :
  fighterBounds (makeFighter x y tint).
Proof. unfold fighterBounds. rsimpl. repeat split; vm_compute; discriminate. Qed.

Lemma stateBounds_sampleState : stateBounds sampleState.
Proof.
  intros r f H. destruct r as [| | |i]; simpl in H.
  - inversion H. apply fighterBounds_makeFighter.
  - inversion H. apply fighterBounds_makeFighter.
  - discriminate H.
  - destruct i as [|[|i]]; discriminate H.
Qed.

Lemma stateSafe_sampleState : stateSafe sampleState.
Proof.
  intros r f H. destruct r as [| | |i]; simpl in H.
  - inversion H. vm_compute. discriminate.
  - inversion H. vm_compute. discriminate.
  - discriminate H.
  - destruct i as [|[|i]]; discriminate H.
Qed.

Lemma fighter_bounds_preserved_witness :
  (fighterBounds makePlayer /\ RPlayer <> RBot /\
   stateSafe sampleState /\ stateBounds sampleState) /\
  fighterBounds (mutate hypot_rounded (MPickup sampleEdgePart) makePlayer) /\
  exists st',
    applyDamage cos_taylor sin_taylor hypot_rounded sampleState RPlayer RBot 1000 1 false sampleDraws
    = Some st' /\ stateBounds st'.
Proof.
  assert (B0 : fighterBounds makePlayer) by apply fighterBounds_makeFighter.
  assert (N : RPlayer <> RBot) by discriminate.
  pose proof stateSafe_sampleState as S. pose proof stateBounds_sampleState as B.
  split; [split; [exact B0 | split; [exact N | split; [exact S | exact B]]]|].
  destruct (fighter_bounds_preserved cos_taylor sin_taylor hypot_rounded) as [P1 P2].
  split.
  - apply P1. exact B0.
  - apply (P2 sampleState RPlayer RBot 1000 1 false sampleDraws
              (EF makePlayer) (EF makeBotPlayer));
      [reflexivity | reflexivity | exact N | exact S | exact B].
Defined.


(** A wave of the player reaches the chaser: the chaser is the first
    target that passes the test, it is hit once, and the projectile is
    removed.  In a tick with three waves in flight, the one that reaches
    the chaser takes 26 health from it and leaves the list, the expired
    one leaves the list, and the fresh one that touches nothing stays,
    advanced.  In a tick where no wave finds a target nothing but the
    list changes. *)
Lemma projectile_single_hit_witness :
  (getEnt sampleState (Projectile.owner sampleWaveHit) = Some (EF makePlayer) /\
   find (waveCandidate sampleState (advance sampleWaveHit (lit (16 # 1000))))
        (targets sampleState) = Some (REnemy 0) /\
   exists st',
     waveHit cos_taylor sin_taylor hypot_rounded sampleState
             (advance sampleWaveHit (lit (16 # 1000))) (REnemy 0) 1000 sampleDraws
     = Some st' /\
     stepProjectile cos_taylor sin_taylor hypot_rounded sampleState sampleWaveHit
                    (lit (16 # 1000)) 1000 sampleDraws = Some (st', None) /\
     (forall r, r <> REnemy 0 -> r <> Projectile.owner sampleWaveHit ->
                getEnt st' r = getEnt sampleState r) /\
     (exists oe', getEnt st' (Projectile.owner sampleWaveHit) = Some oe' /\
                  ent_hp oe' = ent_hp (EF makePlayer))) /\
  (State.projectiles (sampleState_waves [sampleWaveFar; sampleWaveHit; sampleWaveMiss])
   = [sampleWaveFar] ++ sampleWaveHit :: [sampleWaveMiss] /\
   option_map
     (fun st' => (State.projectiles st', map Enemy.hp (State.enemies st'),
                  Fighter.hp (State.player st')))
     (updateProjectiles cos_taylor sin_taylor hypot_rounded
        (sampleState_waves [sampleWaveFar; sampleWaveHit; sampleWaveMiss])
        (lit (16 # 1000)) 1000 (fun _ => sampleDraws))
   = Some ([advance sampleWaveFar (lit (16 # 1000))], [74], 100)) /\
  ((forall pr, In pr (State.projectiles (sampleState_waves [sampleWaveFar; sampleWaveMiss])) ->
               valid (sampleState_waves [sampleWaveFar; sampleWaveMiss]) (Projectile.owner pr) /\
               find (waveCandidate (sampleState_waves [sampleWaveFar; sampleWaveMiss])
                                   (advance pr (lit (16 # 1000))))
                    (targets (sampleState_waves [sampleWaveFar; sampleWaveMiss])) = None) /\
   updateProjectiles cos_taylor sin_taylor hypot_rounded
     (sampleState_waves [sampleWaveFar; sampleWaveMiss]) (lit (16 # 1000)) 1000
     (fun _ => sampleDraws)
   = Some (sampleState_waves [advance sampleWaveFar (lit (16 # 1000))])).
Proof.
  destruct (projectile_single_hit cos_taylor sin_taylor hypot_rounded)
    as (_ & _ & B & D & T & _).
  split; [|split].
  - assert (Ho : getEnt sampleState (Projectile.owner sampleWaveHit) = Some (EF makePlayer))
      by reflexivity.
    assert (F : find (waveCandidate sampleState (advance sampleWaveHit (lit (16 # 1000))))
                     (targets sampleState) = Some (REnemy 0))
      by (vm_compute; reflexivity).
    split; [exact Ho|]. split; [exact F|].
    pose proof (B sampleState sampleWaveHit (lit (16 # 1000)) 1000 sampleDraws
                  (EF makePlayer) Ho) as H.
    cbv zeta in H. rewrite F in H. exact H.
  - assert (E : State.projectiles
                  (sampleState_waves [sampleWaveFar; sampleWaveHit; sampleWaveMiss])
                = [sampleWaveFar] ++ sampleWaveHit :: [sampleWaveMiss]) by reflexivity.
    split; [exact E|].
    rewrite (D _ (lit (16 # 1000)) 1000 (fun _ => sampleDraws) _ _ _ E).
    vm_compute. reflexivity.
  - assert (Q : forall pr,
               In pr (State.projectiles (sampleState_waves [sampleWaveFar; sampleWaveMiss])) ->
               valid (sampleState_waves [sampleWaveFar; sampleWaveMiss]) (Projectile.owner pr) /\
               find (waveCandidate (sampleState_waves [sampleWaveFar; sampleWaveMiss])
                                   (advance pr (lit (16 # 1000))))
                    (targets (sampleState_waves [sampleWaveFar; sampleWaveMiss])) = None).
    { intros pr [<-|[<-|[]]]; (split; [eexists; reflexivity | vm_compute; reflexivity]). }
    split; [exact Q|].
    rewrite (T _ (lit (16 # 1000)) 1000 (fun _ => sampleDraws) Q).
    vm_compute. reflexivity.
Defined.

(** The two runs, evaluated: the hit takes 26 health from the chaser and
    removes the projectile; the expired wave that touches nothing is
    removed and leaves every health as it was. *)
Example stepProjectile_hit :
  option_map
    (fun r => (map Enemy.hp (State.enemies (fst r)), Fighter.hp (State.player (fst r)),
               option_map Fighter.hp (State.botPlayer (fst r)), snd r))
    (stepProjectile cos_taylor sin_taylor hypot_rounded sampleState sampleWaveHit (lit (16 # 1000)) 1000
                    sampleDraws)
  = Some ([74], 100, Some 100, None).
Proof. vm_compute. reflexivity. Qed.

Example stepProjectile_expired :
  stepProjectile cos_taylor sin_taylor hypot_rounded sampleState sampleWaveMiss (lit (16 # 1000)) 1000
                 sampleDraws
  = Some (sampleState, None).
Proof. vm_compute. reflexivity. Qed.
